(** * Zeitreihenanalyse-Finanzkennzahlen: panel construction and AR(1) features

    A shallow embedding of [src/config.py], [src/load_data.py] and
    [src/ar_model.py].

    Conventions of the embedding.
    - A float64 cell of a pandas frame is an [option] of an exact number:
      [None] is NaN (a missing value).  Panel construction computes with
      rationals ([Q], so that every definition runs); the estimator, which
      needs [sqrt] and [ln], computes with the reals.
    - A Python [dict] is a [gmap], a [frozenset] or [set] a [gset], the
      columns of a frame a [gmap] from their names to their cells.
    - A raised exception is the [Raised] case of [result].
    - What the code asks of the file system and of statsmodels is an
      argument: [FileSystem] holds what the directories contain and what
      [pd.read_csv] and [pd.to_datetime] make of it (a frame, or the
      exception [pd.read_csv] raises), [statsmodels] the two functions the
      estimator calls. *)

From Stdlib Require Import ZArith QArith Qround Qabs Reals Lqa Lra String.
From stdpp Require Import base list gmap strings sorting pretty.

Set Default Proof Using "Type".

(** ** Exceptions and results *)

Inductive exn : Type :=
| KeyError (key : string)
| TypeError (msg : string)
| IndexError (msg : string)
| RuntimeError (msg : string)
| EmptyDataError (msg : string)
| ParserError (msg : string)
| OSError (msg : string).

Inductive result (A : Type) : Type :=
| Returned (a : A)
| Raised (e : exn).
Arguments Returned {A} a.
Arguments Raised {A} e.

Global Instance result_bind : MBind result := λ A B k r,
  match r with
  | Returned a => k a
  | Raised e => Raised e
  end.

Global Instance result_ret : MRet result := λ A a, Returned a.

Definition raises {A} (r : result A) : Prop := ∃ e, r = Raised e.

(** ** config.py *)

Module config.

Definition YEAR_START : Z := 2000.
Definition YEAR_END : Z := 2024.

Definition EXPECTED_QUARTERS : Z := (YEAR_END - YEAR_START + 1) * 4.

Definition EXCLUDED_SECTORS : gset string :=
  {[ "Financial Services"; "Banks"; "Insurance" ]}.

Definition PROFILE_SECTOR_COL : string := "sector".

Record RatioDef : Type := {
  name : string;
  label : string;
  category : string;
  numerator_col : string;
  numerator_src : string;
  denominator_col : string;
  denominator_src : string;
}.

Definition RATIOS : list RatioDef := [
  {| name := "ROA"; label := "Return on Assets"; category := "Profitabilitaet";
     numerator_col := "netIncome"; numerator_src := "income";
     denominator_col := "totalAssets"; denominator_src := "balance" |};
  {| name := "ROE"; label := "Return on Equity"; category := "Profitabilitaet";
     numerator_col := "netIncome"; numerator_src := "income";
     denominator_col := "totalStockholderEquity"; denominator_src := "balance" |};
  {| name := "EBIT_margin"; label := "EBIT-Marge"; category := "Profitabilitaet";
     numerator_col := "ebit"; numerator_src := "income";
     denominator_col := "totalRevenue"; denominator_src := "income" |};
  {| name := "fcf_margin"; label := "Free-Cashflow-Marge"; category := "Profitabilitaet";
     numerator_col := "freeCashFlow"; numerator_src := "cashflow";
     denominator_col := "totalRevenue"; denominator_src := "income" |};
  {| name := "current_ratio"; label := "Current Ratio"; category := "Liquiditaet";
     numerator_col := "totalCurrentAssets"; numerator_src := "balance";
     denominator_col := "totalCurrentLiabilities"; denominator_src := "balance" |};
  {| name := "debt_to_equity"; label := "Debt-to-Equity"; category := "Kapitalstruktur";
     numerator_col := "shortLongTermDebtTotal"; numerator_src := "balance";
     denominator_col := "totalStockholderEquity"; denominator_src := "balance" |};
  {| name := "equity_ratio"; label := "Eigenkapitalquote"; category := "Kapitalstruktur";
     numerator_col := "totalStockholderEquity"; numerator_src := "balance";
     denominator_col := "totalAssets"; denominator_src := "balance" |}
].

Definition RATIO_NAMES : list string := map name RATIOS.

Definition AR_ORDER : nat := 1.
Definition DIFF_ORDER : nat := 1.

Definition WINSORIZE_QUANTILES : Q * Q := (1 # 100, 99 # 100)%Q.

End config.

(** ** Frames

    A [Panel] is the long-format ratio panel: one entry of each column per
    (ticker, quarter) row.  The ticker and the quarter label are text
    columns; the numeric columns are kept by name. *)

Record Panel (N : Type) : Type := {
  p_ticker : list string;
  p_quarter : list string;
  p_columns : gmap string (list (option N));
}.
Arguments p_ticker {N} _.
Arguments p_quarter {N} _.
Arguments p_columns {N} _.

(** ** load_data.py *)

Module load_data.
Import config.
Local Open Scope Z_scope.

(** *** Numbers and cells *)

(** A float64 cell: a finite number or NaN. *)
Abbreviation cell := (option Q).

Definition Qeqb (x y : Q) : bool := Qeq_bool x y.
Definition Qltb (x y : Q) : bool := negb (Qle_bool y x).

Global Instance Qle_dec : RelDecision Qle.
Proof.
  intros x y. destruct (Qlt_le_dec y x) as [H|H].
  - right. apply Qlt_not_le, H.
  - left. exact H.
Defined.

Global Instance Qle_total : Total Qle.
Proof.
  intros x y. destruct (Qlt_le_dec y x) as [H|H].
  - right. apply Qlt_le_weak, H.
  - left. exact H.
Qed.

Global Instance Qle_trans' : Transitive Qle.
Proof. intros x y z. apply Qle_trans. Qed.

(** *** Dates and calendar quarters *)

(** A parsed timestamp.  [tod] is the time of day in nanoseconds. *)
Record Timestamp : Type := {
  year : Z;
  month : Z;
  day : Z;
  tod : Z;
}.

(** Chronological order of timestamps. *)
Definition ts_le (a b : Timestamp) : Prop :=
  year a < year b ∨ (year a = year b ∧
    (month a < month b ∨ (month a = month b ∧
      (day a < day b ∨ (day a = day b ∧ tod a ≤ tod b))))).

Global Instance ts_le_dec : RelDecision ts_le.
Proof. intros a b. unfold ts_le. apply _. Defined.

Global Instance ts_le_refl : Reflexive ts_le.
Proof. intros a. unfold ts_le. lia. Qed.

Global Instance ts_le_trans : Transitive ts_le.
Proof. intros a b c. unfold ts_le. lia. Qed.

Global Instance ts_le_total : Total ts_le.
Proof. intros a b. unfold ts_le. lia. Qed.

(** A quarterly [pd.Period] is its ordinal: the number of quarters since
    1970Q1. *)
Abbreviation Period := Z.

Definition period (y q : Z) : Period := (y - 1970) * 4 + (q - 1).
Definition period_year (p : Period) : Z := 1970 + p `div` 4.
Definition period_quarter (p : Period) : Z := p `mod` 4 + 1.

(** [ts.to_period("Q")] *)
Definition to_period (t : Timestamp) : Period :=
  period (year t) ((month t - 1) `div` 3 + 1).

(** [pd.period_range(start, end, freq="Q")] *)
Definition period_range (first last : Period) : list Period :=
  seqZ first (last - first + 1).

(** [str(period)], e.g. 2013Q2 *)
Definition period_str (p : Period) : string :=
  pretty (period_year p) +:+ "Q" +:+ pretty (period_quarter p).

(** *** What the file system holds *)

(** A cell as [pd.read_csv] delivers it: text that reads as a number, other
    text, or nothing. *)
Inductive csv_cell : Type :=
| CNum (q : Q)
| CText (s : string)
| CEmpty.

(** [pd.to_numeric(..., errors="coerce")] on one cell. *)
Definition to_numeric (c : csv_cell) : cell :=
  match c with
  | CNum q => Some q
  | _ => None
  end.

(** One record of a statement CSV.  [date] is what
    [pd.to_datetime(df["date"], errors="coerce")] makes of its date cell:
    [None] is NaT, an unparseable date.  [fields] are its cells by column. *)
Record CsvRow : Type := {
  date : option Timestamp;
  fields : gmap string csv_cell;
}.

Record CsvFrame : Type := {
  csv_columns : list string;
  csv_rows : list CsvRow;
}.

(** What [pd.read_csv(path)] raises for a file of which it makes no frame:
    EmptyDataError for a file with no column to parse (a file of zero
    bytes), ParserError for one it cannot tokenize, an OSError for one it
    cannot open. *)
Inductive read_failure : Type :=
| NoColumns
| Malformed
| Unopenable.

Definition read_exn (failure : read_failure) : exn :=
  match failure with
  | NoColumns => EmptyDataError "No columns to parse from file"
  | Malformed => ParserError "Error tokenizing data"
  | Unopenable => OSError "cannot open file"
  end.

(** The symbol cell of a profile row, as pandas delivers it: a text (a
    [str]), or a value that is none, a number or NaN, where pandas reads
    the column as numeric. *)
Inductive symbol_cell : Type :=
| TextSymbol (symbol : string)
| OtherSymbol.

(** The directories of [SRC_DIRS], by their key: the stems of the [*.csv]
    files of a directory; what [pd.read_csv] does with the statement file
    of a ticker ([None] when the path does not exist, else the failure it
    raises or the frame it returns); and the profile CSVs as
    [load_sector_map] reads them ([None] when reading one raises, which the
    function catches; otherwise its rows, as the symbol cell and [str] of
    the sector cell). *)
Record FileSystem : Type := {
  csv_stems : string → list string;
  read_csv : string → string → option (read_failure + CsvFrame);
  profile_csvs : list (option (list (symbol_cell * string)));
}.

(** *** 1. Ticker universe *)

Definition _csv_tickers (fs : FileSystem) (folder : string) : gset string :=
  list_to_set (csv_stems fs folder).

(** [sorted(...)] of a set of strings. *)
Definition sorted (s : gset string) : list string :=
  merge_sort String.le (elements s).

Definition get_ticker_universe (fs : FileSystem) : list string :=
  let common := _csv_tickers fs "income" ∩ _csv_tickers fs "balance"
                ∩ _csv_tickers fs "cashflow" in
  sorted common.

(** *** 2. Sector filter *)

(** The dict is keyed by the symbol cell as it is.  A key that is no text
    (a number, NaN) is one that no ticker, a text, equals: the map holds the
    entries under text keys, which are all that [sector_map.get(t, "")]
    finds for a ticker. *)
Definition load_sector_map (fs : FileSystem) : gmap string string :=
  foldl (λ sector_map df,
           match df with
           | Some ((TextSymbol symbol, sector) :: _) =>
               <[symbol := sector]> sector_map
           | _ => sector_map
           end) ∅ (profile_csvs fs).

Definition filter_sectors (tickers : list string) (sector_map : gmap string string)
    : list string :=
  filter (λ t, default "" (sector_map !! t) ∉ EXCLUDED_SECTORS) tickers.

(** *** 3. One source of one ticker *)

(** A dated record on its way through [_load_source]: its parsed date, its
    calendar quarter and its cells. *)
Record DatedRow : Type := {
  d_date : Timestamp;
  d_quarter : Period;
  d_fields : gmap string csv_cell;
}.

Definition date_le (a b : DatedRow) : Prop := ts_le (d_date a) (d_date b).
Definition quarter_le (a b : DatedRow) : Prop := d_quarter a ≤ d_quarter b.

Global Instance date_le_dec : RelDecision date_le.
Proof. intros a b. unfold date_le. apply _. Defined.

Global Instance quarter_le_dec : RelDecision quarter_le.
Proof. intros a b. unfold quarter_le. apply _. Defined.

Global Instance date_le_refl : Reflexive date_le.
Proof. intros a. apply ts_le_refl. Qed.

Global Instance date_le_trans : Transitive date_le.
Proof. intros a b c. apply ts_le_trans. Qed.

Global Instance date_le_total : Total date_le.
Proof. intros a b. apply ts_le_total. Qed.

(** [df.dropna(subset=["date"])]: rows whose date is NaT go. *)
Definition dropna_date (rows : list CsvRow) : list (Timestamp * CsvRow) :=
  omap (λ r, d ← date r; Some (d, r)) rows.

Definition in_year_range (t : Timestamp) : bool :=
  bool_decide (YEAR_START ≤ year t) && bool_decide (year t ≤ YEAR_END).

(** [drop_duplicates(subset=[key], keep="last")]: a row goes when a later
    row has its key. *)
Fixpoint drop_duplicates_last {A K : Type} `{EqDecision K}
    (key : A → K) (l : list A) : list A :=
  match l with
  | [] => []
  | x :: rest =>
    if bool_decide (key x ∈ key <$> rest)
    then drop_duplicates_last key rest
    else x :: drop_duplicates_last key rest
  end.

(** [df.sort_values(by)], ascending.  Among rows that compare equal pandas
    promises no order (the default is numpy's quicksort); they keep here
    the order they have, which is what that quicksort leaves on a short
    array.  No property below depends on the order among equal rows. *)
Fixpoint insert_sorted {A : Type} (R : relation A) `{!RelDecision R}
    (x : A) (l : list A) : list A :=
  match l with
  | [] => [x]
  | y :: rest =>
    if decide (R x y) then x :: y :: rest else y :: insert_sorted R x rest
  end.

Definition sort_values {A : Type} (R : relation A) `{!RelDecision R}
    (l : list A) : list A :=
  foldr (insert_sorted R) [] l.

(** The rows of [_load_source], from the date filter to [sort_index()]:
    drop NaT, keep the years of the range, attach the calendar quarter, sort
    by date and keep the last row of each quarter, sort by quarter (the
    quarters differ by then). *)
Definition aligned_rows (df : CsvFrame) : list DatedRow :=
  let dated := dropna_date (csv_rows df) in
  let in_range := filter (λ dr, in_year_range dr.1) dated in
  let with_quarter :=
    (λ dr, {| d_date := dr.1; d_quarter := to_period dr.1;
              d_fields := fields dr.2 |}) <$> in_range in
  let latest := drop_duplicates_last d_quarter (sort_values date_le with_quarter) in
  merge_sort quarter_le latest.

(** A frame indexed by calendar quarter, its numeric columns by name. *)
Record DataFrame : Type := {
  index : list Period;
  columns : gmap string (list cell);
}.

Definition drop_cols : list string :=
  ["date"; "filing_date"; "currency_symbol"; "symbol"].

(** [Returned None] is the [None] the function returns; [pd.read_csv]
    is called outside any [try], so what it raises leaves the function. *)
Definition _load_source (fs : FileSystem) (ticker src_name : string)
    : result (option DataFrame) :=
  match read_csv fs src_name ticker with
  | None => Returned None
  | Some (inl failure) => Raised (read_exn failure)
  | Some (inr df) =>
    if bool_decide ("date" ∉ csv_columns df) || Nat.eqb (length (csv_rows df)) 0
    then Returned None
    else
      let rows := aligned_rows df in
      let kept := filter (λ c, c ∉ "quarter" :: drop_cols) (csv_columns df) in
      Returned (Some
        {| index := d_quarter <$> rows;
           columns := list_to_map
             ((λ c, (c, (λ r, to_numeric (default CEmpty (d_fields r !! c))) <$> rows))
                <$> kept) |})
  end.

(** *** 4. Completeness filter *)

Definition _build_expected_quarters : list Period :=
  period_range (period YEAR_START 1) (period YEAR_END 4).

Definition EXPECTED_QTR_INDEX : list Period := _build_expected_quarters.
Global Arguments EXPECTED_QTR_INDEX : simpl never.

Definition _is_complete (dfs : gmap string (option DataFrame)) : bool :=
  forallb (λ item,
             match item.2 with
             | None => false
             | Some df => forallb (λ q, bool_decide (q ∈ index df)) EXPECTED_QTR_INDEX
             end) (map_to_list dfs).

(** *** 5. Ratios *)

Abbreviation Series := (list (Period * cell)).

(** [sources[src_name]] followed by [[col]]: the dict lookup raises KeyError
    for an unknown key, subscripting [None] raises TypeError, and a frame
    raises KeyError for a column it does not have. *)
Definition getitem_source (sources : gmap string (option DataFrame))
    (src_name : string) : result DataFrame :=
  match sources !! src_name with
  | None => Raised (KeyError src_name)
  | Some None => Raised (TypeError "'NoneType' object is not subscriptable")
  | Some (Some df) => Returned df
  end.

Definition getitem_column (df : DataFrame) (col : string) : result Series :=
  match columns df !! col with
  | None => Raised (KeyError col)
  | Some values => Returned (zip (index df) values)
  end.

(** The value a series holds at a label; NaN where it has none. *)
Definition series_get (s : Series) (q : Period) : cell :=
  default None (list_to_map (M := gmap Z cell) s !! q).

(** What [replace(0, np.nan)] makes of one cell. *)
Definition zero_to_nan (c : cell) : cell :=
  match c with
  | Some v => if Qeqb v 0 then None else Some v
  | None => None
  end.

(** [series.replace(0, np.nan)] *)
Definition replace_zero (s : Series) : Series :=
  (λ kv, (kv.1, zero_to_nan kv.2)) <$> s.

(** float64 division of two cells; NaN propagates.  For a zero divisor
    float64 gives an infinity (or NaN for 0/0), which a cell of this model
    cannot hold, where [Qdiv] gives 0: the definition stands for the float
    division on non-zero divisors only, and [_compute_ratios] hands it no
    other (the zeros are replaced first). *)
Definition cell_div (x y : cell) : cell :=
  match x, y with
  | Some a, Some b => Some (a / b)%Q
  | _, _ => None
  end.

(** The index two series are aligned on: their own when they agree, else
    the sorted union of their labels. *)
Definition align_index (a b : list Period) : list Period :=
  if decide (a = b) then a else merge_sort Z.le (remove_dups (a ++ b)).

(** [num / den] on two series. *)
Definition series_truediv (num den : Series) : Series :=
  (λ q, (q, cell_div (series_get num q) (series_get den q)))
    <$> align_index num.*1 den.*1.

(** [result[name] = series]: the series is re-indexed on the frame's index. *)
Definition setitem (df : DataFrame) (col : string) (s : Series) : DataFrame :=
  {| index := index df;
     columns := <[col := series_get s <$> index df]> (columns df) |}.

Fixpoint compute_ratio_columns (sources : gmap string (option DataFrame))
    (ratios : list RatioDef) (result_df : DataFrame) : result DataFrame :=
  match ratios with
  | [] => Returned result_df
  | r :: rest =>
    num_df ← getitem_source sources (numerator_src r);
    num ← getitem_column num_df (numerator_col r);
    den_df ← getitem_source sources (denominator_src r);
    den ← getitem_column den_df (denominator_col r);
    let ratio_series := series_truediv num (replace_zero den) in
    compute_ratio_columns sources rest (setitem result_df (name r) ratio_series)
  end.

Definition _compute_ratios (sources : gmap string (option DataFrame))
    : result DataFrame :=
  compute_ratio_columns sources RATIOS
    {| index := EXPECTED_QTR_INDEX; columns := ∅ |}.

(** [df.loc[q, col]]: the cell of a frame at a quarter and a column, when the
    frame has the column. *)
Definition loc (df : DataFrame) (q : Period) (col : string) : option cell :=
  values ← columns df !! col;
  Some (series_get (zip (index df) values) q).

(** The cell [sources[src_name][col]] holds at a quarter; NaN when the
    lookup fails or the column has no such label. *)
Definition source_value (sources : gmap string (option DataFrame))
    (src_name col : string) (q : Period) : cell :=
  match getitem_source sources src_name ≫= (λ df, getitem_column df col) with
  | Returned s => series_get s q
  | Raised _ => None
  end.

(** [sources[src_name]] is a frame that has the column [col]. *)
Definition has_column (sources : gmap string (option DataFrame))
    (src_name col : string) : Prop :=
  ∃ df values, sources !! src_name = Some (Some df)
               ∧ columns df !! col = Some values.

(** The same, as a test that runs. *)
Definition has_columnb (sources : gmap string (option DataFrame))
    (src_name col : string) : bool :=
  match sources !! src_name with
  | Some (Some df) => bool_decide (is_Some (columns df !! col))
  | _ => false
  end.

(** *** 6. Winsorizing *)

(** [series.dropna()] on the values of a column. *)
Definition dropna (series : list cell) : list Q := omap (λ c : cell, c) series.

(** Linear interpolation in sorted values [v], [n] of them, at the virtual
    index [h = (n - 1) * q]: between [v[floor h]] and its right neighbour,
    by the fractional part of [h]. *)
Definition interpolate (values : list Q) (v0 : Q) (q : Q) : Q :=
  let n := length values in
  let h := (inject_Z (Z.of_nat n - 1) * q)%Q in
  let lo := Z.to_nat (Qfloor h) in
  let gamma := (h - inject_Z (Qfloor h))%Q in
  let a := nth lo values v0 in
  let b := nth (Nat.min (lo + 1) (n - 1)) values v0 in
  (a + (b - a) * gamma)%Q.

(** [series.quantile(q)] with the default linear interpolation: NaN is
    skipped, the values are sorted and interpolated.  A series with no
    value has the quantile NaN. *)
Definition quantile (series : list cell) (q : Q) : cell :=
  let values := merge_sort Qle (dropna series) in
  match values with
  | [] => None
  | v0 :: _ => Some (interpolate values v0 q)
  end.

(** [series.clip(lower, upper)] on one cell: NaN stays NaN, a NaN bound does
    not clip. *)
Definition clip (lower upper : cell) (x : cell) : cell :=
  match x with
  | None => None
  | Some v =>
    match lower with
    | Some l => if Qltb v l then Some l else
        match upper with
        | Some u => if Qltb u v then Some u else Some v
        | None => Some v
        end
    | None =>
        match upper with
        | Some u => if Qltb u v then Some u else Some v
        | None => Some v
        end
    end
  end.

Definition _clip_col (lo hi : Q) (series : list cell) : list cell :=
  let lower := quantile series lo in
  let upper := quantile series hi in
  clip lower upper <$> series.

(** [panel[col] = _clip_col(panel[col])] when the panel has the column. *)
Definition clip_column (lo hi : Q) (panel : Panel Q) (col : string) : Panel Q :=
  match p_columns panel !! col with
  | Some series =>
    {| p_ticker := p_ticker panel;
       p_quarter := p_quarter panel;
       p_columns := <[col := _clip_col lo hi series]> (p_columns panel) |}
  | None => panel
  end.

Definition winsorize_panel (panel : Panel Q) : Panel Q :=
  let '(lo, hi) := WINSORIZE_QUANTILES in
  foldl (clip_column lo hi) panel RATIO_NAMES.

(** *** Main function *)

(** The dict [sources] of the loop: the three tables, loaded in the order
    of the dict display; what a load raises leaves the loop. *)
Definition load_sources (fs : FileSystem) (ticker : string)
    : result (gmap string (option DataFrame)) :=
  income ← _load_source fs ticker "income";
  balance ← _load_source fs ticker "balance";
  cashflow ← _load_source fs ticker "cashflow";
  Returned {[ "income" := income; "balance" := balance;
              "cashflow" := cashflow ]}.

(** The loop of [build_ratio_panel] over the tickers: load the three
    sources, skip the ticker when they are not complete, else compute its
    ratios and keep them with the ticker. *)
Fixpoint collect_ratios (fs : FileSystem) (tickers : list string)
    : result (list (string * DataFrame)) :=
  match tickers with
  | [] => Returned []
  | ticker :: rest =>
    sources ← load_sources fs ticker;
    if negb (_is_complete sources) then collect_ratios fs rest
    else
      ratios ← _compute_ratios sources;
      all_ratios ← collect_ratios fs rest;
      Returned ((ticker, ratios) :: all_ratios)
  end.

(** [pd.concat(all_ratios)], [reset_index()] and the quarter labels as text:
    the frames one under the other, each row with the ticker of its frame; a
    column a frame lacks is NaN there. *)
Definition concat (all_ratios : list (string * DataFrame)) : Panel Q :=
  {| p_ticker := all_ratios ≫= (λ tf, replicate (length (index tf.2)) tf.1);
     p_quarter := all_ratios ≫= (λ tf, period_str <$> index tf.2);
     p_columns :=
       set_to_map
         (λ c, (c, all_ratios ≫= (λ tf,
                  default (replicate (length (index tf.2)) None) (columns tf.2 !! c))))
         (⋃ ((λ tf, dom (columns tf.2)) <$> all_ratios) : gset string) |}.

(** [panel[["ticker", "quarter"] + RATIO_NAMES]] *)
Definition select_columns (panel : Panel Q) (names : list string)
    : result (Panel Q) :=
  cols ← mapM (λ c, match p_columns panel !! c with
                    | Some series => Returned (c, series)
                    | None => Raised (KeyError c)
                    end) names;
  Returned {| p_ticker := p_ticker panel;
              p_quarter := p_quarter panel;
              p_columns := list_to_map cols |}.

(** [build_ratio_panel], as to what it returns or raises.  Its effects on
    the output directory ([ensure_output_dirs], [to_csv]) and its log lines
    are left out. *)
Definition build_ratio_panel (fs : FileSystem) : result (Panel Q) :=
  let tickers := get_ticker_universe fs in
  let sector_map := load_sector_map fs in
  let tickers := filter_sectors tickers sector_map in
  all_ratios ← collect_ratios fs tickers;
  match all_ratios with
  | [] => Raised (RuntimeError "Kein einziger Ticker hat den Vollstaendigkeitsfilter bestanden!")
  | _ =>
    let panel := concat all_ratios in
    let panel := winsorize_panel panel in
    select_columns panel RATIO_NAMES
  end.

(** *** Vocabulary of the properties *)

(** The three tables of a ticker whose statement files load; no table
    where reading one of them raises. *)
Definition loaded_sources (fs : FileSystem) (ticker : string)
    : gmap string (option DataFrame) :=
  match load_sources fs ticker with
  | Returned sources => sources
  | Raised _ => ∅
  end.

(** The statement files of a ticker load and pass the completeness gate. *)
Definition is_survivor (fs : FileSystem) (ticker : string) : bool :=
  match load_sources fs ticker with
  | Returned sources => _is_complete sources
  | Raised _ => false
  end.

(** The tickers that pass the sector filter and the completeness filter. *)
Definition survivors (fs : FileSystem) : list string :=
  filter (λ t, is_survivor fs t = true)
    (filter_sectors (get_ticker_universe fs) (load_sector_map fs)).

(** [pd.read_csv] raises for no statement file. *)
Definition files_readable (fs : FileSystem) : Prop :=
  ∀ src_name ticker failure, read_csv fs src_name ticker ≠ Some (inl failure).

(** The input contract of the ratio computer: the statements of every
    surviving ticker have the columns the ratio definitions name. *)
Definition ratio_columns_present (fs : FileSystem) : Prop :=
  ∀ t r, t ∈ survivors fs → r ∈ RATIOS →
    has_column (loaded_sources fs t) (numerator_src r) (numerator_col r)
    ∧ has_column (loaded_sources fs t) (denominator_src r) (denominator_col r).

(** The same, as a test that runs. *)
Definition ratio_columns_presentb (fs : FileSystem) : bool :=
  forallb (λ t,
    forallb (λ r,
      has_columnb (loaded_sources fs t) (numerator_src r) (numerator_col r)
      && has_columnb (loaded_sources fs t) (denominator_src r) (denominator_col r))
      RATIOS) (survivors fs).

(** A frame as [_compute_ratios] returns it. *)
Definition ratio_frame (df : DataFrame) : Prop :=
  index df = EXPECTED_QTR_INDEX
  ∧ ∀ col, if decide (col ∈ RATIO_NAMES)
           then ∃ series, columns df !! col = Some series
                          ∧ length series = length EXPECTED_QTR_INDEX
           else columns df !! col = None.

(** The quarter labels of the rows of a ticker, in the order of the rows. *)
Definition ticker_quarters (panel : Panel Q) (t : string) : list string :=
  (filter (λ row, row.1 = t) (zip (p_ticker panel) (p_quarter panel))).*2.

End load_data.

(** ** ar_model.py *)

Module ar_model.
Import config.

(** A float64 value of the estimator: a real number or NaN. *)
Abbreviation float := (option R).

Global Instance Rlt_decision : RelDecision Rlt := Rlt_dec.

(** [x < y] on float64: false when either is NaN. *)
Definition float_lt (x y : float) : bool :=
  match x, y with
  | Some a, Some b => bool_decide (a < b)%R
  | _, _ => false
  end.

Definition float_sub (x y : float) : float :=
  match x, y with
  | Some a, Some b => Some (a - b)%R
  | _, _ => None
  end.

(** [series.notna().sum()] *)
Definition n_valid (series : list float) : nat :=
  length (filter (λ c : float, is_Some c) series).

(** [series.diff(periods)]: NaN on the first [periods] places, then the
    difference to the value [periods] places before. *)
Definition diff (periods : nat) (series : list float) : list float :=
  zip_with float_sub series (replicate periods None ++ series).

(** [series.dropna()] *)
Definition dropna (series : list float) : list R := omap (λ c : float, c) series.

(** [series.shift(periods)] *)
Definition shift (periods : nat) (series : list float) : list float :=
  take (length series) (replicate periods None ++ series).

Definition sum_R (l : list R) : R := foldr Rplus 0%R l.

Definition mean (l : list R) : R := (sum_R l / INR (length l))%R.

(** [series.std(ddof)] on values without NaN: NaN unless there are more than
    [ddof] of them. *)
Definition std (ddof : nat) (l : list R) : float :=
  if (length l <=? ddof)%nat then None
  else Some (sqrt (sum_R ((λ x, (x - mean l) * (x - mean l))%R <$> l)
                   / INR (length l - ddof))).

(** What [_fit_ar1_on_diff] reads off a fitted statsmodels OLS model. *)
Record OLSResults : Type := {
  params : list float;
  bse : list float;
  pvalues : list float;
  rsquared : float;
}.

(** statsmodels, as far as [_fit_ar1_on_diff] calls it: [sm.add_constant]
    builds the design matrix of a regressor, and [sm.OLS(y, X).fit()] gives
    the fitted model, or raises ([None]). *)
Record statsmodels : Type := {
  add_constant : list R → list (list R);
  OLS_fit : list R → list (list R) → option OLSResults;
}.

(** The dict [_fit_ar1_on_diff] returns. *)
Record Fit : Type := {
  phi1 : float;
  phi1_se : float;
  phi1_pval : float;
  c : float;
  r_squared : float;
  sigma_diff : float;
  half_life : float;
  n_obs : nat;
}.

(** [a[i]] on an array: IndexError past its end. *)
Definition getitem (a : list float) (i : nat) : result float :=
  match a !! i with
  | Some v => Returned v
  | None => Raised (IndexError "index out of bounds")
  end.

(** The half-life of [_fit_ar1_on_diff]: computed when [0 < phi1 < 1], NaN
    otherwise. *)
Definition half_life_of (phi1 : float) : float :=
  if float_lt (Some 0%R) phi1 && float_lt phi1 (Some 1%R)
  then match phi1 with
       | Some p => Some (ln (1 / 2) / ln (Rabs p))%R
       | None => None
       end
  else None.

(** The response and the regressor of the regression, after the mask
    [y.notna() & x.notna()]: the pairs (dY(t), dY(t - AR_ORDER)). *)
Definition regression_pairs (d : list R) : list (R * R) :=
  let y := drop AR_ORDER (Some <$> d) in
  let x := drop AR_ORDER (shift AR_ORDER (Some <$> d)) in
  omap (λ yx : float * float,
          match yx with
          | (Some a, Some b) => Some (a, b)
          | _ => None
          end) (zip y x).

Section estimator.
Variable sm : statsmodels.

(** [_fit_ar1_on_diff]: [Returned None] is the [None] it returns for a
    series it does not estimate. *)
Definition _fit_ar1_on_diff (series : list float) : result (option Fit) :=
  let d := dropna (diff DIFF_ORDER series) in
  if (length d <? AR_ORDER + 3)%nat then Returned None
  else
    let sigma_diff := std 1 d in
    if float_lt sigma_diff (Some (1 / 10 ^ 15)%R) then Returned None
    else
      let yx := regression_pairs d in
      let n_obs := length yx in
      if (n_obs <? AR_ORDER + 3)%nat then Returned None
      else
        let X := add_constant sm yx.*2 in
        match OLS_fit sm yx.*1 X with
        | None => Returned None
        | Some model =>
          phi1 ← getitem (params model) 1;
          phi1_se ← getitem (bse model) 1;
          phi1_pval ← getitem (pvalues model) 1;
          c ← getitem (params model) 0;
          Returned (Some {| phi1 := phi1; phi1_se := phi1_se;
                            phi1_pval := phi1_pval; c := c;
                            r_squared := rsquared model;
                            sigma_diff := sigma_diff;
                            half_life := half_life_of phi1;
                            n_obs := n_obs |})
        end.

(** [panel[panel["ticker"] == ticker].set_index("quarter").sort_index()[ratio]]:
    the values of one ratio of one ticker, in the order of the quarter
    labels. *)
Definition ticker_series (panel : Panel R) (ticker ratio : string)
    : result (list float) :=
  match p_columns panel !! ratio with
  | None => Raised (KeyError ratio)
  | Some col =>
    let rows := filter (λ r, r.1.1 = ticker)
                  (zip (zip (p_ticker panel) (p_quarter panel)) col) in
    let by_quarter :=
      merge_sort (λ a b : string * string * float, String.le a.1.2 b.1.2) rows in
    Returned by_quarter.*2
  end.

(** A row of the feature table. *)
Record Feature : Type := {
  f_ticker : string;
  f_ratio : string;
  f_fit : Fit;
}.

(** The inner loop of [estimate_ar_features], over the ratios of a ticker. *)
Fixpoint estimate_ratios (panel : Panel R) (ticker : string)
    (ratios : list string) : result (list Feature) :=
  match ratios with
  | [] => Returned []
  | ratio :: rest =>
    series ← ticker_series panel ticker ratio;
    if (n_valid series <? AR_ORDER + DIFF_ORDER + 3)%nat
    then estimate_ratios panel ticker rest
    else
      fit ← _fit_ar1_on_diff series;
      match fit with
      | None => estimate_ratios panel ticker rest
      | Some f =>
        results ← estimate_ratios panel ticker rest;
        Returned ({| f_ticker := ticker; f_ratio := ratio; f_fit := f |} :: results)
      end
  end.

(** The outer loop, over the tickers. *)
Fixpoint estimate_tickers (panel : Panel R) (tickers : list string)
    : result (list Feature) :=
  match tickers with
  | [] => Returned []
  | ticker :: rest =>
    here ← estimate_ratios panel ticker RATIO_NAMES;
    results ← estimate_tickers panel rest;
    Returned (here ++ results)
  end.

(** [estimate_ar_features].  After the loops the function builds
    [pd.DataFrame(results)] and, for its log line, reads the frame's
    ["ticker"] column: a frame built from no row has no column, and reading
    one raises KeyError. *)
Definition estimate_ar_features (panel : Panel R) : result (list Feature) :=
  let tickers := merge_sort String.le (remove_dups (p_ticker panel)) in
  results ← estimate_tickers panel tickers;
  match results with
  | [] => Raised (KeyError "ticker")
  | _ => Returned results
  end.

End estimator.

(** A skip condition of the estimator holds for a series: fewer than
    AR_ORDER + DIFF_ORDER + 3 values that are not NaN, fewer than
    AR_ORDER + 3 differences, a standard deviation of the differences below
    1e-15, fewer than AR_ORDER + 3 pairs for the regression, or an OLS fit
    that raises. *)
Definition skips (sm : statsmodels) (series : list float) : Prop :=
  let d := dropna (diff DIFF_ORDER series) in
  let yx := regression_pairs d in
  (n_valid series < AR_ORDER + DIFF_ORDER + 3)%nat
  ∨ (length d < AR_ORDER + 3)%nat
  ∨ (∃ s, std 1 d = Some s ∧ (s < 1 / 10 ^ 15)%R)
  ∨ (length yx < AR_ORDER + 3)%nat
  ∨ OLS_fit sm yx.*1 (add_constant sm yx.*2) = None.

(** *** Summary per ratio *)

Global Instance Rle_decision : RelDecision Rle := Rle_dec.

(** [series.mean()]: NaN is skipped; NaN when no value is left. *)
Definition nanmean (series : list float) : float :=
  match dropna series with
  | [] => None
  | values => Some (mean values)
  end.

(** [series.median()]: NaN is skipped; the middle of the sorted values, or
    the mean of the two middle ones; NaN when no value is left. *)
Definition median (series : list float) : float :=
  let values := merge_sort Rle (dropna series) in
  let n := length values in
  if Nat.even n
  then a ← values !! (n / 2 - 1)%nat; b ← values !! (n / 2)%nat;
       Some ((a + b) / 2)%R
  else values !! (n / 2)%nat.

(** [(s < level).mean() * 100]: the share of the places below the level, in
    percent; a NaN is not below it.  NaN for a series with no place. *)
Definition pct_below (level : R) (series : list float) : float :=
  match series with
  | [] => None
  | _ =>
    Some (INR (length (filter (λ p, float_lt p (Some level) = true) series))
          / INR (length series) * 100)%R
  end.

(** Rounding to the nearest integer, a tie to the even one. *)
Definition rint (x : R) : Z :=
  let n := Int_part x in
  let frac := (x - IZR n)%R in
  if decide (frac < 1 / 2)%R then n
  else if decide (1 / 2 < frac)%R then (n + 1)%Z
  else if Z.even n then n else (n + 1)%Z.

(** [.round(decimals)] on one cell *)
Definition round (decimals : nat) (x : float) : float :=
  (λ v, IZR (rint (v * 10 ^ decimals)) / 10 ^ decimals)%R <$> x.

(** A row of the summary: the ratio (its index label) and the columns. *)
Record Summary : Type := {
  s_ratio : string;
  s_n : nat;
  phi1_mean : float;
  phi1_median : float;
  phi1_std : float;
  phi1_signif_pct : float;
  sigma_mean : float;
  sigma_median : float;
  hl_median : float;
}.

(** The aggregation of one group, rounded ([n] is a count and stays). *)
Definition summarize_group (ratio : string) (rows : list Feature) : Summary :=
  let col (field : Fit → float) := (λ f, field (f_fit f)) <$> rows in
  {| s_ratio := ratio;
     s_n := n_valid (col phi1);
     phi1_mean := round 4 (nanmean (col phi1));
     phi1_median := round 4 (median (col phi1));
     phi1_std := round 4 (std 1 (dropna (col phi1)));
     phi1_signif_pct := round 4 (pct_below (5 / 100) (col phi1_pval));
     sigma_mean := round 4 (nanmean (col sigma_diff));
     sigma_median := round 4 (median (col sigma_diff));
     hl_median := round 4 (median (col half_life)) |}.

(** [summarize_by_ratio] on the table [estimate_ar_features] builds: one
    row per ratio of the table, the ratios in ascending order.  The table
    built from no row has no column, and grouping it by ["ratio"] raises
    KeyError. *)
Definition summarize_by_ratio (features : list Feature) : result (list Summary) :=
  match features with
  | [] => Raised (KeyError "ratio")
  | _ =>
    Returned ((λ ratio, summarize_group ratio
                          (filter (λ f, f_ratio f = ratio) features))
                <$> merge_sort String.le (remove_dups (f_ratio <$> features)))
  end.

End ar_model.

(** ** Example inputs

    Three companies, as in the end-to-end scenario of the specification:
    AAA has all 100 quarters in its three statements, BBB lacks the last
    quarter in its cashflow statement, CCC is complete and a bank. *)

Module examples.
Import config load_data.
Local Open Scope Z_scope.

(** The record of quarter [i] (0 is 2000Q1), dated the 28th of the last
    month of the quarter.  The revenue of the first quarter is zero. *)
Definition statement_row (i : Z) : CsvRow :=
  {| date := Some {| year := 2000 + i `div` 4; month := 3 * (i `mod` 4) + 3;
                     day := 28; tod := 0 |};
     fields := {[ "netIncome" := CNum (inject_Z i);
                  "totalAssets" := CNum 1;
                  "totalStockholderEquity" := CNum 2;
                  "ebit" := CNum 1;
                  "totalRevenue" := CNum (if decide (i = 0) then 0 else 4);
                  "freeCashFlow" := CNum 3;
                  "totalCurrentAssets" := CNum 5;
                  "totalCurrentLiabilities" := CNum 10;
                  "shortLongTermDebtTotal" := CNum 7;
                  "currency_symbol" := CText "USD" ]} |}.

Definition statement_columns : list string :=
  ["date"; "netIncome"; "totalAssets"; "totalStockholderEquity"; "ebit";
   "totalRevenue"; "freeCashFlow"; "totalCurrentAssets";
   "totalCurrentLiabilities"; "shortLongTermDebtTotal"; "currency_symbol"].

Definition statement (quarters : Z) : CsvFrame :=
  {| csv_columns := statement_columns;
     csv_rows := statement_row <$> seqZ 0 quarters |}.

Definition three_companies : FileSystem :=
  {| csv_stems := λ _, ["CCC"; "AAA"; "BBB"];
     read_csv := λ src_name ticker,
       if decide (ticker ∈ ["AAA"; "BBB"; "CCC"])
       then if decide (ticker = "BBB" ∧ src_name = "cashflow")
            then Some (inr (statement 99)) else Some (inr (statement 100))
       else None;
     profile_csvs := [Some [(TextSymbol "AAA", "Technology")]; None;
                      Some [(TextSymbol "CCC", "Banks")]] |}.

(** The panel [build_ratio_panel] returns for the three companies: the 100
    rows of AAA. *)
Definition three_companies_panel : Panel Q :=
  match build_ratio_panel three_companies with
  | Returned panel => panel
  | Raised _ => {| p_ticker := []; p_quarter := []; p_columns := ∅ |}
  end.

(** A statement with a restated quarter and a record whose date does not
    parse: two records fall in 2000Q1, dated 15 February and 31 March, one
    in 2000Q2. *)
Definition restated : CsvFrame :=
  {| csv_columns := ["date"; "netIncome"];
     csv_rows :=
       [ {| date := Some {| year := 2000; month := 3; day := 31; tod := 0 |};
            fields := {[ "netIncome" := CNum 10 ]} |};
         {| date := None; fields := {[ "netIncome" := CNum 99 ]} |};
         {| date := Some {| year := 2000; month := 2; day := 15; tod := 0 |};
            fields := {[ "netIncome" := CNum 7 ]} |};
         {| date := Some {| year := 2000; month := 6; day := 30; tod := 0 |};
            fields := {[ "netIncome" := CNum 12 ]} |} ] |}.

(** The table [_load_source] makes of it: the record of 31 March stands for
    2000Q1. *)
Definition restated_table : DataFrame :=
  {| index := [120; 121];
     columns := {[ "netIncome" := [Some 10%Q; Some 12%Q] ]} |}.

Definition restated_files : FileSystem :=
  {| csv_stems := λ _, ["AAA"];
     read_csv := λ _ _, Some (inr restated);
     profile_csvs := [] |}.

(** A panel of one company over the 100 quarters in which every ratio
    takes the values 0, 1, ..., 99. *)
Definition one_company_panel : Panel Q :=
  {| p_ticker := replicate 100 "AAA";
     p_quarter := period_str <$> EXPECTED_QTR_INDEX;
     p_columns := list_to_map
       ((λ col, (col, (λ i, Some (inject_Z i)) <$> seqZ 0 100)) <$> RATIO_NAMES) |}.

(** Aligned tables of two quarters, 2000Q1 and 2000Q2; the revenue of the
    first is zero and the EBIT of the second is missing. *)
Definition two_quarters (cols : list (string * list cell)) : DataFrame :=
  {| index := [120; 121]; columns := list_to_map cols |}.

Definition small_sources : gmap string (option DataFrame) :=
  {[ "income" := Some (two_quarters
        [("netIncome", [Some 3%Q; Some 4%Q]);
         ("ebit", [Some 1%Q; None]);
         ("totalRevenue", [Some 0%Q; Some 8%Q])]);
     "balance" := Some (two_quarters
        [("totalAssets", [Some 10%Q; Some 10%Q]);
         ("totalStockholderEquity", [Some 5%Q; Some 0%Q]);
         ("totalCurrentAssets", [Some 2%Q; Some 2%Q]);
         ("totalCurrentLiabilities", [Some 4%Q; Some 4%Q]);
         ("shortLongTermDebtTotal", [Some 1%Q; Some 1%Q])]);
     "cashflow" := Some (two_quarters
        [("freeCashFlow", [Some 6%Q; Some 6%Q])]) ]}.

(** A company whose statements lack the column ebit: complete in its
    quarters, but without a column the EBIT margin names. *)
Definition statement_without_ebit : CsvFrame :=
  {| csv_columns := filter (λ c, c ≠ "ebit") statement_columns;
     csv_rows := (λ r, {| date := date r; fields := delete "ebit" (fields r) |})
                   <$> csv_rows (statement 100) |}.

Definition no_ebit : FileSystem :=
  {| csv_stems := λ _, ["AAA"];
     read_csv := λ _ _, Some (inr statement_without_ebit);
     profile_csvs := [] |}.

(** The three companies and a fourth, DDD, whose income statement is a
    file of zero bytes. *)
Definition with_empty_file : FileSystem :=
  {| csv_stems := λ _, ["CCC"; "AAA"; "DDD"; "BBB"];
     read_csv := λ src_name ticker,
       if decide (ticker = "DDD")
       then if decide (src_name = "income")
            then Some (inl NoColumns) else Some (inr (statement 100))
       else read_csv three_companies src_name ticker;
     profile_csvs := profile_csvs three_companies |}.

(** A statement all of whose records drop out: one date is not parseable,
    the other lies before 2000. *)
Definition all_dropped : CsvFrame :=
  {| csv_columns := ["date"; "netIncome"];
     csv_rows :=
       [ {| date := None; fields := {[ "netIncome" := CNum 1 ]} |};
         {| date := Some {| year := 1999; month := 12; day := 31; tod := 0 |};
            fields := {[ "netIncome" := CNum 2 ]} |} ] |}.

Definition all_dropped_files : FileSystem :=
  {| csv_stems := λ _, ["AAA"];
     read_csv := λ _ _, Some (inr all_dropped);
     profile_csvs := [] |}.

End examples.

(** ** Example inputs of the estimator

    A stand-in for statsmodels whose every fit reports the intercept 0 and
    the slope 1/2; a panel of one company over six quarters whose ROA is 0,
    1, 3, 4, 8, 9 and whose other ratios are NaN; the estimate of its ROA;
    and a panel of one company whose every ratio is NaN in all 100
    quarters. *)

Module ar_examples.
Import config ar_model.
Local Open Scope R_scope.

Definition fixed_fit : statsmodels :=
  {| add_constant := λ x, (λ xi, [1; xi]) <$> x;
     OLS_fit := λ _ _,
       Some {| params := [Some 0; Some (1 / 2)];
               bse := [Some 1; Some 1];
               pvalues := [Some 1; Some 1];
               rsquared := Some 0 |} |}.

Definition roa_values : list float :=
  [Some 0; Some 1; Some 3; Some 4; Some 8; Some 9].

Definition six_quarters : Panel R :=
  {| p_ticker := replicate 6 "AAA";
     p_quarter := ["2000Q1"; "2000Q2"; "2000Q3"; "2000Q4"; "2001Q1"; "2001Q2"];
     p_columns := list_to_map
       ((λ col, (col, if decide (col = "ROA") then roa_values
                      else replicate 6 None)) <$> RATIO_NAMES) |}.

Definition example_fit : Fit :=
  {| phi1 := Some (1 / 2); phi1_se := Some 1; phi1_pval := Some 1;
     c := Some 0; r_squared := Some 0;
     sigma_diff := std 1 (dropna (diff DIFF_ORDER roa_values));
     half_life := half_life_of (Some (1 / 2));
     n_obs := 4 |}.

Definition example_feature : Feature :=
  {| f_ticker := "AAA"; f_ratio := "ROA"; f_fit := example_fit |}.

Definition all_missing : Panel R :=
  {| p_ticker := replicate 100 "AAA";
     p_quarter := load_data.period_str <$> load_data.EXPECTED_QTR_INDEX;
     p_columns := list_to_map
       ((λ col, (col, replicate 100 None)) <$> RATIO_NAMES) |}.
(** A stand-in for statsmodels whose design matrix has no constant column
    and whose every fit reports one parameter only. *)
Definition intercept_only : statsmodels :=
  {| add_constant := λ x, (λ xi, [xi]) <$> x;
     OLS_fit := λ _ _,
       Some {| params := [Some 0];
               bse := [Some 1];
               pvalues := [Some 1];
               rsquared := Some 0 |} |}.

(** A panel of two companies over six quarters, the rows of BBB before
    those of AAA: ROA and ROE of each are 0, 1, 3, 4, 8, 9, the other
    ratios NaN.  Its feature table has four rows. *)
Definition two_companies : Panel R :=
  {| p_ticker := replicate 6 "BBB" ++ replicate 6 "AAA";
     p_quarter := p_quarter six_quarters ++ p_quarter six_quarters;
     p_columns := list_to_map
       ((λ col, (col, if decide (col ∈ ["ROA"; "ROE"])
                      then roa_values ++ roa_values
                      else replicate 12 None)) <$> RATIO_NAMES) |}.

Definition two_companies_features : list Feature :=
  [ {| f_ticker := "AAA"; f_ratio := "ROA"; f_fit := example_fit |};
    {| f_ticker := "AAA"; f_ratio := "ROE"; f_fit := example_fit |};
    {| f_ticker := "BBB"; f_ratio := "ROA"; f_fit := example_fit |};
    {| f_ticker := "BBB"; f_ratio := "ROE"; f_fit := example_fit |} ].

End ar_examples.

(** * Properties of panel construction *)

Module load_data_spec.
Import config load_data.
Local Open Scope Z_scope.

(** ** The canonical quarters *)

Lemma expected_quarters_length :
  Z.of_nat (length EXPECTED_QTR_INDEX) = EXPECTED_QUARTERS.
Proof. reflexivity. Qed.

Lemma elem_of_expected_quarters (q : Period) :
  q ∈ EXPECTED_QTR_INDEX ↔ period 2000 1 ≤ q ≤ period 2024 4.
Proof.
  unfold EXPECTED_QTR_INDEX, _build_expected_quarters, period_range.
  rewrite elem_of_seqZ. unfold YEAR_START, YEAR_END, period. lia.
Qed.

Lemma expected_quarters_NoDup : NoDup EXPECTED_QTR_INDEX.
Proof. apply NoDup_seqZ. Qed.

(** ** The sector filter *)

Lemma elem_of_EXCLUDED_SECTORS (s : string) :
  s ∈ EXCLUDED_SECTORS ↔
  s = "Financial Services" ∨ s = "Banks" ∨ s = "Insurance".
Proof.
  unfold EXCLUDED_SECTORS. rewrite !elem_of_union, !elem_of_singleton. tauto.
Qed.

(** C10.  A ticker without an entry in the sector map stays; a ticker of
    the list is removed exactly when the map gives it one of the excluded
    sector labels; and the tickers kept stand in the order they had (the
    result is a subsequence of the list). *)
Theorem filter_sectors_keeps_unmapped
    (tickers : list string) (sector_map : gmap string string) :
  (∀ t, t ∈ tickers → sector_map !! t = None →
        t ∈ filter_sectors tickers sector_map)
  ∧ (∀ t, t ∈ tickers →
          (t ∉ filter_sectors tickers sector_map ↔
           ∃ s, sector_map !! t = Some s ∧ s ∈ EXCLUDED_SECTORS))
  ∧ filter_sectors tickers sector_map `sublist_of` tickers.
Proof.
  unfold filter_sectors. split_and!.
  - intros t Ht Hnone. apply list_elem_of_filter. split; [|done].
    rewrite Hnone. simpl. rewrite elem_of_EXCLUDED_SECTORS.
    intros [H|[H|H]]; discriminate H.
  - intros t Ht. rewrite list_elem_of_filter. split.
    + intros Hnot. destruct (sector_map !! t) as [s|] eqn:Hs.
      * exists s. split; [done|].
        destruct (decide (s ∈ EXCLUDED_SECTORS)) as [|Hn]; [done|].
        exfalso. apply Hnot. split; [|done]. exact Hn.
      * exfalso. apply Hnot. split; [|done]. simpl.
        rewrite elem_of_EXCLUDED_SECTORS.
        intros [H|[H|H]]; discriminate H.
    + intros (s & Hs & Hex) [Hkeep _]. rewrite Hs in Hkeep. by apply Hkeep.
  - apply sublist_filter.
Qed.

(** A ticker whose profile could not be read, or has no profile at all, has
    no entry in the sector map. *)
Lemma load_sector_map_unread (fs : FileSystem) (t : string) :
  (∀ rows, Some rows ∈ profile_csvs fs →
           fst <$> head rows ≠ Some (TextSymbol t)) →
  load_sector_map fs !! t = None.
Proof.
  unfold load_sector_map.
  assert (∀ l (m : gmap string string),
    m !! t = None →
    (∀ rows, Some rows ∈ l → fst <$> head rows ≠ Some (TextSymbol t)) →
    foldl (λ sector_map df,
             match df with
             | Some ((TextSymbol symbol, sector) :: _) =>
                 <[symbol := sector]> sector_map
             | _ => sector_map
             end) m l !! t = None) as Hgen.
  { induction l as [|df l IH]; intros m Hm Hl; [done|]. simpl.
    apply IH; [|intros rows Hin; apply Hl; by right].
    destruct df as [[|[[symbol|] sector] rows]|]; try done.
    rewrite lookup_insert_ne; [done|].
    intros ->. by apply (Hl ((TextSymbol t, sector) :: rows)); [left|]. }
  intros H. apply Hgen; [apply lookup_empty|done].
Qed.

(** ** The completeness gate *)

Lemma is_complete_spec (dfs : gmap string (option DataFrame)) :
  _is_complete dfs = true ↔
  ∀ src_name df, dfs !! src_name = Some df →
    ∃ t, df = Some t ∧ ∀ q, q ∈ EXPECTED_QTR_INDEX → q ∈ index t.
Proof.
  unfold _is_complete. rewrite forallb_forall. split.
  - intros H src_name df Hlook.
    assert (In (src_name, df) (map_to_list dfs)) as Hin
      by apply list_elem_of_In, elem_of_map_to_list, Hlook.
    apply H in Hin. destruct df as [t|]; [|discriminate Hin]. cbn [snd] in Hin.
    exists t. split; [done|]. intros q Hq.
    rewrite forallb_forall in Hin.
    apply list_elem_of_In, Hin in Hq. by apply bool_decide_eq_true in Hq.
  - intros H [src_name df] Hin. cbn [snd].
    apply list_elem_of_In, elem_of_map_to_list in Hin.
    destruct (H _ _ Hin) as (t & -> & Hall).
    apply forallb_forall. intros q Hq. apply bool_decide_eq_true.
    apply Hall. by apply list_elem_of_In.
Qed.

(** C2.  On the three aligned tables of a company the gate answers true
    exactly when each of the three is there (not [None]) and every one of
    the 100 canonical quarters, 2000Q1 to 2024Q4, is a label of the index of
    each. *)
Theorem is_complete_three_tables (income balance cashflow : option DataFrame) :
  length EXPECTED_QTR_INDEX = 100%nat ∧
  (_is_complete {[ "income" := income; "balance" := balance;
                   "cashflow" := cashflow ]} = true ↔
   ∃ i b c, income = Some i ∧ balance = Some b ∧ cashflow = Some c ∧
     ∀ q, period 2000 1 ≤ q ≤ period 2024 4 →
          q ∈ index i ∧ q ∈ index b ∧ q ∈ index c).
Proof.
  split; [reflexivity|]. rewrite is_complete_spec. split.
  - intros H.
    destruct (H "income" income) as (i & -> & Hi); [done|].
    destruct (H "balance" balance) as (b & -> & Hb); [done|].
    destruct (H "cashflow" cashflow) as (c & -> & Hc); [done|].
    exists i, b, c. split_and!; try done.
    intros q Hq. apply elem_of_expected_quarters in Hq. auto.
  - intros (i & b & c & -> & -> & -> & Hall) src_name df Hlook.
    assert (df = Some i ∨ df = Some b ∨ df = Some c) as Hdf.
    { apply lookup_insert_Some in Hlook.
      destruct Hlook as [[_ Heq]|[_ Hlook]]; [auto|].
      apply lookup_insert_Some in Hlook.
      destruct Hlook as [[_ Heq]|[_ Hlook]]; [auto|].
      apply lookup_singleton_Some in Hlook. destruct Hlook as [_ Heq]. auto. }
    destruct Hdf as [ -> | [ -> | -> ] ]; eexists; (split; [done|]);
      intros q Hq; apply elem_of_expected_quarters in Hq;
      destruct (Hall q Hq) as (? & ? & ?); done.
Qed.

(** ** The ratio computer *)

Lemma series_get_fmap (f : Period → cell) (idx : list Period) (q : Period) :
  series_get ((λ k, (k, f k)) <$> idx) q = if decide (q ∈ idx) then f q else None.
Proof.
  unfold series_get. induction idx as [|k idx IH]; [done|].
  rewrite fmap_cons, list_to_map_cons.
  destruct (decide (k = q)) as [->|Hne].
  - rewrite lookup_insert_eq. simpl. by rewrite decide_True by left.
  - rewrite lookup_insert_ne by done. rewrite IH.
    destruct (decide (q ∈ idx)) as [Hin|Hnin].
    + by rewrite decide_True by (by right).
    + rewrite decide_False; [done|].
      intros [->|?]%elem_of_cons; done.
Qed.

Lemma series_get_not_elem (s : Series) (q : Period) :
  q ∉ s.*1 → series_get s q = None.
Proof.
  intros H. unfold series_get. by rewrite (not_elem_of_list_to_map_1 _ _ H).
Qed.

Lemma series_get_zip_fmap (f : Period → cell) (idx : list Period) (q : Period) :
  q ∈ idx → series_get (zip idx (f <$> idx)) q = f q.
Proof.
  intros Hq.
  replace (zip idx (f <$> idx)) with ((λ k, (k, f k)) <$> idx).
  - rewrite (series_get_fmap f). by rewrite decide_True.
  - clear Hq. induction idx as [|k idx IH]; [done|]. simpl. by f_equal.
Qed.

Lemma series_get_replace_zero (s : Series) (q : Period) :
  series_get (replace_zero s) q = zero_to_nan (series_get s q).
Proof.
  unfold series_get, replace_zero.
  induction s as [|[k v] s IH]; simpl.
  - by rewrite !lookup_empty.
  - destruct (decide (k = q)) as [->|Hne].
    + by rewrite !lookup_insert_eq.
    + by rewrite !lookup_insert_ne.
Qed.

(** After [replace(0, nan)] no cell of the divisor is zero. *)
Lemma replace_zero_no_zero (s : Series) (q : Period) (v : Q) :
  series_get (replace_zero s) q = Some v → ¬ (v == 0)%Q.
Proof.
  rewrite series_get_replace_zero. unfold zero_to_nan.
  destruct (series_get s q) as [d|]; [|done].
  destruct (Qeqb d 0) eqn:Hd; [done|].
  intros [= <-] Hz. apply Qeq_bool_iff in Hz. unfold Qeqb in Hd. congruence.
Qed.

Lemma elem_of_align_index (a b : list Period) (q : Period) :
  q ∈ align_index a b ↔ q ∈ a ∨ q ∈ b.
Proof.
  unfold align_index. destruct (decide (a = b)) as [->|_]; [tauto|].
  rewrite merge_sort_Permutation, elem_of_remove_dups, elem_of_app. tauto.
Qed.

Lemma series_get_truediv (num den : Series) (q : Period) :
  series_get (series_truediv num den) q
  = cell_div (series_get num q) (series_get den q).
Proof.
  unfold series_truediv.
  rewrite (series_get_fmap (λ k, cell_div (series_get num k) (series_get den k))).
  destruct (decide (q ∈ align_index num.*1 den.*1)) as [|Hnot]; [done|].
  rewrite elem_of_align_index in Hnot.
  rewrite (series_get_not_elem num q) by tauto. done.
Qed.

Lemma RATIOS_names_NoDup : NoDup (name <$> RATIOS).
Proof. apply (bool_decide_unpack _). by vm_compute. Qed.

Lemma has_column_getitem (sources : gmap string (option DataFrame))
    (src_name col : string) :
  has_column sources src_name col →
  ∃ df s, getitem_source sources src_name = Returned df
          ∧ getitem_column df col = Returned s.
Proof.
  intros (df & values & Hsrc & Hcol). exists df, (zip (index df) values).
  unfold getitem_source, getitem_column. by rewrite Hsrc, Hcol.
Qed.

(** The loop of [_compute_ratios] returns when every column it reads is
    there: the values of the cells play no part in that. *)
Lemma compute_ratio_columns_returns (sources : gmap string (option DataFrame))
    (ratios : list RatioDef) (df0 : DataFrame) :
  (∀ r, r ∈ ratios →
        has_column sources (numerator_src r) (numerator_col r)
        ∧ has_column sources (denominator_src r) (denominator_col r)) →
  ∃ df, compute_ratio_columns sources ratios df0 = Returned df.
Proof.
  revert df0. induction ratios as [|r ratios IH]; intros df0 Hcols.
  - by exists df0.
  - destruct (Hcols r ltac:(left)) as [Hn Hd].
    apply has_column_getitem in Hn as (ndf & num & Hn1 & Hn2).
    apply has_column_getitem in Hd as (ddf & den & Hd1 & Hd2).
    simpl. rewrite Hn1. simpl. rewrite Hn2. simpl. rewrite Hd1. simpl.
    rewrite Hd2. simpl. apply IH. intros r' Hr'. apply Hcols. by right.
Qed.

Lemma compute_ratio_columns_spec (sources : gmap string (option DataFrame))
    (ratios : list RatioDef) (df0 df : DataFrame) :
  compute_ratio_columns sources ratios df0 = Returned df →
  index df = index df0
  ∧ (∀ col, col ∉ name <$> ratios → columns df !! col = columns df0 !! col)
  ∧ (NoDup (name <$> ratios) → ∀ r, r ∈ ratios →
       ∃ num_df num den_df den,
         getitem_source sources (numerator_src r) = Returned num_df
         ∧ getitem_column num_df (numerator_col r) = Returned num
         ∧ getitem_source sources (denominator_src r) = Returned den_df
         ∧ getitem_column den_df (denominator_col r) = Returned den
         ∧ columns df !! name r
           = Some (series_get (series_truediv num (replace_zero den))
                     <$> index df0)).
Proof.
  revert df0. induction ratios as [|r ratios IH]; intros df0 Hrun.
  - injection Hrun as <-. split_and!; [done|done|].
    intros _ r Hr. by apply elem_of_nil in Hr.
  - simpl in Hrun.
    destruct (getitem_source sources (numerator_src r)) as [ndf|] eqn:Hn1;
      [|discriminate Hrun]. simpl in Hrun.
    destruct (getitem_column ndf (numerator_col r)) as [num|] eqn:Hn2;
      [|discriminate Hrun]. simpl in Hrun.
    destruct (getitem_source sources (denominator_src r)) as [ddf|] eqn:Hd1;
      [|discriminate Hrun]. simpl in Hrun.
    destruct (getitem_column ddf (denominator_col r)) as [den|] eqn:Hd2;
      [|discriminate Hrun]. simpl in Hrun.
    apply IH in Hrun as (Hidx & Hother & Hmine). simpl in Hidx.
    split_and!; [done| |].
    + intros col Hcol. rewrite fmap_cons, not_elem_of_cons in Hcol.
      destruct Hcol as [Hne Hcol]. rewrite (Hother col Hcol). simpl.
      by rewrite lookup_insert_ne.
    + rewrite fmap_cons, NoDup_cons. intros [Hfresh Hnd] r' Hr'.
      apply elem_of_cons in Hr' as [->|Hr'].
      * exists ndf, num, ddf, den. split_and!; try done.
        rewrite (Hother _ Hfresh). simpl. by rewrite lookup_insert_eq.
      * by apply Hmine.
Qed.

(** C4.  When every column the ratio definitions name is there,
    [_compute_ratios] returns a frame (it raises for no value of a cell),
    and for every ratio and every canonical quarter the frame has a cell:
    NaN when the denominator is exactly zero, numerator / denominator when
    both are numbers and the denominator is not zero, NaN when one of the
    two is missing. *)
Theorem zero_denominator_gives_missing (sources : gmap string (option DataFrame)) :
  (∀ r, r ∈ RATIOS →
        has_column sources (numerator_src r) (numerator_col r)
        ∧ has_column sources (denominator_src r) (denominator_col r)) →
  ∃ df, _compute_ratios sources = Returned df ∧
    ∀ r q, r ∈ RATIOS → q ∈ EXPECTED_QTR_INDEX →
      ∃ v, loc df q (name r) = Some v ∧
        let num := source_value sources (numerator_src r) (numerator_col r) q in
        let den := source_value sources (denominator_src r) (denominator_col r) q in
        (∀ d, den = Some d → (d == 0)%Q → v = None)
        ∧ (∀ n d, num = Some n → den = Some d → ¬ (d == 0)%Q →
                  v = Some (n / d)%Q)
        ∧ (num = None ∨ den = None → v = None).
Proof.
  intros Hcols. unfold _compute_ratios.
  destruct (compute_ratio_columns_returns sources RATIOS
              {| index := EXPECTED_QTR_INDEX; columns := ∅ |} Hcols) as [df Hdf].
  exists df. split; [done|]. intros r q Hr Hq.
  apply compute_ratio_columns_spec in Hdf as (Hidx & _ & Hmine).
  destruct (Hmine RATIOS_names_NoDup r Hr)
    as (ndf & num & ddf & den & Hn1 & Hn2 & Hd1 & Hd2 & Hcol).
  cbn [index] in Hidx, Hcol. unfold loc. rewrite Hcol, Hidx. cbn [mbind option_bind].
  eexists. split; [done|].
  rewrite (series_get_zip_fmap _ _ _ Hq).
  rewrite series_get_truediv, series_get_replace_zero.
  unfold source_value. rewrite Hn1, Hd1. simpl. rewrite Hn2, Hd2.
  assert (∀ d : Q, Qeqb d 0 = true ↔ (d == 0)%Q) as Hzero
    by (intros d; apply Qeq_bool_iff).
  destruct (series_get num q) as [n|], (series_get den q) as [d|];
    cbn [cell_div zero_to_nan]; try destruct (Qeqb d 0) eqn:Hz;
    (split_and!; [intros d' [= <-] Hd'|intros n' d' [= <-] [= <-] Hd'|intros [?|?]]);
    try done.
  - by apply Hzero in Hz.
  - apply Hzero in Hd'. congruence.
Qed.

Lemma has_columnb_true (sources : gmap string (option DataFrame))
    (src_name col : string) :
  has_columnb sources src_name col = true → has_column sources src_name col.
Proof.
  unfold has_column, has_columnb.
  destruct (sources !! src_name) as [[df|]|]; try done.
  intros [values H]%bool_decide_eq_true. eauto.
Qed.

Ltac has_column_tac := apply has_columnb_true; vm_compute; reflexivity.

Lemma zero_denominator_gives_missing_witness :
  ∃ df, _compute_ratios examples.small_sources = Returned df ∧
    ∀ r q, r ∈ RATIOS → q ∈ EXPECTED_QTR_INDEX →
      ∃ v, loc df q (name r) = Some v ∧
        let num := source_value examples.small_sources
                     (numerator_src r) (numerator_col r) q in
        let den := source_value examples.small_sources
                     (denominator_src r) (denominator_col r) q in
        (∀ d, den = Some d → (d == 0)%Q → v = None)
        ∧ (∀ n d, num = Some n → den = Some d → ¬ (d == 0)%Q →
                  v = Some (n / d)%Q)
        ∧ (num = None ∨ den = None → v = None).
Proof.
  apply (zero_denominator_gives_missing examples.small_sources).
  apply Forall_forall. unfold RATIOS.
  repeat (apply Forall_cons; split; [split; has_column_tac|]).
  apply Forall_nil_2.
Defined.

(** The EBIT margin of the example: NaN in 2000Q1, whose revenue is zero,
    and in 2000Q2, whose EBIT is missing; the ROA of 2000Q1 is 3/10. *)
Example small_sources_ratios :
  (λ df, (loc df 120 "EBIT_margin", loc df 121 "EBIT_margin", loc df 120 "ROA"))
    <$> (match _compute_ratios examples.small_sources with
         | Returned df => Some df
         | Raised _ => None
         end)
  = Some (Some None, Some None, Some (Some (3 / 10)%Q)).
Proof. vm_compute. reflexivity. Qed.

(** ** The quarter aligner *)

Section drop_duplicates.
Context {A K : Type} `{EqDecision K} (key : A → K).

Lemma elem_of_drop_duplicates_last (x : A) (l : list A) :
  x ∈ drop_duplicates_last key l → x ∈ l.
Proof.
  induction l as [|a l IH]; simpl; [done|].
  case_bool_decide; [by right; apply IH|].
  intros [->|?]%elem_of_cons; [by left|by right; apply IH].
Qed.

Lemma drop_duplicates_last_keys (k : K) (l : list A) :
  k ∈ key <$> drop_duplicates_last key l ↔ k ∈ key <$> l.
Proof.
  induction l as [|a l IH]; simpl; [done|].
  case_bool_decide as Ha.
  - rewrite IH, elem_of_cons. split; [by right|]. by intros [->|?].
  - rewrite fmap_cons, !elem_of_cons, IH. done.
Qed.

Lemma NoDup_drop_duplicates_last (l : list A) :
  NoDup (key <$> drop_duplicates_last key l).
Proof.
  induction l as [|a l IH]; simpl; [constructor|].
  case_bool_decide as Ha; [done|].
  rewrite fmap_cons. constructor; [|done].
  by rewrite drop_duplicates_last_keys.
Qed.

(** In a list sorted by [R], the row [drop_duplicates_last] keeps for a key
    is above every row of that key. *)
Lemma drop_duplicates_last_greatest (R : relation A) `{!Reflexive R}
    (l : list A) (x y : A) :
  StronglySorted R l →
  x ∈ drop_duplicates_last key l → y ∈ l → key y = key x → R y x.
Proof.
  induction 1 as [|a l Hsorted IH Hall]; simpl; [by intros ?%elem_of_nil|].
  rewrite Forall_forall in Hall.
  case_bool_decide as Ha.
  - intros Hx [->|Hy]%elem_of_cons Hkey.
    + by apply Hall, elem_of_drop_duplicates_last.
    + by apply IH.
  - intros [->|Hx]%elem_of_cons [->|Hy]%elem_of_cons Hkey.
    + done.
    + destruct Ha. rewrite <- Hkey. by apply list_elem_of_fmap_2.
    + destruct Ha. rewrite Hkey.
      by apply list_elem_of_fmap_2, elem_of_drop_duplicates_last.
    + by apply IH.
Qed.

End drop_duplicates.

(** [sort_values] sorts: its result has the rows it is given, in ascending
    order. *)
Section sort_values.
Context {A : Type} (R : relation A) `{!RelDecision R}.

Lemma insert_sorted_Permutation (x : A) (l : list A) :
  insert_sorted R x l ≡ₚ x :: l.
Proof.
  induction l as [|y l IH]; [done|]. cbn. case_decide; [done|].
  rewrite IH. apply Permutation_swap.
Qed.

Lemma sort_values_Permutation (l : list A) : sort_values R l ≡ₚ l.
Proof.
  induction l as [|x l IH]; [done|]. cbn.
  by rewrite insert_sorted_Permutation, IH.
Qed.

Lemma StronglySorted_insert_sorted `{!Transitive R, !Total R}
    (x : A) (l : list A) :
  StronglySorted R l → StronglySorted R (insert_sorted R x l).
Proof.
  induction 1 as [|y l Hl IH Hall]; [repeat constructor|].
  cbn. case_decide as Hxy.
  - constructor; [by constructor|]. constructor; [done|].
    eapply Forall_impl; [exact Hall|]. intros z Hyz. by trans y.
  - constructor; [done|]. rewrite insert_sorted_Permutation.
    constructor; [|done]. by destruct (total R x y).
Qed.

Lemma StronglySorted_sort_values `{!Transitive R, !Total R} (l : list A) :
  StronglySorted R (sort_values R l).
Proof.
  induction l as [|x l IH]; [constructor|].
  cbn. by apply StronglySorted_insert_sorted.
Qed.

End sort_values.

(** The rows that come out of the date filter. *)
Lemma elem_of_dated_rows (raw : CsvFrame) (r : DatedRow) :
  r ∈ (λ dr : Timestamp * CsvRow,
         {| d_date := dr.1; d_quarter := to_period dr.1; d_fields := fields dr.2 |})
      <$> filter (λ dr, in_year_range dr.1) (dropna_date (csv_rows raw))
  ↔ ∃ rec t, rec ∈ csv_rows raw ∧ date rec = Some t ∧ in_year_range t = true
             ∧ r = {| d_date := t; d_quarter := to_period t;
                      d_fields := fields rec |}.
Proof.
  rewrite list_elem_of_fmap. unfold dropna_date. split.
  - intros ([t rec] & -> & Hin). apply list_elem_of_filter in Hin as [Hrange Hin].
    apply list_elem_of_omap in Hin as (rec' & Hrec & Hdate).
    destruct (date rec') as [t'|] eqn:Ht; [|done]. simpl in Hdate.
    injection Hdate as <- <-. exists rec', t'. simpl in *.
    split_and!; try done. by destruct (in_year_range t').
  - intros (rec & t & Hrec & Hdate & Hrange & ->). exists (t, rec).
    split; [done|]. apply list_elem_of_filter. split; [simpl; by rewrite Hrange|].
    apply list_elem_of_omap. exists rec. split; [done|]. by rewrite Hdate.
Qed.

Lemma aligned_rows_spec (raw : CsvFrame) :
  NoDup (d_quarter <$> aligned_rows raw)
  ∧ (∀ r, r ∈ aligned_rows raw →
       ∃ rec, rec ∈ csv_rows raw ∧ date rec = Some (d_date r)
              ∧ in_year_range (d_date r) = true
              ∧ d_quarter r = to_period (d_date r)
              ∧ d_fields r = fields rec)
  ∧ (∀ rec t, rec ∈ csv_rows raw → date rec = Some t →
       in_year_range t = true →
       ∃ r, r ∈ aligned_rows raw ∧ d_quarter r = to_period t
            ∧ ts_le t (d_date r)).
Proof.
  unfold aligned_rows.
  set (W := _ <$> filter _ (dropna_date (csv_rows raw))).
  set (S := sort_values date_le W).
  assert (StronglySorted date_le S) as Hsorted
    by (apply StronglySorted_sort_values; apply _).
  assert (∀ r, r ∈ S ↔ r ∈ W) as HS
    by (intros r; unfold S; by rewrite sort_values_Permutation).
  split_and!.
  - rewrite merge_sort_Permutation. apply NoDup_drop_duplicates_last.
  - intros r. rewrite merge_sort_Permutation.
    intros Hr%elem_of_drop_duplicates_last%HS%elem_of_dated_rows.
    destruct Hr as (rec & t & Hrec & Hdate & Hrange & ->). by exists rec.
  - intros rec t Hrec Hdate Hrange.
    set (w := {| d_date := t; d_quarter := to_period t; d_fields := fields rec |}).
    assert (w ∈ S) as Hw by (apply HS, elem_of_dated_rows; eauto 10).
    assert (d_quarter w ∈ d_quarter <$> drop_duplicates_last d_quarter S) as Hq.
    { apply drop_duplicates_last_keys. by apply list_elem_of_fmap_2. }
    apply list_elem_of_fmap in Hq as (r & Hqr & Hr). exists r.
    rewrite merge_sort_Permutation. split_and!; [done|done|].
    by apply (drop_duplicates_last_greatest d_quarter date_le S r w).
Qed.

Lemma lookup_list_to_map_fun `{Countable K} {V : Type} (f : K → V)
    (l : list K) (k : K) :
  (list_to_map ((λ x, (x, f x)) <$> l) : gmap K V) !! k
  = if decide (k ∈ l) then Some (f k) else None.
Proof.
  induction l as [|a l IH]; [done|].
  rewrite fmap_cons, list_to_map_cons.
  destruct (decide (a = k)) as [->|Hne].
  - rewrite lookup_insert_eq. by rewrite decide_True by left.
  - rewrite lookup_insert_ne by done. rewrite IH.
    destruct (decide (k ∈ l)) as [Hin|Hnin].
    + by rewrite decide_True by (by right).
    + rewrite decide_False; [done|]. intros [->|?]%elem_of_cons; done.
Qed.

Lemma NoDup_fmap_eq {A B : Type} (f : A → B) (l : list A) (x y : A) :
  NoDup (f <$> l) → x ∈ l → y ∈ l → f x = f y → x = y.
Proof.
  induction l as [|a l IH]; [by intros _ ?%elem_of_nil|].
  rewrite fmap_cons, NoDup_cons.
  intros [Hfresh Hnd] [->|Hx]%elem_of_cons [->|Hy]%elem_of_cons Heq; try done.
  - destruct Hfresh. rewrite Heq. by apply list_elem_of_fmap_2.
  - destruct Hfresh. rewrite <- Heq. by apply list_elem_of_fmap_2.
  - by apply IH.
Qed.

(** The cell a frame built from rows holds at the label of one of them. *)
Lemma series_get_rows {A : Type} (label : A → Period) (value : A → cell)
    (rows : list A) (r : A) :
  NoDup (label <$> rows) → r ∈ rows →
  series_get (zip (label <$> rows) (value <$> rows)) (label r) = value r.
Proof.
  intros Hnd Hr. unfold series_get.
  replace (zip (label <$> rows) (value <$> rows))
    with ((λ x, (label x, value x)) <$> rows).
  - rewrite (elem_of_list_to_map_1 _ (label r) (value r)); [done| |].
    + by rewrite <- list_fmap_compose.
    + by apply (list_elem_of_fmap_2 (λ x, (label x, value x))).
  - clear. induction rows as [|a rows IH]; [done|]. simpl. by f_equal.
Qed.

(** C8.  The table [_load_source] makes of a statement has one row per
    calendar quarter; its quarters are those of the records whose date
    parses and lies in the years 2000 to 2024 (a record whose date does not
    parse gives no row); and the row of a quarter is a record of that
    quarter with the latest date among them, whose cells, made numeric, are
    the cells of the table. *)
Theorem load_source_keeps_latest (fs : FileSystem) (ticker src_name : string)
    (raw : CsvFrame) (df : DataFrame) :
  read_csv fs src_name ticker = Some (inr raw) →
  _load_source fs ticker src_name = Returned (Some df) →
  NoDup (index df)
  ∧ ∀ q,
      (q ∈ index df ↔
       ∃ rec t, rec ∈ csv_rows raw ∧ date rec = Some t
                ∧ in_year_range t = true ∧ to_period t = q)
      ∧ (q ∈ index df →
         ∃ rec t, rec ∈ csv_rows raw ∧ date rec = Some t
           ∧ in_year_range t = true ∧ to_period t = q
           ∧ (∀ rec' t', rec' ∈ csv_rows raw → date rec' = Some t' →
                in_year_range t' = true → to_period t' = q → ts_le t' t)
           ∧ (∀ col, col ∈ csv_columns raw → col ∉ "quarter" :: drop_cols →
                loc df q col
                = Some (to_numeric (default CEmpty (fields rec !! col))))).
Proof.
  intros Hraw. unfold _load_source. rewrite Hraw.
  destruct (_ || _); [done|]. intros [= <-]. cbn [index columns].
  destruct (aligned_rows_spec raw) as (Hnd & Hfrom & Hto).
  split; [done|]. intros q.
  assert (q ∈ d_quarter <$> aligned_rows raw →
    ∃ rec t, rec ∈ csv_rows raw ∧ date rec = Some t
      ∧ in_year_range t = true ∧ to_period t = q
      ∧ (∀ rec' t', rec' ∈ csv_rows raw → date rec' = Some t' →
           in_year_range t' = true → to_period t' = q → ts_le t' t)
      ∧ (∀ col, col ∈ csv_columns raw → col ∉ "quarter" :: drop_cols →
           loc {| index := d_quarter <$> aligned_rows raw;
                  columns := list_to_map
                    ((λ c, (c, (λ r, to_numeric (default CEmpty (d_fields r !! c)))
                                 <$> aligned_rows raw))
                       <$> filter (λ c, c ∉ "quarter" :: drop_cols)
                             (csv_columns raw)) |} q col
           = Some (to_numeric (default CEmpty (fields rec !! col))))) as Hrow.
  { intros (r & -> & Hr)%list_elem_of_fmap.
    destruct (Hfrom r Hr) as (rec & Hrec & Hdate & Hrange & Hq & Hfields).
    exists rec, (d_date r). split_and!; try done.
    - intros rec' t' Hrec' Hdate' Hrange' Hq'.
      destruct (Hto rec' t' Hrec' Hdate' Hrange') as (r' & Hr' & Hqr' & Hle).
      assert (r' = r) as ->; [|done].
      rewrite Hq' in Hqr'.
      by apply (NoDup_fmap_eq d_quarter (aligned_rows raw)).
    - intros col Hcol Hkeep. unfold loc. cbn [index columns].
      rewrite (lookup_list_to_map_fun
                 (λ c, (λ r, to_numeric (default CEmpty (d_fields r !! c)))
                         <$> aligned_rows raw)).
      rewrite decide_True by (by apply list_elem_of_filter).
      cbn [mbind option_bind].
      rewrite (series_get_rows d_quarter
                 (λ r, to_numeric (default CEmpty (d_fields r !! col)))
                 _ r Hnd Hr).
      by rewrite Hfields. }
  split; [|done]. split.
  - intros Hq. destruct (Hrow Hq) as (rec & t & ? & ? & ? & ? & _).
    by exists rec, t.
  - intros (rec & t & Hrec & Hdate & Hrange & <-).
    destruct (Hto rec t Hrec Hdate Hrange) as (r & Hr & <- & _).
    by apply list_elem_of_fmap_2.
Qed.

Lemma load_source_keeps_latest_witness :
  NoDup (index examples.restated_table)
  ∧ ∀ q,
      (q ∈ index examples.restated_table ↔
       ∃ rec t, rec ∈ csv_rows examples.restated ∧ date rec = Some t
                ∧ in_year_range t = true ∧ to_period t = q)
      ∧ (q ∈ index examples.restated_table →
         ∃ rec t, rec ∈ csv_rows examples.restated ∧ date rec = Some t
           ∧ in_year_range t = true ∧ to_period t = q
           ∧ (∀ rec' t', rec' ∈ csv_rows examples.restated →
                date rec' = Some t' →
                in_year_range t' = true → to_period t' = q → ts_le t' t)
           ∧ (∀ col, col ∈ csv_columns examples.restated →
                col ∉ "quarter" :: drop_cols →
                loc examples.restated_table q col
                = Some (to_numeric (default CEmpty (fields rec !! col))))).
Proof.
  apply (load_source_keeps_latest examples.restated_files "AAA" "income").
  - reflexivity.
  - vm_compute. reflexivity.
Defined.

(** ** The winsorizer *)

Lemma Qltb_true (x y : Q) : Qltb x y = true ↔ (x < y)%Q.
Proof.
  unfold Qltb. rewrite negb_true_iff, <- not_true_iff_false, Qle_bool_iff.
  split; [apply Qnot_le_lt|apply Qlt_not_le].
Qed.

Lemma Qltb_false (x y : Q) : Qltb x y = false ↔ (y <= x)%Q.
Proof. unfold Qltb. by rewrite negb_false_iff, Qle_bool_iff. Qed.

(** A clipped value lies between the bounds. *)
Lemma clip_within (l u : Q) (x : cell) (v : Q) :
  (l <= u)%Q → clip (Some l) (Some u) x = Some v → (l <= v <= u)%Q.
Proof.
  intros Hlu. destruct x as [x|]; [|done]. simpl.
  destruct (Qltb x l) eqn:Hl.
  - intros [= <-]. split; [apply Qle_refl|done].
  - apply Qltb_false in Hl. destruct (Qltb u x) eqn:Hu.
    + intros [= <-]. split; [done|apply Qle_refl].
    + apply Qltb_false in Hu. by intros [= <-].
Qed.

(** Clipping to bounds that are in order a second time changes nothing. *)
Lemma clip_idempotent (lower upper x : cell) :
  (∀ l u, lower = Some l → upper = Some u → (l <= u)%Q) →
  clip lower upper (clip lower upper x) = clip lower upper x.
Proof.
  intros Hlu. destruct x as [x|]; [|done].
  destruct lower as [l|], upper as [u|]; simpl.
  - specialize (Hlu l u eq_refl eq_refl).
    destruct (Qltb x l) eqn:Hl; simpl.
    + by rewrite (proj2 (Qltb_false l l)) by apply Qle_refl;
        rewrite (proj2 (Qltb_false u l)).
    + destruct (Qltb u x) eqn:Hu; simpl.
      * by rewrite (proj2 (Qltb_false u l)) by done;
          rewrite (proj2 (Qltb_false u u)) by apply Qle_refl.
      * by rewrite Hl, Hu.
  - destruct (Qltb x l) eqn:Hl; simpl.
    + by rewrite (proj2 (Qltb_false l l)) by apply Qle_refl.
    + by rewrite Hl.
  - destruct (Qltb u x) eqn:Hu; simpl.
    + by rewrite (proj2 (Qltb_false u u)) by apply Qle_refl.
    + by rewrite Hu.
  - done.
Qed.

Lemma sorted_lookup_le (values : list Q) (i j : nat) (x y : Q) :
  StronglySorted Qle values → (i ≤ j)%nat →
  values !! i = Some x → values !! j = Some y → (x <= y)%Q.
Proof.
  intros Hsorted. revert i j.
  induction Hsorted as [|a l Hsorted IH Hall]; intros i j Hij Hi Hj; [done|].
  destruct i as [|i], j as [|j]; simpl in *.
  - injection Hi as <-. injection Hj as <-. apply Qle_refl.
  - injection Hi as <-. rewrite Forall_forall in Hall.
    by apply Hall, list_elem_of_lookup_2 with j.
  - lia.
  - apply (IH i j); [lia|done|done].
Qed.

Lemma sorted_nth_le (values : list Q) (d : Q) (i j : nat) :
  StronglySorted Qle values → (i ≤ j < length values)%nat →
  (nth i values d <= nth j values d)%Q.
Proof.
  intros Hsorted [Hij Hj].
  destruct (lookup_lt_is_Some_2 values i ltac:(lia)) as [x Hx].
  destruct (lookup_lt_is_Some_2 values j Hj) as [y Hy].
  rewrite !nth_lookup, Hx, Hy. simpl. by apply (sorted_lookup_le values i j).
Qed.

Lemma elem_of_nth (values : list Q) (d : Q) (i : nat) :
  (i < length values)%nat → nth i values d ∈ values.
Proof.
  intros Hi. destruct (lookup_lt_is_Some_2 values i Hi) as [x Hx].
  rewrite nth_lookup, Hx. simpl. by apply list_elem_of_lookup_2 with i.
Qed.

(** The places of the two neighbours [interpolate] reads, and its weight. *)
Lemma virtual_index_bounds (n : nat) (q : Q) :
  (0 < n)%nat → (0 <= q <= 1)%Q →
  let h := (inject_Z (Z.of_nat n - 1) * q)%Q in
  (0 ≤ Qfloor h ≤ Z.of_nat n - 1)
  ∧ (0 <= h - inject_Z (Qfloor h))%Q ∧ (h - inject_Z (Qfloor h) < 1)%Q.
Proof.
  intros Hn [Hq0 Hq1] h.
  assert (0 <= inject_Z (Z.of_nat n - 1))%Q as Hm.
  { change 0%Q with (inject_Z 0). rewrite <- Zle_Qle. lia. }
  assert (0 <= h)%Q as Hh0 by (unfold h; Lqa.nra).
  assert (h <= inject_Z (Z.of_nat n - 1))%Q as Hh1 by (unfold h; Lqa.nra).
  split_and!.
  - apply Qfloor_resp_le in Hh0. by change (Qfloor 0) with 0 in Hh0.
  - apply Qfloor_resp_le in Hh1. by rewrite Qfloor_Z in Hh1.
  - pose proof (Qfloor_le h). Lqa.lra.
  - pose proof (Qlt_floor h) as Hlt. rewrite inject_Z_plus in Hlt.
    change (inject_Z 1) with 1%Q in Hlt. Lqa.lra.
Qed.

(** An interpolated value lies between two of the values. *)
Lemma interpolate_between (values : list Q) (v0 q : Q) :
  StronglySorted Qle values → (0 < length values)%nat → (0 <= q <= 1)%Q →
  ∃ a b, a ∈ values ∧ b ∈ values
         ∧ (a <= interpolate values v0 q <= b)%Q.
Proof.
  intros Hsorted Hn Hq. unfold interpolate.
  destruct (virtual_index_bounds (length values) q Hn Hq) as ([Hf0 Hf1] & Hg0 & Hg1).
  set (h := (inject_Z (Z.of_nat (length values) - 1) * q)%Q) in *.
  set (lo := Z.to_nat (Qfloor h)).
  set (hi := Nat.min (lo + 1) (length values - 1)).
  assert (lo < length values)%nat as Hlo by (unfold lo; lia).
  assert (lo ≤ hi < length values)%nat as Hhi by (unfold hi; lia).
  exists (nth lo values v0), (nth hi values v0).
  split_and!; try (apply elem_of_nth; lia).
  - pose proof (sorted_nth_le values v0 lo hi Hsorted Hhi). Lqa.nra.
  - pose proof (sorted_nth_le values v0 lo hi Hsorted Hhi). Lqa.nra.
Qed.

(** A quantile does not decrease with its level. *)
Lemma interpolate_mono (values : list Q) (v0 q1 q2 : Q) :
  StronglySorted Qle values → (0 < length values)%nat →
  (0 <= q1)%Q → (q1 <= q2)%Q → (q2 <= 1)%Q →
  (interpolate values v0 q1 <= interpolate values v0 q2)%Q.
Proof.
  intros Hsorted Hn Hq1 Hq12 Hq2. unfold interpolate.
  destruct (virtual_index_bounds (length values) q1 Hn) as ([Hf0 Hf1] & Hg0 & Hg1);
    [split; Lqa.lra|].
  destruct (virtual_index_bounds (length values) q2 Hn) as ([Hf0' Hf1'] & Hg0' & Hg1');
    [split; Lqa.lra|].
  assert (0 <= inject_Z (Z.of_nat (length values) - 1))%Q as Hm.
  { change 0%Q with (inject_Z 0). rewrite <- Zle_Qle. lia. }
  set (h1 := (inject_Z (Z.of_nat (length values) - 1) * q1)%Q) in *.
  set (h2 := (inject_Z (Z.of_nat (length values) - 1) * q2)%Q) in *.
  assert (h1 <= h2)%Q as Hh by (unfold h1, h2; Lqa.nra).
  pose proof (Qfloor_resp_le _ _ Hh) as Hfl.
  set (lo1 := Z.to_nat (Qfloor h1)). set (lo2 := Z.to_nat (Qfloor h2)).
  set (hi1 := Nat.min (lo1 + 1) (length values - 1)).
  set (hi2 := Nat.min (lo2 + 1) (length values - 1)).
  assert (lo1 ≤ hi1 < length values)%nat as H1 by (unfold hi1, lo1; lia).
  assert (lo2 ≤ hi2 < length values)%nat as H2 by (unfold hi2, lo2; lia).
  pose proof (sorted_nth_le values v0 lo1 hi1 Hsorted H1) as Hab1.
  pose proof (sorted_nth_le values v0 lo2 hi2 Hsorted H2) as Hab2.
  destruct (decide (Qfloor h1 = Qfloor h2)) as [Heq|Hne].
  - unfold hi1, hi2, lo1, lo2 in *. rewrite <- Heq in *. Lqa.nra.
  - assert (hi1 ≤ lo2 < length values)%nat as H12 by (unfold hi1, lo1, lo2; lia).
    pose proof (sorted_nth_le values v0 hi1 lo2 Hsorted H12) as Hmid.
    apply Qle_trans with (nth hi1 values v0); [Lqa.nra|].
    apply Qle_trans with (nth lo2 values v0); [done|Lqa.nra].
Qed.

Lemma elem_of_dropna (series : list cell) (x : Q) :
  x ∈ dropna series ↔ Some x ∈ series.
Proof.
  unfold dropna. rewrite list_elem_of_omap. split.
  - by intros (c & Hc & ->).
  - intros Hx. by exists (Some x).
Qed.

Lemma sorted_values_spec (series : list cell) :
  StronglySorted Qle (merge_sort Qle (dropna series))
  ∧ ∀ x, x ∈ merge_sort Qle (dropna series) ↔ Some x ∈ series.
Proof.
  split; [apply StronglySorted_merge_sort; apply _|].
  intros x. by rewrite merge_sort_Permutation, elem_of_dropna.
Qed.

(** A series with a value has its quantiles; they lie in any range that
    holds its values, and in the order of their levels. *)
Lemma quantile_is_Some (series : list cell) (q x : Q) :
  Some x ∈ series → ∃ v, quantile series q = Some v.
Proof.
  intros Hx. apply sorted_values_spec in Hx. unfold quantile.
  destruct (merge_sort Qle (dropna series)) as [|v0 values]; [|by eexists].
  by apply elem_of_nil in Hx.
Qed.

Lemma quantile_in_range (series : list cell) (q v lo hi : Q) :
  (0 <= q <= 1)%Q →
  (∀ x, Some x ∈ series → (lo <= x <= hi)%Q) →
  quantile series q = Some v → (lo <= v <= hi)%Q.
Proof.
  intros Hq Hrange. destruct (sorted_values_spec series) as [Hsorted Helem].
  unfold quantile.
  destruct (merge_sort Qle (dropna series)) as [|v0 values] eqn:Hvalues; [done|].
  intros [= <-].
  destruct (interpolate_between (v0 :: values) v0 q Hsorted ltac:(simpl; lia) Hq)
    as (a & b & Ha & Hb & Hab).
  apply Helem, Hrange in Ha. apply Helem, Hrange in Hb. Lqa.lra.
Qed.

Lemma quantile_order (series : list cell) (q1 q2 l u : Q) :
  (0 <= q1)%Q → (q1 <= q2)%Q → (q2 <= 1)%Q →
  quantile series q1 = Some l → quantile series q2 = Some u → (l <= u)%Q.
Proof.
  intros Hq1 Hq12 Hq2. destruct (sorted_values_spec series) as [Hsorted _].
  unfold quantile.
  destruct (merge_sort Qle (dropna series)) as [|v0 values]; [done|].
  intros [= <-] [= <-]. apply interpolate_mono; try done. simpl. lia.
Qed.

(** The cells of a winsorized column lie between the 1st and the 99th
    percentile of the column as it was. *)
Lemma clip_col_within (series : list cell) (v : Q) :
  Some v ∈ _clip_col (1 # 100) (99 # 100) series →
  ∃ l u, quantile series (1 # 100) = Some l
         ∧ quantile series (99 # 100) = Some u ∧ (l <= u)%Q ∧ (l <= v <= u)%Q.
Proof.
  unfold _clip_col. intros (x & Hv & Hx)%list_elem_of_fmap.
  destruct x as [x|]; [|done].
  destruct (quantile_is_Some series (1 # 100) x Hx) as [l Hl].
  destruct (quantile_is_Some series (99 # 100) x Hx) as [u Hu].
  assert (l <= u)%Q as Hlu
    by (apply (quantile_order series (1 # 100) (99 # 100)); done).
  exists l, u. split_and!; try done; rewrite Hl, Hu in Hv;
    by apply (clip_within l u (Some x) v).
Qed.

Lemma clip_columns_spec (lo hi : Q) (names : list string) (panel : Panel Q) :
  NoDup names →
  p_ticker (foldl (clip_column lo hi) panel names) = p_ticker panel
  ∧ p_quarter (foldl (clip_column lo hi) panel names) = p_quarter panel
  ∧ ∀ col, p_columns (foldl (clip_column lo hi) panel names) !! col
           = if decide (col ∈ names)
             then _clip_col lo hi <$> p_columns panel !! col
             else p_columns panel !! col.
Proof.
  revert panel. induction names as [|a names IH]; intros panel Hnd; [done|].
  apply NoDup_cons in Hnd as [Hfresh Hnd]. simpl.
  destruct (IH (clip_column lo hi panel a) Hnd) as (Ht & Hq & Hcols).
  assert (p_ticker (clip_column lo hi panel a) = p_ticker panel
          ∧ p_quarter (clip_column lo hi panel a) = p_quarter panel
          ∧ ∀ col, p_columns (clip_column lo hi panel a) !! col
                   = if decide (col = a)
                     then _clip_col lo hi <$> p_columns panel !! col
                     else p_columns panel !! col) as (Ht' & Hq' & Hcols').
  { unfold clip_column. destruct (p_columns panel !! a) as [series|] eqn:Ha; simpl.
    - split_and!; try done. intros col. destruct (decide (col = a)) as [->|Hne].
      + by rewrite lookup_insert_eq, Ha.
      + by rewrite lookup_insert_ne.
    - split_and!; try done. intros col. destruct (decide (col = a)) as [->|Hne].
      + by rewrite Ha.
      + done. }
  split_and!; [congruence|congruence|]. intros col. rewrite Hcols, Hcols'.
  destruct (decide (col = a)) as [->|Hne].
  - rewrite decide_False by done. by rewrite decide_True by left.
  - destruct (decide (col ∈ names)) as [Hin|Hnin].
    + by rewrite decide_True by (by right).
    + rewrite decide_False; [done|]. by intros [?|?]%elem_of_cons.
Qed.

Lemma RATIO_NAMES_NoDup : NoDup RATIO_NAMES.
Proof. apply RATIOS_names_NoDup. Qed.

Lemma winsorize_panel_spec (panel : Panel Q) :
  p_ticker (winsorize_panel panel) = p_ticker panel
  ∧ p_quarter (winsorize_panel panel) = p_quarter panel
  ∧ ∀ col, p_columns (winsorize_panel panel) !! col
           = if decide (col ∈ RATIO_NAMES)
             then _clip_col (1 # 100) (99 # 100) <$> p_columns panel !! col
             else p_columns panel !! col.
Proof. apply clip_columns_spec, RATIO_NAMES_NoDup. Qed.

(** C5.  For a ratio column of a panel the winsorizer takes as bounds the
    1st and the 99th percentile of the whole column, the rows of all
    companies and quarters together, and clips every cell of the column to
    them; every cell of the winsorized column that is not NaN lies between
    the two. *)
Theorem winsorize_pooled_percentiles (panel : Panel Q) (col : string)
    (series : list cell) :
  col ∈ RATIO_NAMES → p_columns panel !! col = Some series →
  let lower := quantile series (1 # 100) in
  let upper := quantile series (99 # 100) in
  p_columns (winsorize_panel panel) !! col = Some (clip lower upper <$> series)
  ∧ ∀ v, Some v ∈ clip lower upper <$> series →
         ∃ l u, lower = Some l ∧ upper = Some u ∧ (l <= v <= u)%Q.
Proof.
  intros Hcol Hseries lower upper.
  destruct (winsorize_panel_spec panel) as (_ & _ & Hcols).
  split.
  - rewrite Hcols, decide_True, Hseries by done. done.
  - intros v Hv. destruct (clip_col_within series v Hv) as (l & u & ? & ? & ? & ?).
    by exists l, u.
Qed.

(** C6, as the code has it.  Clipping the winsorized column again to the
    bounds it was clipped to (the 1st and 99th percentile of the column
    before clipping) changes no cell.  [winsorize_panel] applied again
    computes its bounds anew, from the clipped column: the cells it gives stay
    between the bounds of the first application. *)
Theorem winsorize_reclip_same_bounds (panel : Panel Q) (col : string)
    (series : list cell) :
  col ∈ RATIO_NAMES → p_columns panel !! col = Some series →
  let lower := quantile series (1 # 100) in
  let upper := quantile series (99 # 100) in
  let once := clip lower upper <$> series in
  p_columns (winsorize_panel panel) !! col = Some once
  ∧ clip lower upper <$> once = once
  ∧ ∃ twice,
      p_columns (winsorize_panel (winsorize_panel panel)) !! col = Some twice
      ∧ length twice = length series
      ∧ ∀ v, Some v ∈ twice →
             ∃ l u, lower = Some l ∧ upper = Some u ∧ (l <= v <= u)%Q.
Proof.
  intros Hcol Hseries lower upper once.
  destruct (winsorize_panel_spec panel) as (_ & _ & Hcols).
  destruct (winsorize_panel_spec (winsorize_panel panel)) as (_ & _ & Hcols2).
  assert (p_columns (winsorize_panel panel) !! col = Some once) as Honce
    by (rewrite Hcols, decide_True, Hseries by done; done).
  split_and!; [done| |].
  - unfold once. rewrite <- list_fmap_compose. apply list_fmap_ext.
    intros i x _. simpl. apply clip_idempotent.
    intros l u Hl Hu.
    by apply (quantile_order series (1 # 100) (99 # 100)).
  - exists (_clip_col (1 # 100) (99 # 100) once). split_and!.
    + by rewrite Hcols2, decide_True, Honce by done.
    + unfold _clip_col, once. by rewrite !length_fmap.
    + intros v Hv.
      destruct (clip_col_within once v Hv) as (l' & u' & Hl' & Hu' & Hlu' & Hv').
      assert (∃ x, Some x ∈ once) as [x Hx].
      { unfold _clip_col in Hv. apply list_elem_of_fmap in Hv as ([x|] & Hvx & Hx);
          [by exists x|done]. }
      destruct (clip_col_within series x Hx) as (l & u & Hl & Hu & Hlu & _).
      exists l, u. split_and!; try done.
      * apply Qle_trans with l'; [|apply Hv'].
        apply (quantile_in_range once (1 # 100) l' l u); try done.
        intros y Hy. destruct (clip_col_within series y Hy)
          as (l0 & u0 & Hl0 & Hu0 & _ & Hy').
        unfold lower, upper in *. congruence.
      * apply Qle_trans with u'; [apply Hv'|].
        apply (quantile_in_range once (99 # 100) u' l u); try done.
        intros y Hy. destruct (clip_col_within series y Hy)
          as (l0 & u0 & Hl0 & Hu0 & _ & Hy').
        congruence.
Qed.

Lemma winsorize_pooled_percentiles_witness :
  let series := (λ i, Some (inject_Z i)) <$> seqZ 0 100 in
  let lower := quantile series (1 # 100) in
  let upper := quantile series (99 # 100) in
  p_columns (winsorize_panel examples.one_company_panel) !! "ROA"
    = Some (clip lower upper <$> series)
  ∧ ∀ v, Some v ∈ clip lower upper <$> series →
         ∃ l u, lower = Some l ∧ upper = Some u ∧ (l <= v <= u)%Q.
Proof.
  apply (winsorize_pooled_percentiles examples.one_company_panel "ROA").
  - apply (bool_decide_unpack _). vm_compute. reflexivity.
  - vm_compute. reflexivity.
Defined.

Lemma winsorize_reclip_same_bounds_witness :
  let series := (λ i, Some (inject_Z i)) <$> seqZ 0 100 in
  let lower := quantile series (1 # 100) in
  let upper := quantile series (99 # 100) in
  let once := clip lower upper <$> series in
  p_columns (winsorize_panel examples.one_company_panel) !! "ROA" = Some once
  ∧ clip lower upper <$> once = once
  ∧ ∃ twice,
      p_columns (winsorize_panel (winsorize_panel examples.one_company_panel))
        !! "ROA" = Some twice
      ∧ length twice = length series
      ∧ ∀ v, Some v ∈ twice →
             ∃ l u, lower = Some l ∧ upper = Some u ∧ (l <= v <= u)%Q.
Proof.
  apply (winsorize_reclip_same_bounds examples.one_company_panel "ROA").
  - apply (bool_decide_unpack _). vm_compute. reflexivity.
  - vm_compute. reflexivity.
Defined.

(** [winsorize_panel] is not idempotent.  On the panel of one company whose
    ROA is 0, 1, ..., 99 the first application clips the smallest cell to
    the 1st percentile, 0.99; the second takes the 1st percentile of the
    clipped column, 0.99 + 0.99 * (1 - 0.99) = 0.9999, and moves that cell
    again. *)
Lemma winsorize_twice_changes_value :
  ∃ v1 v2,
    p_columns (winsorize_panel examples.one_company_panel) !! "ROA" ≫= head
      = Some (Some v1)
    ∧ p_columns (winsorize_panel (winsorize_panel examples.one_company_panel))
        !! "ROA" ≫= head = Some (Some v2)
    ∧ (v1 == 99 # 100)%Q ∧ (v2 == 9999 # 10000)%Q ∧ ¬ (v1 == v2)%Q.
Proof.
  eexists _, _. split_and!.
  - vm_compute. reflexivity.
  - vm_compute. reflexivity.
  - reflexivity.
  - reflexivity.
  - intros H. discriminate H.
Qed.

(** ** The panel assembler *)

Lemma RATIO_NAMES_fmap : RATIO_NAMES = name <$> RATIOS.
Proof. reflexivity. Qed.

(** The frame of [_compute_ratios] has the canonical quarters as its index
    and exactly the seven ratio columns, each with a cell per quarter. *)
Lemma compute_ratios_shape (sources : gmap string (option DataFrame))
    (df : DataFrame) :
  _compute_ratios sources = Returned df →
  index df = EXPECTED_QTR_INDEX
  ∧ ∀ col, if decide (col ∈ RATIO_NAMES)
           then ∃ series, columns df !! col = Some series
                          ∧ length series = length EXPECTED_QTR_INDEX
           else columns df !! col = None.
Proof.
  unfold _compute_ratios. intros Hrun.
  apply compute_ratio_columns_spec in Hrun as (Hidx & Hother & Hmine).
  split; [done|]. intros col. rewrite RATIO_NAMES_fmap.
  destruct (decide (col ∈ name <$> RATIOS)) as [Hin|Hnin].
  - apply list_elem_of_fmap in Hin as (r & -> & Hr).
    destruct (Hmine RATIOS_names_NoDup r Hr)
      as (ndf & num & ddf & den & _ & _ & _ & _ & Hcol).
    eexists. split; [done|]. by rewrite length_fmap.
  - by rewrite (Hother col Hnin).
Qed.

(** An error of [_compute_ratios] is a failed lookup. *)
Lemma compute_ratio_columns_raises (sources : gmap string (option DataFrame))
    (ratios : list RatioDef) (df0 : DataFrame) (e : exn) :
  compute_ratio_columns sources ratios df0 = Raised e →
  (∃ key, e = KeyError key) ∨ (∃ msg, e = TypeError msg).
Proof.
  revert df0. induction ratios as [|r ratios IH]; intros df0; [done|]. simpl.
  assert (∀ src_name (k : DataFrame → result DataFrame),
    (∀ df, k df = Raised e → (∃ key, e = KeyError key) ∨ (∃ msg, e = TypeError msg)) →
    getitem_source sources src_name ≫= k = Raised e →
    (∃ key, e = KeyError key) ∨ (∃ msg, e = TypeError msg)) as Hsrc.
  { intros src_name k Hk. unfold getitem_source.
    destruct (sources !! src_name) as [[df|]|]; simpl; [apply Hk| |];
      intros [= <-]; eauto. }
  assert (∀ df col (k : Series → result DataFrame),
    (∀ s, k s = Raised e → (∃ key, e = KeyError key) ∨ (∃ msg, e = TypeError msg)) →
    getitem_column df col ≫= k = Raised e →
    (∃ key, e = KeyError key) ∨ (∃ msg, e = TypeError msg)) as Hcol.
  { intros df col k Hk. unfold getitem_column.
    destruct (columns df !! col) as [values|]; simpl; [apply Hk|].
    intros [= <-]; eauto. }
  apply Hsrc. intros ndf. apply Hcol. intros num.
  apply Hsrc. intros ddf. apply Hcol. intros den. apply IH.
Qed.

Lemma collect_ratios_cons (fs : FileSystem) (t : string) (tickers : list string) :
  collect_ratios fs (t :: tickers)
  = (sources ← load_sources fs t;
     if negb (_is_complete sources) then collect_ratios fs tickers
     else
       ratios ← _compute_ratios sources;
       all_ratios ← collect_ratios fs tickers;
       Returned ((t, ratios) :: all_ratios)).
Proof. reflexivity. Qed.

Lemma loaded_sources_returned (fs : FileSystem) (t : string)
    (sources : gmap string (option DataFrame)) :
  load_sources fs t = Returned sources →
  loaded_sources fs t = sources ∧ is_survivor fs t = _is_complete sources.
Proof. unfold loaded_sources, is_survivor. by intros ->. Qed.

Lemma is_survivor_loaded (fs : FileSystem) (t : string) :
  is_survivor fs t = true →
  load_sources fs t = Returned (loaded_sources fs t)
  ∧ _is_complete (loaded_sources fs t) = true.
Proof.
  unfold loaded_sources, is_survivor.
  by destruct (load_sources fs t) as [sources|].
Qed.

Lemma collect_ratios_spec (fs : FileSystem) (tickers : list string)
    (all_ratios : list (string * DataFrame)) :
  collect_ratios fs tickers = Returned all_ratios →
  all_ratios.*1 = filter (λ t, is_survivor fs t = true) tickers
  ∧ Forall (λ tf, _compute_ratios (loaded_sources fs tf.1) = Returned tf.2)
      all_ratios
  ∧ ∀ t, t ∈ tickers → ∃ sources, load_sources fs t = Returned sources.
Proof.
  revert all_ratios. induction tickers as [|t tickers IH]; intros all_ratios.
  - intros [= <-]. split_and!; [done|done|].
    intros t Ht. by apply elem_of_nil in Ht.
  - rewrite collect_ratios_cons, filter_cons.
    destruct (load_sources fs t) as [sources|] eqn:Hload; [|done].
    cbn [mbind result_bind].
    destruct (loaded_sources_returned _ _ _ Hload) as [Hl Hs]. rewrite Hs.
    destruct (_is_complete sources) eqn:Hc; cbn [negb].
    + rewrite decide_True by done.
      destruct (_compute_ratios sources) as [df|] eqn:Hdf; [|done].
      cbn [mbind result_bind].
      destruct (collect_ratios fs tickers) as [rest|]; [|done].
      cbn [mbind result_bind].
      intros [= <-]. destruct (IH rest eq_refl) as (Hfst & Hall & Hloads).
      split_and!.
      * rewrite fmap_cons. by f_equal.
      * constructor; [|done]. cbn [fst snd]. by rewrite Hl.
      * intros t' [-> |Ht']%elem_of_cons; [by eexists|by apply Hloads].
    + rewrite decide_False by done. intros Hrest.
      destruct (IH _ Hrest) as (Hfst & Hall & Hloads). split_and!; [done|done|].
      intros t' [-> |Ht']%elem_of_cons; [by eexists|by apply Hloads].
Qed.

Lemma collect_ratios_returns (fs : FileSystem) (tickers : list string) :
  (∀ t, t ∈ tickers → ∃ sources, load_sources fs t = Returned sources) →
  (∀ t, t ∈ filter (λ t, is_survivor fs t = true) tickers →
        ∃ df, _compute_ratios (loaded_sources fs t) = Returned df) →
  ∃ all_ratios, collect_ratios fs tickers = Returned all_ratios.
Proof.
  induction tickers as [|t tickers IH]; intros Hloads Hok; [by eexists|].
  rewrite collect_ratios_cons. rewrite filter_cons in Hok.
  destruct (Hloads t) as [sources Hload]; [by left|]. rewrite Hload.
  cbn [mbind result_bind].
  destruct (loaded_sources_returned _ _ _ Hload) as [Hl Hs].
  rewrite Hs in Hok.
  destruct IH as [rest Hrest].
  { intros t' Ht'. apply Hloads. by right. }
  { intros t' Ht'. apply Hok. case_decide; [by right|done]. }
  destruct (_is_complete sources) eqn:Hc; cbn [negb]; [|by eexists].
  rewrite decide_True in Hok by done.
  destruct (Hok t) as [df Hdf]; [by left|].
  rewrite Hl in Hdf. rewrite Hdf, Hrest. by eexists.
Qed.

Lemma collect_ratios_raises (fs : FileSystem) (tickers : list string) (e : exn) :
  collect_ratios fs tickers = Raised e →
  ∃ t, t ∈ tickers
       ∧ (load_sources fs t = Raised e
          ∨ (is_survivor fs t = true
             ∧ _compute_ratios (loaded_sources fs t) = Raised e)).
Proof.
  induction tickers as [|t tickers IH]; [done|].
  assert (collect_ratios fs tickers = Raised e →
          ∃ t', t' ∈ t :: tickers
            ∧ (load_sources fs t' = Raised e
               ∨ (is_survivor fs t' = true
                  ∧ _compute_ratios (loaded_sources fs t') = Raised e))) as IH'.
  { intros (t' & Ht' & He')%IH. exists t'. split; [by right|done]. }
  rewrite collect_ratios_cons.
  destruct (load_sources fs t) as [sources|e'] eqn:Hload; cbn [mbind result_bind].
  - destruct (loaded_sources_returned _ _ _ Hload) as [Hl Hs].
    destruct (_is_complete sources) eqn:Hc; cbn [negb]; [|done].
    destruct (_compute_ratios sources) as [df|e'] eqn:Hdf; cbn [mbind result_bind].
    + destruct (collect_ratios fs tickers) as [rest|e'']; [done|].
      cbn [mbind result_bind]. intros [= <-]. by apply IH'.
    + intros [= <-]. exists t. split; [by left|]. right.
      by rewrite Hs, Hl.
  - intros [= <-]. exists t. split; [by left|by left].
Qed.

Lemma survivors_NoDup (fs : FileSystem) : NoDup (survivors fs).
Proof.
  unfold survivors, filter_sectors, get_ticker_universe, sorted.
  do 2 apply NoDup_filter. rewrite merge_sort_Permutation.
  apply NoDup_elements.
Qed.

Lemma length_bind_eq {A B C : Type} (f : A → list B) (g : A → list C)
    (l : list A) :
  (∀ x, x ∈ l → length (f x) = length (g x)) →
  length (l ≫= f) = length (l ≫= g).
Proof.
  induction l as [|a l IH]; intros Hlen; [done|].
  rewrite !bind_cons, !length_app, (Hlen a) by left.
  rewrite IH; [done|]. intros x Hx. apply Hlen. by right.
Qed.

Lemma bind_ext_in {A B : Type} (f g : A → list B) (l : list A) :
  (∀ x, x ∈ l → f x = g x) → l ≫= f = l ≫= g.
Proof.
  induction l as [|a l IH]; intros Heq; [done|].
  rewrite !bind_cons, (Heq a) by left. f_equal. apply IH.
  intros x Hx. apply Heq. by right.
Qed.

Lemma zip_bind {A B C : Type} (f : A → list B) (g : A → list C) (l : list A) :
  (∀ x, x ∈ l → length (f x) = length (g x)) →
  zip (l ≫= f) (l ≫= g) = l ≫= (λ x, zip (f x) (g x)).
Proof.
  induction l as [|a l IH]; intros Hlen; [done|].
  rewrite !bind_cons, zip_with_app by (apply Hlen; left).
  f_equal. apply IH. intros x Hx. apply Hlen. by right.
Qed.

Lemma filter_zip_replicate (t t' : string) (labels : list string) :
  filter (λ row : string * string, row.1 = t)
    (zip (replicate (length labels) t') labels)
  = if decide (t' = t) then zip (replicate (length labels) t') labels else [].
Proof.
  induction labels as [|q labels IH]; simpl; [by destruct (decide (t' = t))|].
  rewrite filter_cons. simpl. rewrite IH.
  by destruct (decide (t' = t)).
Qed.

Lemma snd_zip_replicate (t : string) (labels : list string) :
  (zip (replicate (length labels) t) labels).*2 = labels.
Proof. apply snd_zip. by rewrite length_replicate. Qed.

(** In frames put one under the other, the rows of a ticker that has one
    frame are the rows of that frame. *)
Lemma filter_blocks (t : string) (labels : list string)
    (blocks : list (string * DataFrame)) :
  NoDup blocks.*1 →
  filter (λ row : string * string, row.1 = t)
    (blocks ≫= λ tf, zip (replicate (length labels) tf.1) labels)
  = if decide (t ∈ blocks.*1)
    then zip (replicate (length labels) t) labels else [].
Proof.
  induction blocks as [|[t' df] blocks IH]; intros Hnd; [done|].
  rewrite fmap_cons in Hnd. apply NoDup_cons in Hnd as [Hfresh Hnd].
  rewrite bind_cons, filter_app, filter_zip_replicate, (IH Hnd). simpl in *.
  destruct (decide (t' = t)) as [->|Hne].
  - rewrite decide_False by done. rewrite decide_True by left.
    by rewrite app_nil_r.
  - destruct (decide (t ∈ blocks.*1)) as [Hin|Hnin].
    + by rewrite decide_True by (by right).
    + rewrite decide_False; [done|]. by intros [?|?]%elem_of_cons.
Qed.

Lemma concat_spec (all_ratios : list (string * DataFrame)) :
  Forall (λ tf, ratio_frame tf.2) all_ratios → all_ratios ≠ [] →
  NoDup all_ratios.*1 →
  length (p_quarter (concat all_ratios)) = length (p_ticker (concat all_ratios))
  ∧ (∀ t, t ∈ p_ticker (concat all_ratios) ↔ t ∈ all_ratios.*1)
  ∧ (∀ t, t ∈ all_ratios.*1 →
          ticker_quarters (concat all_ratios) t
          = period_str <$> EXPECTED_QTR_INDEX)
  ∧ (∀ col, col ∈ RATIO_NAMES →
       ∃ series, p_columns (concat all_ratios) !! col = Some series
                 ∧ length series = length (p_ticker (concat all_ratios))).
Proof.
  intros Hshape Hne Hnd. rewrite Forall_forall in Hshape.
  assert (length EXPECTED_QTR_INDEX = 100%nat) as Hlen by reflexivity.
  assert (p_ticker (concat all_ratios)
          = all_ratios ≫= λ tf,
              replicate (length (period_str <$> EXPECTED_QTR_INDEX)) tf.1) as Ht.
  { unfold concat. cbn [p_ticker]. apply bind_ext_in.
    intros tf Htf. destruct (Hshape tf Htf) as [-> _]. by rewrite length_fmap. }
  assert (p_quarter (concat all_ratios)
          = all_ratios ≫= λ tf, period_str <$> EXPECTED_QTR_INDEX) as Hq.
  { unfold concat. cbn [p_quarter]. apply bind_ext_in.
    intros tf Htf. by destruct (Hshape tf Htf) as [-> _]. }
  split_and!.
  - rewrite Ht, Hq. apply length_bind_eq. intros tf _.
    by rewrite length_replicate.
  - intros t. rewrite Ht, list_elem_of_bind, list_elem_of_fmap. split.
    + intros (tf & Hin%elem_of_replicate_inv & Htf). by exists tf.
    + intros (tf & -> & Htf). exists tf. split; [|done].
      apply elem_of_replicate. split; [done|]. by rewrite length_fmap, Hlen.
  - intros t Hin. unfold ticker_quarters. rewrite Ht, Hq.
    rewrite (zip_bind (λ tf, replicate _ tf.1) (λ _, period_str <$> EXPECTED_QTR_INDEX))
      by (intros; by rewrite length_replicate).
    rewrite (filter_blocks t (period_str <$> EXPECTED_QTR_INDEX) _ Hnd).
    rewrite decide_True by done. apply snd_zip_replicate.
  - intros col Hcol. unfold concat at 1. cbn [p_columns]. eexists. split.
    + apply lookup_set_to_map; [by intros y y' _ _|]. exists col.
      split; [|done]. apply elem_of_union_list.
      destruct all_ratios as [|tf rest]; [done|].
      exists (dom (columns tf.2)). split; [rewrite fmap_cons; by left|].
      apply elem_of_dom. destruct (Hshape tf ltac:(left)) as [_ Hcols].
      specialize (Hcols col). rewrite decide_True in Hcols by done.
      destruct Hcols as (series & -> & _). done.
    + rewrite Ht. apply length_bind_eq. intros tf Htf.
      destruct (Hshape tf Htf) as [Hidx Hcols]. specialize (Hcols col).
      rewrite decide_True in Hcols by done.
      destruct Hcols as (series & -> & Hls). cbn [from_option]. unfold Datatypes.id.
      by rewrite Hls, length_replicate, length_fmap.
Qed.

Lemma select_columns_spec (panel : Panel Q) (names : list string) :
  (∀ col, col ∈ names → is_Some (p_columns panel !! col)) →
  ∃ selected, select_columns panel names = Returned selected
    ∧ p_ticker selected = p_ticker panel
    ∧ p_quarter selected = p_quarter panel
    ∧ ∀ col, p_columns selected !! col
             = if decide (col ∈ names) then p_columns panel !! col else None.
Proof.
  intros Hall. unfold select_columns.
  assert (mapM (λ c, match p_columns panel !! c with
                     | Some series => Returned (c, series)
                     | None => Raised (KeyError c)
                     end) names
          = Returned ((λ c, (c, default [] (p_columns panel !! c))) <$> names))
    as ->.
  { induction names as [|a names IH]; [done|]. simpl.
    destruct (Hall a ltac:(left)) as [series ->]. simpl.
    rewrite IH by (intros col Hcol; apply Hall; by right). done. }
  simpl. eexists. split_and!; try done. intros col. cbn [p_columns].
  rewrite (lookup_list_to_map_fun (λ c, default [] (p_columns panel !! c))).
  destruct (decide (col ∈ names)) as [Hin|]; [|done].
  by destruct (Hall col Hin) as [series ->].
Qed.

(** The three ways [build_ratio_panel] ends: an error of [_compute_ratios]
    on a surviving ticker, the RuntimeError when no ticker survives, or the
    panel of the surviving tickers. *)
Lemma build_ratio_panel_cases (fs : FileSystem) :
  (∃ e t, build_ratio_panel fs = Raised e
          ∧ t ∈ filter_sectors (get_ticker_universe fs) (load_sector_map fs)
          ∧ (load_sources fs t = Raised e
             ∨ (t ∈ survivors fs
                ∧ _compute_ratios (loaded_sources fs t) = Raised e)))
  ∨ (survivors fs = [] ∧ ∃ msg, build_ratio_panel fs = Raised (RuntimeError msg))
  ∨ (survivors fs ≠ [] ∧
     ∃ all_ratios panel,
       build_ratio_panel fs = Returned panel
       ∧ all_ratios.*1 = survivors fs
       ∧ Forall (λ tf, _compute_ratios (loaded_sources fs tf.1) = Returned tf.2)
           all_ratios
       ∧ p_ticker panel = p_ticker (concat all_ratios)
       ∧ p_quarter panel = p_quarter (concat all_ratios)
       ∧ ∀ col, p_columns panel !! col
                = if decide (col ∈ RATIO_NAMES)
                  then _clip_col (1 # 100) (99 # 100)
                         <$> p_columns (concat all_ratios) !! col
                  else None).
Proof.
  unfold build_ratio_panel.
  destruct (collect_ratios fs
              (filter_sectors (get_ticker_universe fs) (load_sector_map fs)))
    as [all_ratios|e] eqn:Hcollect; cbn [mbind result_bind].
  - apply collect_ratios_spec in Hcollect as (Hfst & Hall & _).
    change (all_ratios.*1 = survivors fs) in Hfst.
    destruct all_ratios as [|tf rest].
    + right. left. split; [done|]. by eexists.
    + right. right. split; [by rewrite <- Hfst|].
      remember (tf :: rest) as all_ratios eqn:Hl.
      assert (all_ratios ≠ []) as Hne by (by rewrite Hl).
      assert (Forall (λ tf, ratio_frame tf.2) all_ratios) as Hshape.
      { eapply Forall_impl; [exact Hall|]. intros tf' Htf'.
        exact (compute_ratios_shape _ _ Htf'). }
      destruct (concat_spec all_ratios Hshape Hne) as (_ & _ & _ & Hcols).
      { rewrite Hfst. apply survivors_NoDup. }
      destruct (winsorize_panel_spec (concat all_ratios)) as (Ht & Hq & Hw).
      destruct (select_columns_spec (winsorize_panel (concat all_ratios)) RATIO_NAMES)
        as (panel & Hsel0 & Ht' & Hq' & Hsel).
      { intros col Hcol. rewrite Hw, decide_True by done.
        destruct (Hcols col Hcol) as (series & -> & _). by eexists. }
      exists all_ratios, panel. split_and!; try done; try congruence.
      intros col. rewrite Hsel, Hw. by destruct (decide (col ∈ RATIO_NAMES)).
  - left. apply collect_ratios_raises in Hcollect as (t & Ht & He).
    exists e, t. split_and!; [done|done|].
    destruct He as [He|[Hs He]]; [by left|right].
    split; [|done]. unfold survivors. by apply list_elem_of_filter.
Qed.
Lemma canonical_quarter_labels :
  length (period_str <$> EXPECTED_QTR_INDEX) = 100%nat
  ∧ NoDup (period_str <$> EXPECTED_QTR_INDEX)
  ∧ head (period_str <$> EXPECTED_QTR_INDEX) = Some "2000Q1"
  ∧ last (period_str <$> EXPECTED_QTR_INDEX) = Some "2024Q4".
Proof.
  split_and!; [vm_compute; reflexivity| |vm_compute; reflexivity
              |vm_compute; reflexivity].
  apply (bool_decide_unpack _). vm_compute. reflexivity.
Qed.

(** C1.  In the panel [build_ratio_panel] returns, the rows of every ticker
    carry, in order, exactly the labels of the canonical quarters, 2000Q1 to
    2024Q4: 100 labels, none twice, none missing and no other.  Every row
    has a quarter label and a cell (a number or NaN) in each of the seven
    ratio columns. *)
Theorem panel_quarters_are_canonical (fs : FileSystem) (panel : Panel Q) :
  build_ratio_panel fs = Returned panel →
  length (period_str <$> EXPECTED_QTR_INDEX) = 100%nat
  ∧ NoDup (period_str <$> EXPECTED_QTR_INDEX)
  ∧ (∀ t, t ∈ p_ticker panel →
          ticker_quarters panel t = period_str <$> EXPECTED_QTR_INDEX)
  ∧ length (p_quarter panel) = length (p_ticker panel)
  ∧ length RATIO_NAMES = 7%nat
  ∧ ∀ col, col ∈ RATIO_NAMES →
      ∃ series, p_columns panel !! col = Some series
                ∧ length series = length (p_ticker panel).
Proof.
  intros Hbuild.
  destruct canonical_quarter_labels as (Hlen & Hnd & _).
  split_and!; [done|done| | |done|];
    destruct (build_ratio_panel_cases fs)
      as [(e & t0 & He & _)|[(_ & msg & He)|(Hne & all_ratios & panel' & Hp & Hfst
            & Hall & Ht & Hq & Hcols)]]; try congruence;
    rewrite Hbuild in Hp; injection Hp as <-;
    (assert (Forall (λ tf, ratio_frame tf.2) all_ratios) as Hshape
       by (eapply Forall_impl; [exact Hall|]; intros tf' Htf';
           exact (compute_ratios_shape _ _ Htf')));
    (destruct (concat_spec all_ratios Hshape) as (Hlenq & Hmem & Hquarters & Hc);
       [by intros ->|rewrite Hfst; apply survivors_NoDup|]).
  - intros t Hin. unfold ticker_quarters. rewrite Ht, Hq.
    apply Hquarters, Hmem. by rewrite <- Ht.
  - by rewrite Ht, Hq.
  - intros col Hcol. rewrite Hcols, decide_True by done.
    destruct (Hc col Hcol) as (series & -> & Hls). eexists. split; [done|].
    unfold _clip_col. by rewrite length_fmap, Ht.
Qed.

Lemma three_companies_build :
  build_ratio_panel examples.three_companies
  = Returned examples.three_companies_panel.
Proof. vm_compute. reflexivity. Qed.

(** The panel of the three companies has the rows of AAA alone. *)
Example three_companies_tickers :
  remove_dups (p_ticker examples.three_companies_panel) = ["AAA"]
  ∧ length (p_ticker examples.three_companies_panel) = 100%nat.
Proof. split; vm_compute; reflexivity. Qed.

Lemma panel_quarters_are_canonical_witness :
  length (period_str <$> EXPECTED_QTR_INDEX) = 100%nat
  ∧ NoDup (period_str <$> EXPECTED_QTR_INDEX)
  ∧ (∀ t, t ∈ p_ticker examples.three_companies_panel →
          ticker_quarters examples.three_companies_panel t
          = period_str <$> EXPECTED_QTR_INDEX)
  ∧ length (p_quarter examples.three_companies_panel)
    = length (p_ticker examples.three_companies_panel)
  ∧ length RATIO_NAMES = 7%nat
  ∧ ∀ col, col ∈ RATIO_NAMES →
      ∃ series, p_columns examples.three_companies_panel !! col = Some series
                ∧ length series = length (p_ticker examples.three_companies_panel).
Proof.
  apply (panel_quarters_are_canonical examples.three_companies).
  vm_compute. reflexivity.
Defined.

Lemma ratio_columns_presentb_true (fs : FileSystem) :
  ratio_columns_presentb fs = true → ratio_columns_present fs.
Proof.
  unfold ratio_columns_presentb, ratio_columns_present.
  rewrite forallb_forall. intros Hall t r Ht Hr.
  apply list_elem_of_In, Hall in Ht. rewrite forallb_forall in Ht.
  apply list_elem_of_In, Ht in Hr.
  apply andb_true_iff in Hr as [Hn Hd].
  split; by apply has_columnb_true.
Qed.

(** What the loader of one ticker returns: the three tables under their
    keys.  It raises what [pd.read_csv] raises for one of the files. *)
Lemma load_sources_returned (fs : FileSystem) (t : string)
    (sources : gmap string (option DataFrame)) :
  load_sources fs t = Returned sources →
  ∃ income balance cashflow,
    _load_source fs t "income" = Returned income
    ∧ _load_source fs t "balance" = Returned balance
    ∧ _load_source fs t "cashflow" = Returned cashflow
    ∧ sources = {[ "income" := income; "balance" := balance;
                   "cashflow" := cashflow ]}.
Proof.
  unfold load_sources.
  destruct (_load_source fs t "income") as [i|]; [|done].
  destruct (_load_source fs t "balance") as [b|]; [|done].
  destruct (_load_source fs t "cashflow") as [c|]; [|done].
  cbn [mbind result_bind]. intros [= <-]. by exists i, b, c.
Qed.

Lemma load_sources_lookup (fs : FileSystem) (t src_name : string)
    (sources : gmap string (option DataFrame)) (df : option DataFrame) :
  load_sources fs t = Returned sources →
  src_name ∈ ["income"; "balance"; "cashflow"] →
  _load_source fs t src_name = Returned df →
  sources !! src_name = Some df.
Proof.
  intros (i & b & c & Hi & Hb & Hc & ->)%load_sources_returned Hsrc Hdf.
  set_unfold in Hsrc. destruct Hsrc as [ -> | [ -> | [ -> | [] ] ] ].
  - rewrite lookup_insert_eq. congruence.
  - rewrite lookup_insert_ne, lookup_insert_eq by done. congruence.
  - rewrite !lookup_insert_ne, lookup_singleton_eq by done. congruence.
Qed.

Lemma load_source_raises (fs : FileSystem) (t src_name : string) (e : exn) :
  _load_source fs t src_name = Raised e ↔
  ∃ failure, read_csv fs src_name t = Some (inl failure) ∧ e = read_exn failure.
Proof.
  unfold _load_source.
  destruct (read_csv fs src_name t) as [[failure|raw]|].
  - split; [intros [= <-]; by exists failure|].
    by intros (f & [= <-] & ->).
  - destruct (_ || _); split; try done; by intros (f & [=] & _).
  - split; [done|]. by intros (f & [=] & _).
Qed.

Lemma load_sources_raises (fs : FileSystem) (t : string) (e : exn) :
  load_sources fs t = Raised e →
  ∃ src_name failure, src_name ∈ ["income"; "balance"; "cashflow"]
    ∧ read_csv fs src_name t = Some (inl failure) ∧ e = read_exn failure.
Proof.
  unfold load_sources.
  destruct (_load_source fs t "income") as [i|e1] eqn:Hi; cbn [mbind result_bind].
  2:{ intros [= <-]. apply load_source_raises in Hi as (f & ? & ?).
      exists "income", f. split_and!; [by left|done|done]. }
  destruct (_load_source fs t "balance") as [b|e2] eqn:Hb; cbn [mbind result_bind].
  2:{ intros [= <-]. apply load_source_raises in Hb as (f & ? & ?).
      exists "balance", f. split_and!; [right; by left|done|done]. }
  destruct (_load_source fs t "cashflow") as [c|e3] eqn:Hc; cbn [mbind result_bind].
  2:{ intros [= <-]. apply load_source_raises in Hc as (f & ? & ?).
      exists "cashflow", f. split_and!; [do 2 right; by left|done|done]. }
  done.
Qed.

Lemma readable_loads (fs : FileSystem) (t : string) :
  files_readable fs → ∃ sources, load_sources fs t = Returned sources.
Proof.
  intros Hread. destruct (load_sources fs t) as [sources|e] eqn:Hload;
    [by eexists|].
  apply load_sources_raises in Hload as (src_name & f & _ & Hf & _).
  by apply Hread in Hf.
Qed.

(** The tickers a company is disqualified by do not survive: an excluded
    sector, a statement file that is missing, statements that are not
    complete. *)
Lemma disqualified_not_survivor (fs : FileSystem) (t : string) :
  (∃ s, load_sector_map fs !! t = Some s ∧ s ∈ EXCLUDED_SECTORS)
  ∨ (∃ src_name, src_name ∈ ["income"; "balance"; "cashflow"]
                 ∧ read_csv fs src_name t = None)
  ∨ _is_complete (loaded_sources fs t) = false →
  t ∉ survivors fs.
Proof.
  unfold survivors. rewrite list_elem_of_filter.
  intros [(s & Hs & Hex)|[(src_name & Hsrc & Hread)|Hc]]
    [[Hload Hcomplete]%is_survivor_loaded Hin].
  - unfold filter_sectors in Hin. apply list_elem_of_filter in Hin as [Hkeep _].
    rewrite Hs in Hkeep. by apply Hkeep.
  - apply is_complete_spec with (src_name := src_name) (df := None) in Hcomplete.
    + by destruct Hcomplete as (? & ? & _).
    + apply (load_sources_lookup fs t); [done|done|].
      unfold _load_source. by rewrite Hread.
  - congruence.
Qed.

(** The loop over the tickers collects nothing exactly when every ticker
    loads and fails the completeness gate. *)
Lemma collect_ratios_nil (fs : FileSystem) (tickers : list string) :
  collect_ratios fs tickers = Returned [] ↔
  ∀ t, t ∈ tickers →
    ∃ sources, load_sources fs t = Returned sources
               ∧ _is_complete sources = false.
Proof.
  induction tickers as [|t tickers IH].
  - split; [|done]. intros _ t Ht. by apply elem_of_nil in Ht.
  - rewrite collect_ratios_cons. split.
    + destruct (load_sources fs t) as [sources|] eqn:Hload; [|done].
      cbn [mbind result_bind].
      destruct (_is_complete sources) eqn:Hc; cbn [negb].
      * destruct (_compute_ratios sources) as [df|]; [|done].
        cbn [mbind result_bind].
        by destruct (collect_ratios fs tickers) as [rest|].
      * intros Hrest t' [-> |Ht']%elem_of_cons; [by exists sources|].
        by apply IH.
    + intros Hall. destruct (Hall t) as (sources & Hl & Hc); [by left|].
      rewrite Hl. cbn [mbind result_bind]. rewrite Hc. cbn [negb].
      apply IH. intros t' Ht'. apply Hall. by right.
Qed.

Lemma read_exn_not_RuntimeError (failure : read_failure) (msg : string) :
  read_exn failure ≠ RuntimeError msg.
Proof. by destruct failure. Qed.

Lemma runtime_error_iff_none_complete (fs : FileSystem) :
  (∃ msg, build_ratio_panel fs = Raised (RuntimeError msg))
  ↔ ∀ t, t ∈ filter_sectors (get_ticker_universe fs) (load_sector_map fs) →
      ∃ sources, load_sources fs t = Returned sources
                 ∧ _is_complete sources = false.
Proof.
  rewrite <- collect_ratios_nil. split.
  - intros [msg Hmsg].
    destruct (collect_ratios fs
                (filter_sectors (get_ticker_universe fs) (load_sector_map fs)))
      as [[|tf rest]|e] eqn:Hcollect; [done| |].
    + exfalso.
      destruct (build_ratio_panel_cases fs)
        as [(e & t & He & Ht & Hc)|[(Hnil & _)|(_ & l & panel & Hp & _)]].
      * rewrite He in Hmsg. injection Hmsg as ->.
        destruct Hc as [Hload|[_ Hc]].
        -- apply load_sources_raises in Hload as (? & f & _ & _ & Hf).
           symmetry in Hf. by apply read_exn_not_RuntimeError in Hf.
        -- by apply compute_ratio_columns_raises in Hc as [[? ?]|[? ?]].
      * apply collect_ratios_spec in Hcollect as (Hfst & _).
        change ((tf :: rest).*1 = survivors fs) in Hfst.
        by rewrite Hnil in Hfst.
      * congruence.
    + exfalso. unfold build_ratio_panel in Hmsg. rewrite Hcollect in Hmsg.
      cbn [mbind result_bind] in Hmsg. injection Hmsg as ->.
      apply collect_ratios_raises in Hcollect as (t & Ht & [Hload|[Hs Hc]]).
      * apply load_sources_raises in Hload as (? & f & _ & _ & Hf).
        symmetry in Hf. by apply read_exn_not_RuntimeError in Hf.
      * by apply compute_ratio_columns_raises in Hc as [[? ?]|[? ?]].
  - intros Hcollect. unfold build_ratio_panel. rewrite Hcollect. by eexists.
Qed.

Lemma build_returns_survivors (fs : FileSystem) (panel : Panel Q) :
  build_ratio_panel fs = Returned panel →
  ∀ t, t ∈ p_ticker panel ↔ t ∈ survivors fs.
Proof.
  intros Hbuild.
  destruct (build_ratio_panel_cases fs)
    as [(e & t0 & He & _)|[(_ & msg & He)|(Hne & all_ratios & panel' & Hp & Hfst
          & Hall & Ht & _)]]; try congruence.
  rewrite Hbuild in Hp. injection Hp as <-.
  assert (Forall (λ tf, ratio_frame tf.2) all_ratios) as Hshape.
  { eapply Forall_impl; [exact Hall|]. intros tf' Htf'.
    exact (compute_ratios_shape _ _ Htf'). }
  destruct (concat_spec all_ratios Hshape) as (_ & Hmem & _).
  - intros ->. by rewrite <- Hfst in Hne.
  - rewrite Hfst. apply survivors_NoDup.
  - intros t. by rewrite Ht, Hmem, Hfst.
Qed.

(** X2.  [build_ratio_panel] raises its RuntimeError if and only if every
    ticker that passes the sector filter loads (no statement file of it
    makes [pd.read_csv] raise) and fails the completeness gate; this needs
    nothing of the columns of the statements. *)
Theorem build_runtime_error_iff (fs : FileSystem) :
  (∃ msg, build_ratio_panel fs = Raised (RuntimeError msg))
  ↔ ∀ t, t ∈ filter_sectors (get_ticker_universe fs) (load_sector_map fs) →
      ∃ sources, load_sources fs t = Returned sources
                 ∧ _is_complete sources = false.
Proof.
  split.
  - intros Herr. by apply runtime_error_iff_none_complete.
  - intros Hnone. by apply runtime_error_iff_none_complete.
Qed.

(** With files that read, no survivor means the RuntimeError. *)
Lemma no_survivor_runtime_error (fs : FileSystem) :
  files_readable fs → survivors fs = [] →
  ∃ msg, build_ratio_panel fs = Raised (RuntimeError msg).
Proof.
  intros Hread Hnil. apply runtime_error_iff_none_complete. intros t Ht.
  destruct (readable_loads fs t Hread) as [sources Hload].
  exists sources. split; [done|].
  destruct (loaded_sources_returned _ _ _ Hload) as [_ Hs].
  destruct (_is_complete sources) eqn:Hc; [|done].
  assert (t ∈ survivors fs) as Hin
    by (unfold survivors; by apply list_elem_of_filter).
  rewrite Hnil in Hin. by apply elem_of_nil in Hin.
Qed.

(** C9, as amended.  With statement files that [pd.read_csv] reads and
    statements that carry the columns the ratio definitions name,
    [build_ratio_panel] raises exactly when no ticker survives the filters,
    and what it raises then is its RuntimeError; otherwise it returns the
    panel of the surviving tickers.  A company that is disqualified
    (excluded sector, missing statement file, incomplete quarters) is not
    among the survivors and so not in the panel; being disqualified raises
    nothing. *)
Theorem build_fails_only_without_survivors (fs : FileSystem) :
  files_readable fs → ratio_columns_present fs →
  (raises (build_ratio_panel fs) ↔ survivors fs = [])
  ∧ (survivors fs = [] →
     ∃ msg, build_ratio_panel fs = Raised (RuntimeError msg))
  ∧ (survivors fs ≠ [] →
     ∃ panel, build_ratio_panel fs = Returned panel
              ∧ ∀ t, t ∈ p_ticker panel ↔ t ∈ survivors fs)
  ∧ ∀ t, (∃ s, load_sector_map fs !! t = Some s ∧ s ∈ EXCLUDED_SECTORS)
         ∨ (∃ src_name, src_name ∈ ["income"; "balance"; "cashflow"]
                        ∧ read_csv fs src_name t = None)
         ∨ _is_complete (loaded_sources fs t) = false →
         t ∉ survivors fs.
Proof.
  intros Hread Hcols.
  assert (survivors fs ≠ [] → ∃ panel, build_ratio_panel fs = Returned panel)
    as Hreturns.
  { intros Hne.
    destruct (build_ratio_panel_cases fs)
      as [(e & t & He & Ht & Hc)|[(Hnil & _)|(_ & l & panel & Hp & _)]];
      [|done|by exists panel].
    destruct Hc as [Hload|[Hs Hc]].
    - destruct (readable_loads fs t Hread) as [sources Hsources]. congruence.
    - destruct (compute_ratio_columns_returns (loaded_sources fs t) RATIOS
                  {| index := EXPECTED_QTR_INDEX; columns := ∅ |}) as [df Hdf].
      + intros r Hr. by apply Hcols.
      + unfold _compute_ratios in Hc. congruence. }
  split_and!.
  - split.
    + intros [e He]. destruct (decide (survivors fs = [])) as [|Hne]; [done|].
      destruct (Hreturns Hne) as [panel Hp]. congruence.
    + intros [msg Hmsg]%no_survivor_runtime_error; [by eexists|done].
  - by apply no_survivor_runtime_error.
  - intros Hne. destruct (Hreturns Hne) as [panel Hp]. exists panel.
    split; [done|]. by apply build_returns_survivors.
  - apply disqualified_not_survivor.
Qed.

Lemma three_companies_readable : files_readable examples.three_companies.
Proof.
  intros src_name ticker failure. cbn.
  repeat case_decide; discriminate.
Qed.

Lemma build_fails_only_without_survivors_witness :
  (raises (build_ratio_panel examples.three_companies)
   ↔ survivors examples.three_companies = [])
  ∧ (survivors examples.three_companies = [] →
     ∃ msg, build_ratio_panel examples.three_companies
            = Raised (RuntimeError msg))
  ∧ (survivors examples.three_companies ≠ [] →
     ∃ panel, build_ratio_panel examples.three_companies = Returned panel
              ∧ ∀ t, t ∈ p_ticker panel ↔ t ∈ survivors examples.three_companies)
  ∧ ∀ t, (∃ s, load_sector_map examples.three_companies !! t = Some s
               ∧ s ∈ EXCLUDED_SECTORS)
         ∨ (∃ src_name, src_name ∈ ["income"; "balance"; "cashflow"]
                        ∧ read_csv examples.three_companies src_name t = None)
         ∨ _is_complete (loaded_sources examples.three_companies t) = false →
         t ∉ survivors examples.three_companies.
Proof.
  apply (build_fails_only_without_survivors examples.three_companies).
  - exact three_companies_readable.
  - apply ratio_columns_presentb_true. vm_compute. reflexivity.
Defined.

(** C9 as the specification states it fails: the statements of AAA are
    complete, so AAA survives, but they lack the column ebit, and the run
    ends in the KeyError of the ratio computer. *)
Lemma survivor_without_column_raises :
  survivors examples.no_ebit = ["AAA"]
  ∧ build_ratio_panel examples.no_ebit = Raised (KeyError "ebit")
  ∧ ¬ (raises (build_ratio_panel examples.no_ebit)
       ↔ survivors examples.no_ebit = []).
Proof.
  assert (survivors examples.no_ebit = ["AAA"]) as Hs
    by (vm_compute; reflexivity).
  assert (build_ratio_panel examples.no_ebit = Raised (KeyError "ebit")) as Hb
    by (vm_compute; reflexivity).
  split_and!; [done|done|].
  intros [Hraises _]. rewrite Hs in Hraises.
  discriminate Hraises. rewrite Hb. by eexists.
Qed.

(** Of the three companies AAA survives; BBB lacks a quarter of its cashflow
    statement and CCC is a bank. *)
Example three_companies_survivors :
  survivors examples.three_companies = ["AAA"]
  ∧ _is_complete (loaded_sources examples.three_companies "BBB") = false
  ∧ load_sector_map examples.three_companies !! "CCC" = Some "Banks".
Proof. split_and!; vm_compute; reflexivity. Qed.

(** With no company left the run ends in the RuntimeError. *)
Example no_company_raises :
  ∃ msg, build_ratio_panel
           {| csv_stems := λ _, ["CCC"];
              read_csv := read_csv examples.three_companies;
              profile_csvs := profile_csvs examples.three_companies |}
         = Raised (RuntimeError msg).
Proof. eexists. vm_compute. reflexivity. Qed.

(** A file of zero bytes among the statements: AAA survives, and the run
    ends in the EmptyDataError of [pd.read_csv] on the income statement of
    DDD. *)
Example empty_file_raises :
  survivors examples.with_empty_file = ["AAA"]
  ∧ build_ratio_panel examples.with_empty_file
    = Raised (EmptyDataError "No columns to parse from file").
Proof. split; vm_compute; reflexivity. Qed.

End load_data_spec.

(** * Properties of the estimator *)

Module ar_model_spec.
Import config ar_model ar_examples.
Local Open Scope R_scope.

Lemma float_lt_true (x y : float) :
  float_lt x y = true ↔ ∃ a b, x = Some a ∧ y = Some b ∧ a < b.
Proof.
  unfold float_lt. destruct x as [a|], y as [b|]; split;
    try (intros (? & ? & ? & ? & ?); done); try done.
  - intros H%bool_decide_eq_true. by exists a, b.
  - intros (? & ? & [= <-] & [= <-] & H). by apply bool_decide_eq_true.
Qed.

Lemma half_life_of_mean_reverting (p : R) :
  0 < p < 1 → half_life_of (Some p) = Some (ln (1 / 2) / ln (Rabs p)).
Proof.
  intros [H0 H1]. unfold half_life_of, float_lt.
  by rewrite !bool_decide_eq_true_2.
Qed.

Lemma half_life_of_not_applicable (p : R) :
  p <= 0 ∨ 1 <= p → half_life_of (Some p) = None.
Proof.
  intros H. unfold half_life_of, float_lt.
  destruct H as [H|H].
  - rewrite (bool_decide_eq_false_2 (0 < p)) by lra. done.
  - rewrite (bool_decide_eq_false_2 (p < 1)) by lra.
    by rewrite andb_false_r.
Qed.

Lemma half_life_of_positive (phi h : R) :
  half_life_of (Some phi) = Some h → 0 < phi < 1 ∧ 0 < h.
Proof.
  unfold half_life_of, float_lt.
  destruct (bool_decide (0 < phi)) eqn:H0; [|done].
  destruct (bool_decide (phi < 1)) eqn:H1; [|done].
  apply bool_decide_eq_true in H0, H1. simpl. intros [= <-].
  split; [done|].
  assert (ln (1 / 2) < 0) as Hhalf.
  { rewrite <- ln_1. apply ln_increasing; lra. }
  assert (ln (Rabs phi) < 0) as Hphi.
  { rewrite Rabs_pos_eq by lra. rewrite <- ln_1. apply ln_increasing; lra. }
  replace (ln (1 / 2) / ln (Rabs phi))
    with ((- ln (1 / 2)) * / (- ln (Rabs phi))) by (field; lra).
  apply Rmult_lt_0_compat; [lra|]. apply Rinv_0_lt_compat. lra.
Qed.

(** The half-life of a fit is the policy applied to its slope. *)
Lemma fit_half_life (sm : statsmodels) (series : list float) (fit : Fit) :
  _fit_ar1_on_diff sm series = Returned (Some fit) →
  half_life fit = half_life_of (phi1 fit).
Proof.
  unfold _fit_ar1_on_diff.
  destruct (_ <? _)%nat; [done|].
  destruct (float_lt _ _); [done|].
  destruct (_ <? _)%nat; [done|].
  destruct (OLS_fit sm _ _) as [model|]; [|done].
  destruct (getitem (params model) 1) as [v1|]; [|done]. simpl.
  destruct (getitem (bse model) 1) as [v2|]; [|done]. simpl.
  destruct (getitem (pvalues model) 1) as [v3|]; [|done]. simpl.
  destruct (getitem (params model) 0) as [v4|]; [|done]. simpl.
  by intros [= <-].
Qed.

Lemma estimate_ratios_cons (sm : statsmodels) (panel : Panel R)
    (ticker ratio : string) (rest : list string) :
  estimate_ratios sm panel ticker (ratio :: rest)
  = (series ← ticker_series panel ticker ratio;
     if (n_valid series <? AR_ORDER + DIFF_ORDER + 3)%nat
     then estimate_ratios sm panel ticker rest
     else
       fit ← _fit_ar1_on_diff sm series;
       match fit with
       | None => estimate_ratios sm panel ticker rest
       | Some f =>
         results ← estimate_ratios sm panel ticker rest;
         Returned ({| f_ticker := ticker; f_ratio := ratio; f_fit := f |}
                     :: results)
       end).
Proof. reflexivity. Qed.

Lemma estimate_ratios_fits (sm : statsmodels) (panel : Panel R)
    (ticker : string) (ratios : list string) (features : list Feature) :
  estimate_ratios sm panel ticker ratios = Returned features →
  ∀ f, f ∈ features →
    f_ticker f = ticker ∧ f_ratio f ∈ ratios
    ∧ ∃ series, ticker_series panel ticker (f_ratio f) = Returned series
        ∧ (n_valid series <? AR_ORDER + DIFF_ORDER + 3)%nat = false
        ∧ _fit_ar1_on_diff sm series = Returned (Some (f_fit f)).
Proof.
  revert features. induction ratios as [|ratio ratios IH]; intros features.
  - intros [= <-] f Hf. by apply elem_of_nil in Hf.
  - rewrite estimate_ratios_cons.
    destruct (ticker_series panel ticker ratio) as [series|] eqn:Hseries;
      [|done]. cbn [mbind result_bind].
    destruct (n_valid series <? AR_ORDER + DIFF_ORDER + 3)%nat eqn:Hvalid.
    { intros Hrest f Hf. destruct (IH _ Hrest f Hf) as (? & ? & ?).
      split_and!; [done|by right|done]. }
    destruct (_fit_ar1_on_diff sm series) as [[fit|]|] eqn:Hfit; [| |done];
      cbn [mbind result_bind].
    + destruct (estimate_ratios sm panel ticker ratios) as [rest|]; [|done].
      cbn [mbind result_bind]. intros [= <-] f [->|Hf]%elem_of_cons.
      * simpl. split_and!; [done|by left|]. by exists series.
      * destruct (IH _ eq_refl f Hf) as (? & ? & ?).
        split_and!; [done|by right|done].
    + intros Hrest f Hf. destruct (IH _ Hrest f Hf) as (? & ? & ?).
      split_and!; [done|by right|done].
Qed.

Lemma estimate_tickers_cons (sm : statsmodels) (panel : Panel R)
    (ticker : string) (rest : list string) :
  estimate_tickers sm panel (ticker :: rest)
  = (here ← estimate_ratios sm panel ticker RATIO_NAMES;
     results ← estimate_tickers sm panel rest;
     Returned (here ++ results)).
Proof. reflexivity. Qed.

Lemma estimate_tickers_fits (sm : statsmodels) (panel : Panel R)
    (tickers : list string) (features : list Feature) :
  estimate_tickers sm panel tickers = Returned features →
  ∀ f, f ∈ features →
    f_ticker f ∈ tickers ∧ f_ratio f ∈ RATIO_NAMES
    ∧ ∃ series, ticker_series panel (f_ticker f) (f_ratio f) = Returned series
        ∧ (n_valid series <? AR_ORDER + DIFF_ORDER + 3)%nat = false
        ∧ _fit_ar1_on_diff sm series = Returned (Some (f_fit f)).
Proof.
  revert features. induction tickers as [|t tickers IH]; intros features.
  - intros [= <-] f Hf. by apply elem_of_nil in Hf.
  - rewrite estimate_tickers_cons.
    destruct (estimate_ratios sm panel t RATIO_NAMES) as [here|] eqn:Hhere;
      [|done]. cbn [mbind result_bind].
    destruct (estimate_tickers sm panel tickers) as [rest|]; [|done].
    cbn [mbind result_bind]. intros [= <-] f [Hf|Hf]%elem_of_app.
    + destruct (estimate_ratios_fits _ _ _ _ _ Hhere f Hf) as (-> & ? & ?).
      split_and!; [by left|done|done].
    + destruct (IH _ eq_refl f Hf) as (? & ? & ?).
      split_and!; [by right|done|done].
Qed.

Lemma estimate_ar_features_fits (sm : statsmodels) (panel : Panel R)
    (features : list Feature) :
  estimate_ar_features sm panel = Returned features →
  features ≠ []
  ∧ ∀ f, f ∈ features →
      f_ticker f ∈ p_ticker panel ∧ f_ratio f ∈ RATIO_NAMES
      ∧ ∃ series, ticker_series panel (f_ticker f) (f_ratio f) = Returned series
          ∧ (n_valid series <? AR_ORDER + DIFF_ORDER + 3)%nat = false
          ∧ _fit_ar1_on_diff sm series = Returned (Some (f_fit f)).
Proof.
  unfold estimate_ar_features.
  destruct (estimate_tickers sm panel _) as [results|] eqn:Hrun; [|done].
  cbn [mbind result_bind]. destruct results as [|f0 results]; [done|].
  intros [= <-].
  split; [done|]. intros f Hf.
  destruct (estimate_tickers_fits _ _ _ _ Hrun f Hf) as (Ht & ? & ?).
  split_and!; [|done|done].
  by rewrite merge_sort_Permutation, elem_of_remove_dups in Ht.
Qed.

(** C3.  For every estimate of the feature table: with a slope phi1
    strictly between 0 and 1 the half-life is ln(0.5) / ln(|phi1|); with
    any other slope (phi1 <= 0, phi1 >= 1, or NaN) it is NaN, not
    applicable; a half-life that is a number is a positive real. *)
Theorem half_life_policy (sm : statsmodels) (panel : Panel R)
    (features : list Feature) (f : Feature) :
  estimate_ar_features sm panel = Returned features → f ∈ features →
  (∀ p, phi1 (f_fit f) = Some p → 0 < p < 1 →
        half_life (f_fit f) = Some (ln (1 / 2) / ln (Rabs p)))
  ∧ (∀ p, phi1 (f_fit f) = Some p → p <= 0 ∨ 1 <= p →
          half_life (f_fit f) = None)
  ∧ (phi1 (f_fit f) = None → half_life (f_fit f) = None)
  ∧ (∀ h, half_life (f_fit f) = Some h → 0 < h).
Proof.
  intros Hrun Hf. apply estimate_ar_features_fits in Hrun as [_ Hfits].
  destruct (Hfits f Hf) as (_ & _ & series & _ & _ & Hfit).
  apply fit_half_life in Hfit. rewrite Hfit. split_and!.
  - intros p -> Hp. by apply half_life_of_mean_reverting.
  - intros p -> Hp. by apply half_life_of_not_applicable.
  - by intros ->.
  - intros h Hh. destruct (phi1 (f_fit f)) as [p|]; [|done].
    by apply half_life_of_positive in Hh as [_ ?].
Qed.

Lemma example_sigma_not_degenerate :
  float_lt (std 1 (dropna (diff DIFF_ORDER roa_values))) (Some (1 / 10 ^ 15))
  = false.
Proof.
  unfold std, roa_values, DIFF_ORDER. simpl.
  apply bool_decide_eq_false_2, Rle_not_lt.
  apply Rle_trans with 1; [simpl; lra|].
  rewrite <- sqrt_1 at 1. apply sqrt_le_1_alt.
  unfold mean, sum_R. simpl. lra.
Qed.

Lemma example_fit_returned :
  _fit_ar1_on_diff fixed_fit roa_values = Returned (Some example_fit).
Proof.
  unfold _fit_ar1_on_diff. cbv zeta. rewrite example_sigma_not_degenerate.
  reflexivity.
Qed.

Lemma example_series (ratio : string) :
  ratio ∈ RATIO_NAMES →
  ticker_series six_quarters "AAA" ratio
  = Returned (if decide (ratio = "ROA") then roa_values else replicate 6 None).
Proof.
  intros Hin. apply list_elem_of_In in Hin. simpl in Hin.
  destruct Hin as [<-|[<-|[<-|[<-|[<-|[<-|[<-|[]]]]]]]];
    vm_compute; reflexivity.
Qed.

Lemma example_features_returned :
  estimate_ar_features fixed_fit six_quarters = Returned [example_feature].
Proof.
  unfold estimate_ar_features.
  replace (merge_sort String.le (remove_dups (p_ticker six_quarters)))
    with ["AAA"] by (vm_compute; reflexivity).
  rewrite estimate_tickers_cons. unfold RATIO_NAMES, RATIOS. cbn [map name].
  repeat (rewrite estimate_ratios_cons, example_series
            by (apply (bool_decide_unpack _); vm_compute; reflexivity);
          cbn [mbind result_bind];
          first [ rewrite decide_True by reflexivity
                | rewrite decide_False by discriminate ];
          first [ replace (n_valid roa_values <? AR_ORDER + DIFF_ORDER + 3)%nat
                    with false by reflexivity;
                  rewrite example_fit_returned; cbn [mbind result_bind]
                | replace (n_valid (replicate 6 None) <? AR_ORDER + DIFF_ORDER + 3)%nat
                    with true by reflexivity ]).
  reflexivity.
Qed.

Lemma half_life_policy_witness :
  (∀ p, phi1 (f_fit example_feature) = Some p → 0 < p < 1 →
        half_life (f_fit example_feature) = Some (ln (1 / 2) / ln (Rabs p)))
  ∧ (∀ p, phi1 (f_fit example_feature) = Some p → p <= 0 ∨ 1 <= p →
          half_life (f_fit example_feature) = None)
  ∧ (phi1 (f_fit example_feature) = None →
     half_life (f_fit example_feature) = None)
  ∧ (∀ h, half_life (f_fit example_feature) = Some h → 0 < h).
Proof.
  apply (half_life_policy fixed_fit six_quarters [example_feature]).
  - exact example_features_returned.
  - by left.
Defined.

(** The half-life of the example: its slope is 1/2, so ln(0.5)/ln(0.5) = 1. *)
Example example_half_life : half_life example_fit = Some 1.
Proof.
  unfold example_fit. cbn [half_life].
  rewrite half_life_of_mean_reverting by lra. f_equal.
  rewrite Rabs_pos_eq by lra. field.
  rewrite <- ln_1. intros H. apply ln_inv in H; lra.
Qed.

(** ** Skip conditions *)

(** A series with a skip condition past the count of its values gets no
    fit, and no error. *)
Lemma fit_skips (sm : statsmodels) (series : list float) :
  let d := dropna (diff DIFF_ORDER series) in
  let yx := regression_pairs d in
  (length d < AR_ORDER + 3)%nat
  ∨ (∃ s, std 1 d = Some s ∧ s < 1 / 10 ^ 15)
  ∨ (length yx < AR_ORDER + 3)%nat
  ∨ OLS_fit sm yx.*1 (add_constant sm yx.*2) = None →
  _fit_ar1_on_diff sm series = Returned None.
Proof.
  intros d yx Hskip. unfold _fit_ar1_on_diff. fold d. fold yx.
  destruct (length d <? AR_ORDER + 3)%nat eqn:Hd; [done|].
  apply Nat.ltb_ge in Hd.
  destruct (float_lt (std 1 d) (Some (1 / 10 ^ 15))) eqn:Hs; [done|].
  destruct (length yx <? AR_ORDER + 3)%nat eqn:Hn; [done|].
  apply Nat.ltb_ge in Hn.
  destruct Hskip as [?|[(s & Hstd & Hlt)|[?|Hols]]]; [lia| |lia|].
  - rewrite Hstd in Hs. simpl in Hs.
    by rewrite bool_decide_eq_true_2 in Hs.
  - by rewrite Hols.
Qed.

(** A series that gets no fit has a skip condition. *)
Lemma fit_none_skips (sm : statsmodels) (series : list float) :
  _fit_ar1_on_diff sm series = Returned None → skips sm series.
Proof.
  unfold _fit_ar1_on_diff, skips.
  set (d := dropna (diff DIFF_ORDER series)). set (yx := regression_pairs d).
  destruct (length d <? AR_ORDER + 3)%nat eqn:Hd.
  { apply Nat.ltb_lt in Hd. auto. }
  destruct (float_lt (std 1 d) (Some (1 / 10 ^ 15))) eqn:Hs.
  { apply float_lt_true in Hs as (a & b & Ha & [= <-] & Hlt). eauto 10. }
  destruct (length yx <? AR_ORDER + 3)%nat eqn:Hn.
  { apply Nat.ltb_lt in Hn. auto 10. }
  destruct (OLS_fit sm yx.*1 (add_constant sm yx.*2)) as [model|] eqn:Hols;
    [|auto 10].
  destruct (getitem (params model) 1) as [v1|]; [|done]. simpl.
  destruct (getitem (bse model) 1) as [v2|]; [|done]. simpl.
  destruct (getitem (pvalues model) 1) as [v3|]; [|done]. simpl.
  destruct (getitem (params model) 0) as [v4|]; done.
Qed.

(** A series that gets a fit has no skip condition past the count of its
    values. *)
Lemma fit_some_no_skip (sm : statsmodels) (series : list float) (fit : Fit) :
  _fit_ar1_on_diff sm series = Returned (Some fit) →
  (AR_ORDER + DIFF_ORDER + 3 ≤ n_valid series)%nat → ¬ skips sm series.
Proof.
  intros Hfit Hvalid [?|Hskip]; [lia|].
  apply fit_skips in Hskip. congruence.
Qed.

Lemma estimate_ratios_complete (sm : statsmodels) (panel : Panel R)
    (ticker : string) (ratios : list string) (features : list Feature) :
  estimate_ratios sm panel ticker ratios = Returned features →
  ∀ ratio series, ratio ∈ ratios →
    ticker_series panel ticker ratio = Returned series → ¬ skips sm series →
    ∃ f, f ∈ features ∧ f_ticker f = ticker ∧ f_ratio f = ratio.
Proof.
  revert features. induction ratios as [|r ratios IH]; intros features.
  - intros _ ratio series Hin. by apply elem_of_nil in Hin.
  - rewrite estimate_ratios_cons.
    destruct (ticker_series panel ticker r) as [s|] eqn:Hs; [|done].
    cbn [mbind result_bind].
    destruct (n_valid s <? AR_ORDER + DIFF_ORDER + 3)%nat eqn:Hvalid.
    { apply Nat.ltb_lt in Hvalid.
      intros Hrest ratio series [->|Hin]%elem_of_cons Hseries Hno.
      - destruct Hno. unfold skips. left. congruence.
      - by apply (IH _ Hrest ratio series). }
    destruct (_fit_ar1_on_diff sm s) as [[fit|]|] eqn:Hfit; [| |done];
      cbn [mbind result_bind].
    + destruct (estimate_ratios sm panel ticker ratios) as [rest|]; [|done].
      cbn [mbind result_bind].
      intros [= <-] ratio series [->|Hin]%elem_of_cons Hseries Hno.
      * eexists. split; [by left|done].
      * destruct (IH _ eq_refl ratio series Hin Hseries Hno) as (f & ? & ?).
        exists f. split; [by right|done].
    + intros Hrest ratio series [->|Hin]%elem_of_cons Hseries Hno.
      * destruct Hno. apply fit_none_skips. congruence.
      * by apply (IH _ Hrest ratio series).
Qed.

Lemma estimate_tickers_complete (sm : statsmodels) (panel : Panel R)
    (tickers : list string) (features : list Feature) :
  estimate_tickers sm panel tickers = Returned features →
  ∀ ticker ratio series, ticker ∈ tickers → ratio ∈ RATIO_NAMES →
    ticker_series panel ticker ratio = Returned series → ¬ skips sm series →
    ∃ f, f ∈ features ∧ f_ticker f = ticker ∧ f_ratio f = ratio.
Proof.
  revert features. induction tickers as [|t tickers IH]; intros features.
  - intros _ ticker ratio series Hin. by apply elem_of_nil in Hin.
  - rewrite estimate_tickers_cons.
    destruct (estimate_ratios sm panel t RATIO_NAMES) as [here|] eqn:Hhere;
      [|done]. cbn [mbind result_bind].
    destruct (estimate_tickers sm panel tickers) as [rest|]; [|done].
    cbn [mbind result_bind].
    intros [= <-] ticker ratio series [->|Hin]%elem_of_cons Hratio Hseries Hno.
    + destruct (estimate_ratios_complete _ _ _ _ _ Hhere ratio series)
        as (f & ? & ?); try done.
      exists f. split; [|done]. apply elem_of_app. by left.
    + destruct (IH _ eq_refl ticker ratio series) as (f & ? & ?); try done.
      exists f. split; [|done]. apply elem_of_app. by right.
Qed.

(** X1.  When [estimate_ar_features] returns its table, a (ticker, ratio) pair
    has a row in it exactly when the ticker is in the panel, the ratio is
    one of the seven, and the series of the pair has no skip condition. *)
Theorem feature_iff_no_skip (sm : statsmodels) (panel : Panel R)
    (features : list Feature) (ticker ratio : string) :
  estimate_ar_features sm panel = Returned features →
  (∃ f, f ∈ features ∧ f_ticker f = ticker ∧ f_ratio f = ratio)
  ↔ ticker ∈ p_ticker panel ∧ ratio ∈ RATIO_NAMES
    ∧ ∃ series, ticker_series panel ticker ratio = Returned series
                ∧ ¬ skips sm series.
Proof.
  intros Hrun. split.
  - intros (f & Hf & <- & <-).
    apply estimate_ar_features_fits in Hrun as [_ Hfits].
    destruct (Hfits f Hf) as (? & ? & series & Hseries & Hvalid & Hfit).
    split_and!; try done. exists series. split; [done|].
    apply Nat.ltb_ge in Hvalid. by apply (fit_some_no_skip sm series (f_fit f)).
  - intros (Ht & Hratio & series & Hseries & Hno).
    unfold estimate_ar_features in Hrun.
    destruct (estimate_tickers sm panel _) as [results|] eqn:Htickers; [|done].
    cbn [mbind result_bind] in Hrun.
    destruct results as [|f0 results]; [done|]. injection Hrun as <-.
    apply (estimate_tickers_complete _ _ _ _ Htickers ticker ratio series);
      try done.
    by rewrite merge_sort_Permutation, elem_of_remove_dups.
Qed.

(** C7, where the code fails it.  The input: a panel of one company whose every
    ratio is NaN in every quarter.  All seven pairs are skipped, no row is
    collected, and reading the ["ticker"] column of the empty feature table
    raises KeyError, whatever statsmodels does. *)
Theorem all_skipped_raises (sm : statsmodels) :
  (∀ ratio, ratio ∈ RATIO_NAMES →
     ∃ series, ticker_series all_missing "AAA" ratio = Returned series
               ∧ skips sm series)
  ∧ estimate_ar_features sm all_missing = Raised (KeyError "ticker").
Proof.
  split; [|vm_compute; reflexivity].
  intros ratio Hin. exists (replicate 100 None). split.
  - apply list_elem_of_In in Hin. simpl in Hin.
    destruct Hin as [<-|[<-|[<-|[<-|[<-|[<-|[<-|[]]]]]]]];
      vm_compute; reflexivity.
  - left. vm_compute. lia.
Qed.

Lemma feature_iff_no_skip_witness :
  (∃ f, f ∈ [example_feature] ∧ f_ticker f = "AAA" ∧ f_ratio f = "ROA")
  ↔ "AAA" ∈ p_ticker six_quarters ∧ "ROA" ∈ RATIO_NAMES
    ∧ ∃ series, ticker_series six_quarters "AAA" "ROA" = Returned series
                ∧ ¬ skips fixed_fit series.
Proof.
  apply (feature_iff_no_skip fixed_fit six_quarters [example_feature]).
  exact example_features_returned.
Defined.

End ar_model_spec.

(** * Further properties of panel construction *)

Module load_data_props.
Import config load_data load_data_spec.
Local Open Scope Z_scope.

Lemma sorted_spec (s : gset string) :
  StronglySorted String.le (sorted s) ∧ NoDup (sorted s)
  ∧ ∀ t, t ∈ sorted s ↔ t ∈ s.
Proof.
  unfold sorted. split_and!.
  - apply StronglySorted_merge_sort; apply _.
  - rewrite merge_sort_Permutation. apply NoDup_elements.
  - intros t. by rewrite merge_sort_Permutation, elem_of_elements.
Qed.

(** X3. The ticker universe holds exactly the tickers that have a CSV in
    each of the three statement folders (the profile folder plays no part),
    each once, in ascending order. *)
Theorem ticker_universe_is_sorted_intersection (fs : FileSystem) :
  (∀ t, t ∈ get_ticker_universe fs ↔
        t ∈ csv_stems fs "income" ∧ t ∈ csv_stems fs "balance"
        ∧ t ∈ csv_stems fs "cashflow")
  ∧ NoDup (get_ticker_universe fs)
  ∧ StronglySorted String.le (get_ticker_universe fs).
Proof.
  unfold get_ticker_universe.
  destruct (sorted_spec (_csv_tickers fs "income" ∩ _csv_tickers fs "balance"
                          ∩ _csv_tickers fs "cashflow")) as (Hs & Hn & He).
  split_and!; [|done|done].
  intros t. rewrite He. unfold _csv_tickers.
  rewrite !elem_of_intersection, !elem_of_list_to_set. tauto.
Qed.

(** X4. A ticker of which no readable profile speaks (no profile CSV that
    reads has it, as a text, as the symbol of its first row) has no sector,
    and the sector filter keeps it. *)
Theorem unreadable_profile_is_kept (fs : FileSystem) (tickers : list string)
    (t : string) :
  (∀ rows, Some rows ∈ profile_csvs fs →
           fst <$> head rows ≠ Some (TextSymbol t)) →
  t ∈ tickers →
  load_sector_map fs !! t = None
  ∧ t ∈ filter_sectors tickers (load_sector_map fs).
Proof.
  intros Hunread Ht.
  pose proof (load_sector_map_unread fs t Hunread) as Hnone.
  split; [done|].
  unfold filter_sectors. apply list_elem_of_filter. split; [|done].
  rewrite Hnone. cbn. rewrite elem_of_EXCLUDED_SECTORS.
  intros [ | [ | ] ]; discriminate.
Qed.

Lemma unreadable_profile_is_kept_witness :
  load_sector_map examples.three_companies !! "BBB" = None
  ∧ "BBB" ∈ filter_sectors ["CCC"; "AAA"; "BBB"]
              (load_sector_map examples.three_companies).
Proof.
  apply (unreadable_profile_is_kept examples.three_companies).
  - intros rows Hrows. cbn in Hrows.
    apply elem_of_cons in Hrows as [Hr|Hrows]; [injection Hr as ->; cbn; congruence|].
    apply elem_of_cons in Hrows as [Hr|Hrows]; [discriminate|].
    apply elem_of_cons in Hrows as [Hr|Hrows]; [injection Hr as ->; cbn; congruence|].
    by apply elem_of_nil in Hrows.
  - set_solver.
Defined.

Lemma sector_fold_keeps (after : list (option (list (symbol_cell * string))))
    (m : gmap string string) (t : string) :
  (∀ rows, Some rows ∈ after → fst <$> head rows ≠ Some (TextSymbol t)) →
  foldl (λ sector_map df,
           match df with
           | Some ((TextSymbol symbol, sector) :: _) =>
               <[symbol := sector]> sector_map
           | _ => sector_map
           end) m after !! t = m !! t.
Proof.
  revert m. induction after as [|df after IH]; intros m Hno; [done|].
  cbn. rewrite IH by (intros rows Hr; apply Hno; by right).
  destruct df as [[|[[symbol|] sector] rows]|]; try done.
  apply lookup_insert_ne. intros Heq.
  apply (Hno ((TextSymbol symbol, sector) :: rows)); [by left|cbn; by rewrite Heq].
Qed.

(** X5. The sector of a ticker is the one in the first row of the last
    readable profile whose first row has the ticker, as a text, as its
    symbol: later profiles overwrite earlier ones; further rows of a
    profile, profiles that do not read and profiles whose symbol cell is
    no text (pandas read it as a number) change nothing. *)
Theorem sector_map_last_profile_wins (fs : FileSystem)
    (before after : list (option (list (symbol_cell * string))))
    (t sector : string) (rows : list (symbol_cell * string)) :
  profile_csvs fs = before ++ Some ((TextSymbol t, sector) :: rows) :: after →
  (∀ rows', Some rows' ∈ after → fst <$> head rows' ≠ Some (TextSymbol t)) →
  load_sector_map fs !! t = Some sector.
Proof.
  intros Hp Hafter. unfold load_sector_map. rewrite Hp, foldl_app. cbn.
  rewrite sector_fold_keeps by done. apply lookup_insert_eq.
Qed.

Lemma sector_map_last_profile_wins_witness :
  load_sector_map
    {| csv_stems := λ _, []; read_csv := λ _ _, None;
       profile_csvs := [Some [(TextSymbol "AAA", "Banks")]; None;
                        Some [(TextSymbol "AAA", "Technology");
                              (TextSymbol "AAA", "Insurance")];
                        Some []; Some [(OtherSymbol, "Banks")];
                        Some [(TextSymbol "BBB", "Banks")]] |} !! "AAA"
  = Some "Technology".
Proof.
  apply (sector_map_last_profile_wins _
           [Some [(TextSymbol "AAA", "Banks")]; None]
           [Some []; Some [(OtherSymbol, "Banks")];
            Some [(TextSymbol "BBB", "Banks")]]
           "AAA" "Technology" [(TextSymbol "AAA", "Insurance")]); [reflexivity|].
  intros rows' Hr.
  apply elem_of_cons in Hr as [Hr|Hr]; [injection Hr as ->; cbn; congruence|].
  apply elem_of_cons in Hr as [Hr|Hr]; [injection Hr as ->; cbn; congruence|].
  apply elem_of_cons in Hr as [Hr|Hr]; [injection Hr as ->; cbn; congruence|].
  by apply elem_of_nil in Hr.
Defined.

Lemma StronglySorted_seqZ (m n : Z) : StronglySorted Z.le (seqZ m n).
Proof.
  destruct (decide (0 ≤ n)) as [Hn|Hn].
  - revert m. pattern n. apply natlike_ind; [|clear n Hn|done].
    + intros m. rewrite seqZ_nil by lia. constructor.
    + intros n Hn IH m. rewrite seqZ_cons by lia.
      replace (Z.pred (Z.succ n)) with n by lia. constructor; [apply IH|].
      apply Forall_forall. intros x Hx%elem_of_seqZ. lia.
  - rewrite seqZ_nil by lia. constructor.
Qed.

Lemma aligned_rows_sorted (raw : CsvFrame) :
  StronglySorted Z.le (d_quarter <$> aligned_rows raw).
Proof.
  apply (StronglySorted_fmap d_quarter quarter_le); [done|].
  unfold aligned_rows. apply Sorted_StronglySorted.
  - intros a b c. unfold quarter_le. lia.
  - apply Sorted_merge_sort. intros a b. unfold quarter_le. lia.
Qed.

Lemma to_period_in_range (t : Timestamp) :
  in_year_range t = true → 1 ≤ month t ≤ 12 → to_period t ∈ EXPECTED_QTR_INDEX.
Proof.
  unfold in_year_range. intros [Hlo%bool_decide_eq_true Hhi%bool_decide_eq_true]%andb_true_iff Hm.
  apply elem_of_expected_quarters. unfold to_period, period, YEAR_START, YEAR_END in *.
  assert (0 ≤ (month t - 1) `div` 3 ≤ 3); [|lia].
  split; [apply Z.div_pos; lia|].
  apply Z.lt_succ_r, Z.div_lt_upper_bound; lia.
Qed.

Lemma load_source_index (fs : FileSystem) (ticker src_name : string)
    (raw : CsvFrame) (df : DataFrame) :
  read_csv fs src_name ticker = Some (inr raw) →
  _load_source fs ticker src_name = Returned (Some df) →
  index df = d_quarter <$> aligned_rows raw
  ∧ columns df = list_to_map
      ((λ c, (c, (λ r, to_numeric (default CEmpty (d_fields r !! c)))
                   <$> aligned_rows raw))
         <$> filter (λ c, c ∉ "quarter" :: drop_cols) (csv_columns raw)).
Proof.
  unfold _load_source. intros ->.
  destruct (_ || _); [done|]. by intros [= <-].
Qed.

(** X6. A statement file that has a date column and rows of which none
    survives (every date unparseable or outside 2000-2024) is not an empty
    file to [_load_source]: it gives a table, not [None], with an empty
    index and empty columns; that table fails the completeness gate in
    whatever dict of sources it stands. *)
Theorem all_rows_dropped_gives_empty_table (fs : FileSystem)
    (ticker src_name : string) (raw : CsvFrame) :
  read_csv fs src_name ticker = Some (inr raw) →
  "date" ∈ csv_columns raw → csv_rows raw ≠ [] →
  (∀ rec t, rec ∈ csv_rows raw → date rec = Some t →
            in_year_range t = false) →
  ∃ df, _load_source fs ticker src_name = Returned (Some df)
    ∧ index df = []
    ∧ (∀ col series, columns df !! col = Some series → series = [])
    ∧ ∀ (sources : gmap string (option DataFrame)) key,
        sources !! key = Some (Some df) → _is_complete sources = false.
Proof.
  intros Hraw Hdate Hrows Hout.
  assert (aligned_rows raw = []) as Hnil.
  { destruct (aligned_rows raw) as [|r rows] eqn:Hal; [done|].
    destruct (aligned_rows_spec raw) as (_ & Hin & _).
    destruct (Hin r) as (rec & Hrec & Hd & Hrange & _); [rewrite Hal; by left|].
    by rewrite (Hout rec _ Hrec Hd) in Hrange. }
  destruct (_load_source fs ticker src_name) as [[df|]|e] eqn:Hdf.
  - destruct (load_source_index fs ticker src_name raw df Hraw Hdf) as [Hi Hc].
    exists df. rewrite Hi, Hc, Hnil. split_and!; [done|done| |].
    + intros col series. rewrite lookup_list_to_map_fun.
      case_decide; [by intros [= <-]|done].
    + intros sources key Hkey.
      destruct (_is_complete sources) eqn:Hcomplete; [|done].
      apply is_complete_spec with (src_name := key) (df := Some df)
        in Hcomplete as (t & [= <-] & Hall); [|done].
      assert (period 2000 1 ∈ index df) as Hin.
      { apply Hall, elem_of_expected_quarters. unfold period. lia. }
      rewrite Hi, Hnil in Hin. by apply elem_of_nil in Hin.
  - exfalso. unfold _load_source in Hdf. rewrite Hraw in Hdf.
    rewrite bool_decide_eq_false_2 in Hdf by (by intros ?).
    destruct (csv_rows raw); [done|]. done.
  - exfalso. unfold _load_source in Hdf. rewrite Hraw in Hdf.
    by destruct (_ || _).
Qed.

Lemma all_rows_dropped_gives_empty_table_witness :
  ∃ df, _load_source examples.all_dropped_files "AAA" "income"
        = Returned (Some df)
    ∧ index df = []
    ∧ (∀ col series, columns df !! col = Some series → series = [])
    ∧ ∀ (sources : gmap string (option DataFrame)) key,
        sources !! key = Some (Some df) → _is_complete sources = false.
Proof.
  apply (all_rows_dropped_gives_empty_table examples.all_dropped_files
           "AAA" "income" examples.all_dropped); [reflexivity| |done|].
  - by left.
  - intros rec t Hrec Hd. cbn in Hrec.
    repeat (apply elem_of_cons in Hrec as [-> |Hrec];
            [cbn in Hd; first [discriminate | by injection Hd as <-]|]).
    by apply elem_of_nil in Hrec.
Defined.

(** X7. The index of a loaded table is in ascending order, has every quarter
    once and holds only quarters of 2000Q1 to 2024Q4; so it has at most 100
    labels, and it covers the expected quarters exactly when it is the
    expected index. *)
Theorem loaded_index_is_canonical (fs : FileSystem) (ticker src_name : string)
    (raw : CsvFrame) (df : DataFrame) :
  read_csv fs src_name ticker = Some (inr raw) →
  _load_source fs ticker src_name = Returned (Some df) →
  (∀ rec t, rec ∈ csv_rows raw → date rec = Some t → 1 ≤ month t ≤ 12) →
  StronglySorted Z.lt (index df)
  ∧ (∀ q, q ∈ index df → q ∈ EXPECTED_QTR_INDEX)
  ∧ (length (index df) ≤ 100)%nat
  ∧ ((∀ q, q ∈ EXPECTED_QTR_INDEX → q ∈ index df)
     ↔ index df = EXPECTED_QTR_INDEX).
Proof.
  intros Hraw Hdf Hmonth.
  destruct (load_source_index fs ticker src_name raw df Hraw Hdf) as [Hi _].
  destruct (aligned_rows_spec raw) as (Hnd & Hin & _).
  pose proof (aligned_rows_sorted raw) as Hsorted.
  rewrite <- Hi in Hnd, Hsorted.
  assert (∀ q, q ∈ index df → q ∈ EXPECTED_QTR_INDEX) as Hrange.
  { intros q. rewrite Hi. intros (r & -> & Hr)%list_elem_of_fmap.
    destruct (Hin r Hr) as (rec & Hrec & Hd & Hy & -> & _).
    apply to_period_in_range; [done|]. by apply (Hmonth rec). }
  split_and!.
  - clear -Hnd Hsorted. induction Hsorted as [|q l Hl IH Hall]; [constructor|].
    apply NoDup_cons in Hnd as [Hq Hnd]. constructor; [by apply IH|].
    apply Forall_forall. intros x Hx.
    rewrite Forall_forall in Hall. specialize (Hall x Hx).
    assert (x ≠ q) by (by intros ->). lia.
  - done.
  - change 100%nat with (length EXPECTED_QTR_INDEX).
    apply submseteq_length, NoDup_submseteq; done.
  - split; [|by intros ->].
    intros Hcover. apply (StronglySorted_unique Z.le); [done| |].
    + apply StronglySorted_seqZ.
    + apply NoDup_Permutation; [done|apply expected_quarters_NoDup|].
      intros q. split; [apply Hrange|apply Hcover].
Qed.

Lemma loaded_index_is_canonical_witness :
  StronglySorted Z.lt (index examples.restated_table)
  ∧ (∀ q, q ∈ index examples.restated_table → q ∈ EXPECTED_QTR_INDEX)
  ∧ (length (index examples.restated_table) ≤ 100)%nat
  ∧ ((∀ q, q ∈ EXPECTED_QTR_INDEX → q ∈ index examples.restated_table)
     ↔ index examples.restated_table = EXPECTED_QTR_INDEX).
Proof.
  apply (loaded_index_is_canonical examples.restated_files "AAA" "income"
           examples.restated); [reflexivity|vm_compute; reflexivity|].
  intros rec t Hrec Hd. cbn in Hrec.
  repeat (apply elem_of_cons in Hrec as [-> |Hrec];
          [cbn in Hd; first [discriminate | injection Hd as <-; cbn; lia]|]).
  by apply elem_of_nil in Hrec.
Defined.

(** X8. A loaded table keeps exactly the columns of the CSV other than the
    date and the metadata columns (date, filing_date, currency_symbol,
    symbol) and a column named quarter, and every column has one cell per
    index label. *)
Theorem loaded_columns_without_metadata (fs : FileSystem)
    (ticker src_name : string) (raw : CsvFrame) (df : DataFrame) :
  read_csv fs src_name ticker = Some (inr raw) →
  _load_source fs ticker src_name = Returned (Some df) →
  (∀ col, is_Some (columns df !! col) ↔
          col ∈ csv_columns raw
          ∧ col ∉ ["quarter"; "date"; "filing_date"; "currency_symbol"; "symbol"])
  ∧ ∀ col series, columns df !! col = Some series →
                  length series = length (index df).
Proof.
  intros Hraw Hdf.
  destruct (load_source_index fs ticker src_name raw df Hraw Hdf) as [Hi Hc].
  rewrite Hi, Hc. split.
  - intros col. rewrite lookup_list_to_map_fun.
    case_decide as Hcol; rewrite list_elem_of_filter in Hcol.
    + split; [intros _; tauto|by eexists].
    + split; [by intros [? ?]|]. intros [? ?]. destruct Hcol. done.
  - intros col series. rewrite lookup_list_to_map_fun.
    case_decide; [|done]. intros [= <-]. by rewrite !length_fmap.
Qed.

Lemma loaded_columns_without_metadata_witness :
  (∀ col, is_Some (columns examples.restated_table !! col) ↔
          col ∈ csv_columns examples.restated
          ∧ col ∉ ["quarter"; "date"; "filing_date"; "currency_symbol"; "symbol"])
  ∧ ∀ col series, columns examples.restated_table !! col = Some series →
                  length series = length (index examples.restated_table).
Proof.
  apply (loaded_columns_without_metadata examples.restated_files "AAA" "income"
           examples.restated); [reflexivity|vm_compute; reflexivity].
Defined.

Lemma getitem_has_column (sources : gmap string (option DataFrame))
    (src_name col : string) (df : DataFrame) (s : Series) :
  getitem_source sources src_name = Returned df →
  getitem_column df col = Returned s →
  has_column sources src_name col.
Proof.
  unfold getitem_source, getitem_column, has_column.
  destruct (sources !! src_name) as [[df'|]|]; [|done|done]. intros [= ->].
  destruct (columns df !! col) as [values|] eqn:Hc; [|done]. intros _.
  by exists df, values.
Qed.

(** X9. [_compute_ratios] returns a frame exactly when each of the three
    tables is there and has every column the ratio definitions name;
    otherwise it raises, and what it raises is a KeyError (unknown source
    or column) or a TypeError (a source that is None). *)
Theorem compute_ratios_returns_iff (sources : gmap string (option DataFrame)) :
  ((∃ df, _compute_ratios sources = Returned df) ↔
   ∀ r, r ∈ RATIOS →
     has_column sources (numerator_src r) (numerator_col r)
     ∧ has_column sources (denominator_src r) (denominator_col r))
  ∧ ∀ e, _compute_ratios sources = Raised e →
         (∃ key, e = KeyError key) ∨ (∃ msg, e = TypeError msg).
Proof.
  split; [split|].
  - intros [df Hdf] r Hr. unfold _compute_ratios in Hdf.
    destruct (compute_ratio_columns_spec _ _ _ _ Hdf) as (_ & _ & Hcols).
    destruct (Hcols RATIOS_names_NoDup r Hr)
      as (num_df & num & den_df & den & H1 & H2 & H3 & H4 & _).
    split; eapply getitem_has_column; eassumption.
  - apply compute_ratio_columns_returns.
  - apply compute_ratio_columns_raises.
Qed.

(** X10. The frame [_compute_ratios] returns has the 100 expected quarters
    as its index and the seven ratios as its only columns, each with 100
    cells, whatever quarters the source tables have; outside the expected
    quarters it holds nothing. *)
Theorem ratio_frame_shape (sources : gmap string (option DataFrame))
    (df : DataFrame) :
  _compute_ratios sources = Returned df →
  index df = EXPECTED_QTR_INDEX
  ∧ (∀ col, is_Some (columns df !! col) ↔ col ∈ RATIO_NAMES)
  ∧ (∀ col series, columns df !! col = Some series → length series = 100%nat)
  ∧ ∀ col q, col ∈ RATIO_NAMES → q ∉ EXPECTED_QTR_INDEX →
             loc df q col = Some None.
Proof.
  intros Hdf. destruct (compute_ratios_shape sources df Hdf) as [Hi Hcols].
  split_and!; [done| | |].
  - intros col. specialize (Hcols col). case_decide.
    + destruct Hcols as (series & -> & _). split; [done|by eexists].
    + rewrite Hcols. split; [by intros [? ?]|done].
  - intros col series Hcol. specialize (Hcols col). case_decide.
    + destruct Hcols as (series' & Hs & Hl). rewrite Hs in Hcol.
      injection Hcol as <-. rewrite Hl. vm_compute. reflexivity.
    + congruence.
  - intros col q Hcol Hq. specialize (Hcols col).
    rewrite decide_True in Hcols by done. destruct Hcols as (series & Hs & Hl).
    unfold loc. rewrite Hs. cbn. f_equal. apply series_get_not_elem.
    rewrite Hi. rewrite fst_zip by lia. done.
Qed.

Lemma ratio_frame_shape_witness :
  ∃ df, _compute_ratios examples.small_sources = Returned df
  ∧ index df = EXPECTED_QTR_INDEX
  ∧ (∀ col, is_Some (columns df !! col) ↔ col ∈ RATIO_NAMES)
  ∧ (∀ col series, columns df !! col = Some series → length series = 100%nat)
  ∧ ∀ col q, col ∈ RATIO_NAMES → q ∉ EXPECTED_QTR_INDEX →
             loc df q col = Some None.
Proof.
  destruct (_compute_ratios examples.small_sources) as [df|e] eqn:Hdf;
    [|vm_compute in Hdf; discriminate].
  exists df. split; [reflexivity|].
  exact (ratio_frame_shape examples.small_sources df Hdf).
Defined.

Lemma clip_is_None (lower upper x : cell) :
  clip lower upper x = None ↔ x = None.
Proof.
  unfold clip. destruct x as [v|]; [|done].
  destruct lower as [l|], upper as [u|];
    repeat (destruct (Qltb _ _)); split; done.
Qed.

(** X11. Winsorizing leaves the frame of the panel alone: the ticker and
    quarter columns and every column that is no ratio stay as they are, no
    column comes or goes, every column keeps its length, and a cell is NaN
    afterwards exactly when it was NaN before. *)
Theorem winsorize_keeps_frame (panel : Panel Q) :
  p_ticker (winsorize_panel panel) = p_ticker panel
  ∧ p_quarter (winsorize_panel panel) = p_quarter panel
  ∧ (∀ col, col ∉ RATIO_NAMES →
            p_columns (winsorize_panel panel) !! col = p_columns panel !! col)
  ∧ (∀ col, is_Some (p_columns (winsorize_panel panel) !! col)
            ↔ is_Some (p_columns panel !! col))
  ∧ ∀ col before after,
      p_columns panel !! col = Some before →
      p_columns (winsorize_panel panel) !! col = Some after →
      length after = length before
      ∧ ∀ i, after !! i = Some None ↔ before !! i = Some None.
Proof.
  destruct (winsorize_panel_spec panel) as (Ht & Hq & Hcols).
  split_and!; [done|done| | |].
  - intros col Hcol. rewrite Hcols. by rewrite decide_False.
  - intros col. rewrite Hcols. case_decide; [|done].
    by rewrite fmap_is_Some.
  - intros col before after Hb. rewrite Hcols, Hb. case_decide.
    + cbn. intros [= <-]. unfold _clip_col. rewrite length_fmap. split; [done|].
      intros i. rewrite list_lookup_fmap.
      destruct (before !! i) as [x|]; cbn; [|done].
      split; intros [= Hnan]; f_equal.
      * by apply clip_is_None in Hnan.
      * by apply clip_is_None.
    + by intros [= <-].
Qed.

Lemma clip_mono (x y : Q) (lower upper : cell) :
  (∀ l u, lower = Some l → upper = Some u → (l <= u)%Q) →
  (x <= y)%Q →
  ∃ x' y', clip lower upper (Some x) = Some x'
           ∧ clip lower upper (Some y) = Some y' ∧ (x' <= y')%Q.
Proof.
  intros Hlu Hxy. unfold clip.
  destruct lower as [lo|], upper as [up|];
    try (specialize (Hlu lo up eq_refl eq_refl));
    repeat match goal with
    | |- context [Qltb ?a ?b] =>
      let H := fresh in destruct (Qltb a b) eqn:H;
      [apply Qltb_true in H|apply Qltb_false in H]
    end;
    eexists _, _; (split; [reflexivity|split; [reflexivity|]]); Lqa.lra.
Qed.

(** X12. Winsorizing a ratio column never reverses the order of two of its
    values: if one value is at most another before, it is at most the other
    afterwards. *)
Theorem winsorize_keeps_order (panel : Panel Q) (col : string)
    (before after : list cell) (i j : nat) (x y : Q) :
  p_columns panel !! col = Some before →
  p_columns (winsorize_panel panel) !! col = Some after →
  before !! i = Some (Some x) → before !! j = Some (Some y) → (x <= y)%Q →
  ∃ x' y', after !! i = Some (Some x') ∧ after !! j = Some (Some y')
           ∧ (x' <= y')%Q.
Proof.
  intros Hb Ha Hx Hy Hxy.
  destruct (winsorize_panel_spec panel) as (_ & _ & Hcols).
  rewrite Hcols, Hb in Ha. case_decide.
  - cbn in Ha. injection Ha as <-. unfold _clip_col.
    destruct (clip_mono x y (quantile before (1 # 100))
                (quantile before (99 # 100))) as (x' & y' & Hx' & Hy' & Hle).
    + intros l u Hl Hu.
      by apply (quantile_order before (1 # 100) (99 # 100) l u).
    + done.
    + exists x', y'. rewrite !list_lookup_fmap, Hx, Hy.
      cbn [fmap option_fmap option_map]. by rewrite Hx', Hy'.
  - injection Ha as <-. exists x, y. done.
Qed.

Lemma winsorize_keeps_order_witness :
  let panel := {| p_ticker := ["AAA"; "BBB"];
                  p_quarter := ["2000Q1"; "2000Q1"];
                  p_columns := {[ "ROA" := [Some 1%Q; Some 2%Q] ]} |} in
  ∃ after x' y',
    p_columns (winsorize_panel panel) !! "ROA" = Some after
    ∧ after !! 0%nat = Some (Some x') ∧ after !! 1%nat = Some (Some y')
    ∧ (x' <= y')%Q.
Proof.
  intros panel.
  destruct (p_columns (winsorize_panel panel) !! "ROA")
    as [after|] eqn:Ha; [|vm_compute in Ha; discriminate].
  destruct (winsorize_keeps_order panel "ROA" [Some 1%Q; Some 2%Q] after 0 1 1 2)
    as (x' & y' & H); [reflexivity|exact Ha|reflexivity|reflexivity
                       |vm_compute; discriminate|].
  by exists after, x', y'.
Defined.

Lemma StronglySorted_filter_list {A : Type} (R : relation A) (P : A → Prop)
    `{∀ x, Decision (P x)} (l : list A) :
  StronglySorted R l → StronglySorted R (filter P l).
Proof.
  induction 1 as [|x l Hl IH Hall]; [constructor|].
  rewrite filter_cons. case_decide; [|done].
  constructor; [done|]. apply Forall_forall. intros y [_ Hy]%list_elem_of_filter.
  rewrite Forall_forall in Hall. by apply Hall.
Qed.

Lemma survivors_sorted (fs : FileSystem) : StronglySorted String.le (survivors fs).
Proof.
  unfold survivors, filter_sectors, get_ticker_universe.
  do 2 apply StronglySorted_filter_list. apply sorted_spec.
Qed.

(** X13. The rows of the panel come company by company: the surviving
    tickers in ascending order, each with its 100 rows, whose quarter labels
    run from 2000Q1 to 2024Q4; the panel has 100 rows per surviving
    ticker. *)
Theorem panel_rows_in_order (fs : FileSystem) (panel : Panel Q) :
  build_ratio_panel fs = Returned panel →
  p_ticker panel = survivors fs ≫= replicate 100
  ∧ p_quarter panel = survivors fs ≫= (λ _, period_str <$> EXPECTED_QTR_INDEX)
  ∧ StronglySorted String.le (survivors fs)
  ∧ NoDup (survivors fs)
  ∧ length (p_ticker panel) = (100 * length (survivors fs))%nat.
Proof.
  intros Hbuild.
  destruct (build_ratio_panel_cases fs)
    as [(e & t0 & He & _)|[(_ & msg & He)|(Hne & all_ratios & panel' & Hp & Hfst
          & Hall & Ht & Hq & _)]]; try congruence.
  rewrite Hbuild in Hp. injection Hp as <-.
  assert (∀ tf, tf ∈ all_ratios → index tf.2 = EXPECTED_QTR_INDEX) as Hidx.
  { intros tf Htf. rewrite Forall_forall in Hall.
    exact (proj1 (compute_ratios_shape _ _ (Hall tf Htf))). }
  assert (p_ticker panel = survivors fs ≫= replicate 100) as Htick.
  { rewrite Ht, <- Hfst. unfold concat. cbn [p_ticker].
    rewrite list_fmap_bind. apply bind_ext_in. intros tf Htf.
    cbn. by rewrite (Hidx tf Htf). }
  split_and!.
  - done.
  - rewrite Hq, <- Hfst. unfold concat. cbn [p_quarter].
    rewrite list_fmap_bind. apply bind_ext_in. intros tf Htf.
    cbn. by rewrite (Hidx tf Htf).
  - apply survivors_sorted.
  - apply survivors_NoDup.
  - rewrite Htick. generalize (survivors fs). intros l.
    induction l as [|t l IH]; [done|].
    rewrite bind_cons, length_app, IH, length_replicate. cbn [length]. lia.
Qed.

Lemma panel_rows_in_order_witness :
  p_ticker examples.three_companies_panel
  = survivors examples.three_companies ≫= replicate 100
  ∧ p_quarter examples.three_companies_panel
    = survivors examples.three_companies
        ≫= (λ _, period_str <$> EXPECTED_QTR_INDEX)
  ∧ StronglySorted String.le (survivors examples.three_companies)
  ∧ NoDup (survivors examples.three_companies)
  ∧ length (p_ticker examples.three_companies_panel)
    = (100 * length (survivors examples.three_companies))%nat.
Proof.
  apply (panel_rows_in_order examples.three_companies).
  exact three_companies_build.
Defined.

Lemma is_survivor_iff (fs : FileSystem) (t : string) :
  is_survivor fs t = true ↔
  ∀ src_name, src_name ∈ ["income"; "balance"; "cashflow"] →
    ∃ df, _load_source fs t src_name = Returned (Some df)
          ∧ ∀ q, q ∈ EXPECTED_QTR_INDEX → q ∈ index df.
Proof.
  split.
  - intros [Hload Hcomplete]%is_survivor_loaded src_name Hsrc.
    pose proof Hload as (i & b & c & Hi & Hb & Hc & Hdict)%load_sources_returned.
    rewrite is_complete_spec in Hcomplete.
    assert (∃ df, _load_source fs t src_name = Returned df) as [df Hdf].
    { set_unfold in Hsrc. destruct Hsrc as [ -> | [ -> | [ -> | [] ] ] ];
        by eexists. }
    pose proof (load_sources_lookup fs t src_name _ df Hload Hsrc Hdf) as Hlook.
    destruct (Hcomplete src_name df Hlook) as (table & -> & Hall).
    by exists table.
  - intros Hall.
    destruct (Hall "income") as (i & Hi & Hqi); [by left|].
    destruct (Hall "balance") as (b & Hb & Hqb); [right; by left|].
    destruct (Hall "cashflow") as (c & Hc & Hqc); [do 2 right; by left|].
    unfold is_survivor, load_sources. rewrite Hi, Hb, Hc.
    cbn [mbind result_bind]. apply is_complete_spec.
    intros src_name df Hlook.
    apply lookup_insert_Some in Hlook as [[<- <-]|[_ Hlook]]; [by exists i|].
    apply lookup_insert_Some in Hlook as [[<- <-]|[_ Hlook]]; [by exists b|].
    apply lookup_singleton_Some in Hlook as [<- <-]. by exists c.
Qed.

(** X14. A ticker has rows in the panel exactly when it has a CSV in each
    of the three statement folders, its sector (if a profile gives one) is
    not an excluded one, and each of its three statements loads to a table
    that has every quarter from 2000Q1 to 2024Q4. *)
Theorem panel_ticker_iff (fs : FileSystem) (panel : Panel Q) (t : string) :
  build_ratio_panel fs = Returned panel →
  t ∈ p_ticker panel ↔
    ((t ∈ csv_stems fs "income" ∧ t ∈ csv_stems fs "balance"
      ∧ t ∈ csv_stems fs "cashflow")
     ∧ (default "" (load_sector_map fs !! t) ∉ EXCLUDED_SECTORS)
     ∧ ∀ src_name, src_name ∈ ["income"; "balance"; "cashflow"] →
         ∃ df, _load_source fs t src_name = Returned (Some df)
               ∧ ∀ q, q ∈ EXPECTED_QTR_INDEX → q ∈ index df).
Proof.
  intros Hbuild. rewrite (build_returns_survivors fs panel Hbuild).
  unfold survivors, filter_sectors, get_ticker_universe.
  rewrite !list_elem_of_filter.
  destruct (sorted_spec (_csv_tickers fs "income" ∩ _csv_tickers fs "balance"
                          ∩ _csv_tickers fs "cashflow")) as (_ & _ & ->).
  unfold _csv_tickers.
  rewrite !elem_of_intersection, !elem_of_list_to_set.
  rewrite is_survivor_iff. tauto.
Qed.

Lemma panel_ticker_iff_witness :
  "AAA" ∈ p_ticker examples.three_companies_panel ↔
    (("AAA" ∈ csv_stems examples.three_companies "income"
      ∧ "AAA" ∈ csv_stems examples.three_companies "balance"
      ∧ "AAA" ∈ csv_stems examples.three_companies "cashflow")
     ∧ (default "" (load_sector_map examples.three_companies !! "AAA")
          ∉ EXCLUDED_SECTORS)
     ∧ ∀ src_name, src_name ∈ ["income"; "balance"; "cashflow"] →
         ∃ df, _load_source examples.three_companies "AAA" src_name
               = Returned (Some df)
               ∧ ∀ q, q ∈ EXPECTED_QTR_INDEX → q ∈ index df).
Proof.
  apply (panel_ticker_iff examples.three_companies).
  exact three_companies_build.
Defined.

(** The ratio column [_compute_ratios] computes, cell by cell. *)
Lemma compute_ratios_column (sources : gmap string (option DataFrame))
    (df : DataFrame) (r : RatioDef) :
  _compute_ratios sources = Returned df → r ∈ RATIOS →
  columns df !! name r
  = Some ((λ q, cell_div
                  (source_value sources (numerator_src r) (numerator_col r) q)
                  (zero_to_nan
                     (source_value sources (denominator_src r)
                        (denominator_col r) q)))
            <$> EXPECTED_QTR_INDEX).
Proof.
  intros Hdf Hr. unfold _compute_ratios in Hdf.
  apply compute_ratio_columns_spec in Hdf as (_ & _ & Hmine).
  destruct (Hmine RATIOS_names_NoDup r Hr)
    as (ndf & num & ddf & den & Hn1 & Hn2 & Hd1 & Hd2 & Hcol).
  cbn [index] in Hcol. rewrite Hcol. f_equal.
  apply list_fmap_ext. intros _ q _.
  rewrite series_get_truediv, series_get_replace_zero.
  unfold source_value. rewrite Hn1, Hd1. cbn [mbind result_bind].
  by rewrite Hn2, Hd2.
Qed.

(** X15. The panel in closed form: the column of a ratio is the pooled
    column, clipped to its own 1st and 99th percentile, where the pooled
    column runs through the surviving tickers in order and, for each,
    through the 100 expected quarters, with numerator / denominator of the
    quarter's statements (NaN for a zero or missing denominator or a
    missing numerator). *)
Theorem panel_column_closed_form (fs : FileSystem) (panel : Panel Q) :
  build_ratio_panel fs = Returned panel →
  ∀ r, r ∈ RATIOS →
    let pooled :=
      survivors fs ≫= (λ t,
        (λ q, cell_div
                (source_value (loaded_sources fs t)
                   (numerator_src r) (numerator_col r) q)
                (zero_to_nan
                   (source_value (loaded_sources fs t)
                      (denominator_src r) (denominator_col r) q)))
          <$> EXPECTED_QTR_INDEX) in
    p_columns panel !! name r
    = Some (clip (quantile pooled (1 # 100)) (quantile pooled (99 # 100))
              <$> pooled).
Proof.
  intros Hbuild r Hr pooled.
  destruct (build_ratio_panel_cases fs)
    as [(e & t0 & He & _)|[(_ & msg & He)|(Hne & all_ratios & panel' & Hp & Hfst
          & Hall & _ & _ & Hcols)]]; try congruence.
  rewrite Hbuild in Hp. injection Hp as <-.
  assert (name r ∈ RATIO_NAMES) as Hname.
  { rewrite RATIO_NAMES_fmap. by apply list_elem_of_fmap_2. }
  rewrite Hcols, decide_True by done.
  rewrite Forall_forall in Hall.
  assert (p_columns (concat all_ratios) !! name r = Some pooled) as ->; [|done].
  unfold concat. cbn [p_columns].
  apply lookup_set_to_map; [by intros y y' _ _|]. exists (name r). split.
  - apply elem_of_union_list.
    destruct all_ratios as [|tf rest]; [by rewrite <- Hfst in Hne|].
    exists (dom (columns tf.2)). split; [rewrite fmap_cons; by left|].
    apply elem_of_dom.
    by rewrite (compute_ratios_column _ _ r (Hall tf ltac:(left)) Hr).
  - f_equal. unfold pooled. rewrite <- Hfst, list_fmap_bind.
    apply bind_ext_in. intros tf Htf. cbn.
    by rewrite (compute_ratios_column _ _ r (Hall tf Htf) Hr).
Qed.

Lemma panel_column_closed_form_witness :
  ∃ r, r ∈ RATIOS ∧ name r = "ROA" ∧
    let pooled :=
      survivors examples.three_companies ≫= (λ t,
        (λ q, cell_div
                (source_value (loaded_sources examples.three_companies t)
                   (numerator_src r) (numerator_col r) q)
                (zero_to_nan
                   (source_value (loaded_sources examples.three_companies t)
                      (denominator_src r) (denominator_col r) q)))
          <$> EXPECTED_QTR_INDEX) in
    p_columns examples.three_companies_panel !! name r
    = Some (clip (quantile pooled (1 # 100)) (quantile pooled (99 # 100))
              <$> pooled).
Proof.
  eexists. split; [by left|]. split; [reflexivity|].
  apply (panel_column_closed_form examples.three_companies).
  - exact three_companies_build.
  - by left.
Defined.

Lemma load_sources_propagates (fs : FileSystem) (t src_name : string)
    (failure : read_failure) :
  src_name ∈ ["income"; "balance"; "cashflow"] →
  read_csv fs src_name t = Some (inl failure) →
  raises (load_sources fs t).
Proof.
  intros Hsrc Hread.
  assert (_load_source fs t src_name = Raised (read_exn failure)) as Hraise
    by (apply load_source_raises; by exists failure).
  unfold load_sources.
  destruct (_load_source fs t "income") as [i|e1] eqn:Hi;
    cbn [mbind result_bind]; [|by eexists].
  destruct (_load_source fs t "balance") as [b|e2] eqn:Hb;
    cbn [mbind result_bind]; [|by eexists].
  destruct (_load_source fs t "cashflow") as [c|e3] eqn:Hc;
    cbn [mbind result_bind]; [|by eexists].
  set_unfold in Hsrc. destruct Hsrc as [ -> | [ -> | [ -> | [] ] ] ]; congruence.
Qed.

Lemma collect_ratios_propagates (fs : FileSystem) (tickers : list string)
    (t : string) :
  t ∈ tickers → raises (load_sources fs t) → raises (collect_ratios fs tickers).
Proof.
  intros Hin [e He]. induction tickers as [|t' tickers IH];
    [by apply elem_of_nil in Hin|].
  rewrite collect_ratios_cons.
  destruct (decide (t' = t)) as [-> |Hne].
  { rewrite He. by eexists. }
  apply elem_of_cons in Hin as [-> |Hin]; [done|].
  destruct (IH Hin) as [e' He'].
  destruct (load_sources fs t') as [sources|]; cbn [mbind result_bind];
    [|by eexists].
  destruct (negb (_is_complete sources)); [by eexists|].
  destruct (_compute_ratios sources) as [df|]; cbn [mbind result_bind];
    [|by eexists].
  rewrite He'. by eexists.
Qed.

(** X23. A statement file for which [pd.read_csv] raises (a file of zero
    bytes: EmptyDataError) is not absent to [_load_source]: the call raises
    what [pd.read_csv] raises and returns no [None].  When the ticker
    passes the sector filter, [build_ratio_panel] raises and returns no
    panel, whatever other tickers survive, and what it raises is not its
    RuntimeError. *)
Theorem read_failure_is_fatal (fs : FileSystem) (t src_name : string)
    (failure : read_failure) :
  t ∈ filter_sectors (get_ticker_universe fs) (load_sector_map fs) →
  src_name ∈ ["income"; "balance"; "cashflow"] →
  read_csv fs src_name t = Some (inl failure) →
  _load_source fs t src_name = Raised (read_exn failure)
  ∧ raises (build_ratio_panel fs)
  ∧ ∀ msg, build_ratio_panel fs ≠ Raised (RuntimeError msg).
Proof.
  intros Ht Hsrc Hread.
  pose proof (load_sources_propagates fs t src_name failure Hsrc Hread) as Hload.
  split_and!.
  - apply load_source_raises. by exists failure.
  - destruct (collect_ratios_propagates fs _ t Ht Hload) as [e He].
    exists e. unfold build_ratio_panel. by rewrite He.
  - intros msg Hmsg.
    assert (∃ msg, build_ratio_panel fs = Raised (RuntimeError msg)) as Herr
      by (by exists msg).
    destruct (proj1 (runtime_error_iff_none_complete fs) Herr t Ht)
      as (sources & Hs & _).
    destruct Hload as [e He]. congruence.
Qed.

Lemma read_failure_is_fatal_witness :
  _load_source examples.with_empty_file "DDD" "income"
  = Raised (read_exn NoColumns)
  ∧ raises (build_ratio_panel examples.with_empty_file)
  ∧ ∀ msg, build_ratio_panel examples.with_empty_file
           ≠ Raised (RuntimeError msg).
Proof.
  apply (read_failure_is_fatal examples.with_empty_file "DDD" "income").
  - replace (filter_sectors (get_ticker_universe examples.with_empty_file)
               (load_sector_map examples.with_empty_file))
      with ["AAA"; "BBB"; "DDD"] by (vm_compute; reflexivity).
    do 2 right. by left.
  - by left.
  - reflexivity.
Defined.

End load_data_props.

(** * Further properties of the estimator *)

Module ar_model_props.
Import config ar_model ar_examples ar_model_spec.
Local Open Scope R_scope.

Lemma omap_zip_Some {A B : Type} (a : list A) (b : list B) :
  omap (λ yx : option A * option B,
          match yx with
          | (Some x, Some y) => Some (x, y)
          | _ => None
          end) (zip (Some <$> a) (Some <$> b))
  = zip a b.
Proof.
  revert b. induction a as [|x a IH]; intros [|y b]; [done..|].
  cbn. f_equal. apply IH.
Qed.

(** The pairs of the regression are each difference with the one before
    it: the mask drops the first place only. *)
Lemma regression_pairs_lagged (d : list R) :
  regression_pairs d = zip (drop 1 d) (take (length d - 1) d).
Proof.
  unfold regression_pairs, shift, AR_ORDER.
  rewrite length_fmap. cbn [replicate app].
  replace (drop 1 (take (length d) (None :: (Some <$> d))))
    with (Some <$> take (length d - 1) d).
  - rewrite <- fmap_drop. apply omap_zip_Some.
  - rewrite fmap_take. destruct d as [|x d]; [done|].
    cbn [length]. replace (S (length d) - 1)%nat with (length d) by lia. done.
Qed.

Lemma length_regression_pairs (d : list R) :
  length (regression_pairs d) = (length d - 1)%nat.
Proof.
  rewrite regression_pairs_lagged, length_zip, length_drop, length_take. lia.
Qed.

Lemma n_valid_cons (x : float) (series : list float) :
  n_valid (x :: series)
  = ((if x is Some _ then 1 else 0) + n_valid series)%nat.
Proof.
  unfold n_valid. rewrite filter_cons. destruct x as [x|].
  - by rewrite decide_True by (by eexists).
  - by rewrite decide_False by (by intros [? [=]]).
Qed.

Lemma valid_differences (prev : float) (series : list float) :
  (length (dropna (zip_with float_sub series (prev :: series)))
   ≤ n_valid series)%nat
  ∧ (prev = None → (1 ≤ n_valid series)%nat →
     (length (dropna (zip_with float_sub series (prev :: series)))
      < n_valid series)%nat).
Proof.
  revert prev. induction series as [|x series IH]; intros prev.
  { split; [done|]. unfold n_valid. cbn. lia. }
  destruct (IH x) as [IH1 IH2]. rewrite n_valid_cons.
  cbn [zip_with]. unfold dropna in *.
  destruct x as [x|], prev as [p|]; cbn [float_sub omap list_omap length].
  - split; [lia|done].
  - split; [lia|]. intros _ _. lia.
  - split; [lia|done].
  - split; [lia|]. intros _ Hv. apply IH2; [done|lia].
Qed.

Lemma differences_below_valid (series : list float) :
  (1 ≤ n_valid series)%nat →
  (length (dropna (diff DIFF_ORDER series)) + 1 ≤ n_valid series)%nat.
Proof.
  intros Hv. unfold diff, DIFF_ORDER. cbn [replicate app].
  destruct (valid_differences None series) as [_ Hlt]. specialize (Hlt eq_refl Hv).
  lia.
Qed.

Lemma fit_returned_fields (sm : statsmodels) (series : list float) (fit : Fit) :
  _fit_ar1_on_diff sm series = Returned (Some fit) →
  let d := dropna (diff DIFF_ORDER series) in
  (length d <? AR_ORDER + 3)%nat = false
  ∧ float_lt (std 1 d) (Some (1 / 10 ^ 15)) = false
  ∧ (length (regression_pairs d) <? AR_ORDER + 3)%nat = false
  ∧ sigma_diff fit = std 1 d
  ∧ n_obs fit = length (regression_pairs d).
Proof.
  intros Hfit d. unfold _fit_ar1_on_diff in Hfit. fold d in Hfit.
  destruct (length d <? AR_ORDER + 3)%nat; [done|].
  destruct (float_lt _ _); [done|].
  destruct (_ <? _)%nat; [done|].
  destruct (OLS_fit sm _ _) as [model|]; [|done].
  destruct (getitem (params model) 1) as [v1|]; [|done]. simpl in Hfit.
  destruct (getitem (bse model) 1) as [v2|]; [|done]. simpl in Hfit.
  destruct (getitem (pvalues model) 1) as [v3|]; [|done]. simpl in Hfit.
  destruct (getitem (params model) 0) as [v4|]; [|done]. simpl in Hfit.
  injection Hfit as <-. done.
Qed.

(** X16. Every estimate [_fit_ar1_on_diff] returns rests on at least five
    differences: its n_obs is the number of non-missing differences less
    one and at least 4, its sigma_diff is the sample standard deviation of
    the differences, a number not below 1e-15, and the series has at least
    two more non-missing values than n_obs. *)
Theorem fit_observations (sm : statsmodels) (series : list float) (fit : Fit) :
  _fit_ar1_on_diff sm series = Returned (Some fit) →
  let d := dropna (diff DIFF_ORDER series) in
  n_obs fit = (length d - 1)%nat
  ∧ (4 ≤ n_obs fit)%nat
  ∧ (∃ s, sigma_diff fit = Some s ∧ std 1 d = Some s ∧ 1 / 10 ^ 15 <= s)
  ∧ (n_obs fit + 2 ≤ n_valid series)%nat.
Proof.
  intros Hfit d.
  destruct (fit_returned_fields sm series fit Hfit) as (Hd & Hs & Hn & Hsig & Hobs).
  fold d in Hd, Hs, Hn, Hsig, Hobs.
  rewrite length_regression_pairs in Hobs, Hn.
  apply Nat.ltb_ge in Hd, Hn. unfold AR_ORDER in Hd, Hn.
  split_and!; [done|lia| |].
  - rewrite Hsig. unfold std in *.
    destruct (length d <=? 1)%nat eqn:Hle; [apply Nat.leb_le in Hle; lia|].
    eexists. split; [done|]. split; [done|].
    cbn [float_lt] in Hs. apply bool_decide_eq_false in Hs. lra.
  - assert (1 ≤ n_valid series)%nat as Hv.
    { destruct (n_valid series) as [|n] eqn:Hz; [|lia].
      destruct (valid_differences None series) as [Hle _].
      unfold d, diff, DIFF_ORDER in Hd. cbn [replicate app] in Hd. lia. }
    pose proof (differences_below_valid series Hv). fold d in H. lia.
Qed.

Lemma fit_observations_witness :
  let d := dropna (diff DIFF_ORDER roa_values) in
  n_obs example_fit = (length d - 1)%nat
  ∧ (4 ≤ n_obs example_fit)%nat
  ∧ (∃ s, sigma_diff example_fit = Some s ∧ std 1 d = Some s ∧ 1 / 10 ^ 15 <= s)
  ∧ (n_obs example_fit + 2 ≤ n_valid roa_values)%nat.
Proof.
  apply (fit_observations fixed_fit roa_values example_fit).
  exact example_fit_returned.
Defined.

Lemma getitem_raises (a : list float) (i : nat) :
  (∃ e, getitem a i = Raised e) ↔ (length a ≤ i)%nat.
Proof.
  unfold getitem. destruct (a !! i) as [v|] eqn:Hi.
  - apply lookup_lt_Some in Hi. split; [by intros [? ?]|lia].
  - apply lookup_ge_None in Hi. split; [done|by eexists].
Qed.

Lemma getitem_IndexError (a : list float) (i : nat) (e : exn) :
  getitem a i = Raised e → ∃ msg, e = IndexError msg.
Proof. unfold getitem. destruct (a !! i); [done|]. intros [= <-]. by eexists. Qed.

(** X17. [_fit_ar1_on_diff] raises exactly when no skip condition holds and
    the fitted model reports fewer than two parameters, standard errors or
    p-values; what it raises then is an IndexError (reading the slope at
    place 1 lies outside the try block). *)
Theorem fit_raises_iff_short_model (sm : statsmodels) (series : list float) :
  let d := dropna (diff DIFF_ORDER series) in
  let yx := regression_pairs d in
  ((∃ e, _fit_ar1_on_diff sm series = Raised e) ↔
   (AR_ORDER + 3 ≤ length d)%nat
   ∧ float_lt (std 1 d) (Some (1 / 10 ^ 15)) = false
   ∧ (AR_ORDER + 3 ≤ length yx)%nat
   ∧ ∃ model, OLS_fit sm yx.*1 (add_constant sm yx.*2) = Some model
       ∧ ((length (params model) < 2)%nat ∨ (length (bse model) < 2)%nat
          ∨ (length (pvalues model) < 2)%nat))
  ∧ ∀ e, _fit_ar1_on_diff sm series = Raised e → ∃ msg, e = IndexError msg.
Proof.
  intros d yx. unfold _fit_ar1_on_diff. fold d. fold yx.
  destruct (length d <? AR_ORDER + 3)%nat eqn:Hd.
  { apply Nat.ltb_lt in Hd. split; [|done].
    split; [by intros [? ?]|]. intros (? & _). lia. }
  apply Nat.ltb_ge in Hd.
  destruct (float_lt (std 1 d) (Some (1 / 10 ^ 15))) eqn:Hs.
  { split; [|done]. split; [by intros [? ?]|]. by intros (_ & ? & _). }
  destruct (length yx <? AR_ORDER + 3)%nat eqn:Hn.
  { apply Nat.ltb_lt in Hn. split; [|done].
    split; [by intros [? ?]|]. intros (_ & _ & ? & _). lia. }
  apply Nat.ltb_ge in Hn.
  destruct (OLS_fit sm yx.*1 (add_constant sm yx.*2)) as [model|] eqn:Hols.
  2:{ split; [|done]. split; [by intros [? ?]|].
      by intros (_ & _ & _ & model & ? & _). }
  pose proof (getitem_raises (params model) 1) as Hp1.
  pose proof (getitem_raises (bse model) 1) as Hb1.
  pose proof (getitem_raises (pvalues model) 1) as Hv1.
  pose proof (getitem_raises (params model) 0) as Hp0.
  pose proof (getitem_IndexError (params model) 1) as Ip1.
  pose proof (getitem_IndexError (bse model) 1) as Ib1.
  pose proof (getitem_IndexError (pvalues model) 1) as Iv1.
  pose proof (getitem_IndexError (params model) 0) as Ip0.
  destruct (getitem (params model) 1) as [v1|e1]; cbn [mbind result_bind].
  2:{ split; [|intros e [= <-]; by apply Ip1].
      split; [|by eexists]. intros _. split_and!; [done..|].
      exists model. split; [done|]. left.
      assert (length (params model) ≤ 1)%nat by (apply Hp1; by eexists). lia. }
  destruct (getitem (bse model) 1) as [v2|e2]; cbn [mbind result_bind].
  2:{ split; [|intros e [= <-]; by apply Ib1].
      split; [|by eexists]. intros _. split_and!; [done..|].
      exists model. split; [done|]. right. left.
      assert (length (bse model) ≤ 1)%nat by (apply Hb1; by eexists). lia. }
  destruct (getitem (pvalues model) 1) as [v3|e3]; cbn [mbind result_bind].
  2:{ split; [|intros e [= <-]; by apply Iv1].
      split; [|by eexists]. intros _. split_and!; [done..|].
      exists model. split; [done|]. right. right.
      assert (length (pvalues model) ≤ 1)%nat by (apply Hv1; by eexists). lia. }
  assert (¬ (length (params model) ≤ 1)%nat) as Hlp
    by (intros H%Hp1; by destruct H).
  assert (¬ (length (bse model) ≤ 1)%nat) as Hlb
    by (intros H%Hb1; by destruct H).
  assert (¬ (length (pvalues model) ≤ 1)%nat) as Hlv
    by (intros H%Hv1; by destruct H).
  destruct (getitem (params model) 0) as [v4|e4]; cbn [mbind result_bind].
  2:{ exfalso. assert (length (params model) ≤ 0)%nat by (apply Hp0; by eexists).
      lia. }
  split; [|done]. split; [by intros [? ?]|].
  intros (_ & _ & _ & model' & [= <-] & Hshort). lia.
Qed.


(** With a model of one parameter the estimator of the example series
    raises. *)
Example short_model_raises :
  ∃ msg, _fit_ar1_on_diff intercept_only roa_values = Raised (IndexError msg).
Proof.
  unfold _fit_ar1_on_diff. cbv zeta. rewrite example_sigma_not_degenerate.
  by eexists.
Qed.

Lemma fit_raises_IndexError (sm : statsmodels) (series : list float) (e : exn) :
  _fit_ar1_on_diff sm series = Raised e → ∃ msg, e = IndexError msg.
Proof.
  unfold _fit_ar1_on_diff.
  destruct (_ <? _)%nat; [done|].
  destruct (float_lt _ _); [done|].
  destruct (_ <? _)%nat; [done|].
  destruct (OLS_fit sm _ _) as [model|]; [|done].
  destruct (getitem (params model) 1) as [v1|e1] eqn:H1; cbn [mbind result_bind];
    [|intros [= <-]; by apply getitem_IndexError in H1].
  destruct (getitem (bse model) 1) as [v2|e2] eqn:H2; cbn [mbind result_bind];
    [|intros [= <-]; by apply getitem_IndexError in H2].
  destruct (getitem (pvalues model) 1) as [v3|e3] eqn:H3; cbn [mbind result_bind];
    [|intros [= <-]; by apply getitem_IndexError in H3].
  destruct (getitem (params model) 0) as [v4|e4] eqn:H4; cbn [mbind result_bind];
    [done|intros [= <-]; by apply getitem_IndexError in H4].
Qed.

Lemma skips_cases (sm : statsmodels) (series : list float) :
  skips sm series →
  (n_valid series <? AR_ORDER + DIFF_ORDER + 3)%nat = true
  ∨ _fit_ar1_on_diff sm series = Returned None.
Proof.
  intros [Hv|Hskip].
  - left. by apply Nat.ltb_lt.
  - right. by apply fit_skips.
Qed.

Lemma estimate_ratios_all_skipped (sm : statsmodels) (panel : Panel R)
    (ticker : string) (ratios : list string) :
  (∀ ratio, ratio ∈ ratios →
     ∃ series, ticker_series panel ticker ratio = Returned series
               ∧ skips sm series) →
  estimate_ratios sm panel ticker ratios = Returned [].
Proof.
  induction ratios as [|ratio ratios IH]; intros Hall; [done|].
  rewrite estimate_ratios_cons.
  destruct (Hall ratio) as (series & -> & Hskip); [by left|].
  cbn [mbind result_bind].
  assert (estimate_ratios sm panel ticker ratios = Returned []) as Hrest
    by (apply IH; intros r Hr; apply Hall; by right).
  destruct (skips_cases sm series Hskip) as [-> | Hnone]; [done|].
  destruct (_ <? _)%nat; [done|]. by rewrite Hnone.
Qed.

Lemma estimate_ratios_none (sm : statsmodels) (panel : Panel R)
    (ticker : string) (ratios : list string) :
  estimate_ratios sm panel ticker ratios = Returned [] →
  ∀ ratio, ratio ∈ ratios →
    ∃ series, ticker_series panel ticker ratio = Returned series
              ∧ skips sm series.
Proof.
  induction ratios as [|r ratios IH]; [intros _ ratio Hin; by apply elem_of_nil in Hin|].
  rewrite estimate_ratios_cons.
  destruct (ticker_series panel ticker r) as [s|] eqn:Hs; [|done].
  cbn [mbind result_bind].
  destruct (n_valid s <? AR_ORDER + DIFF_ORDER + 3)%nat eqn:Hvalid.
  { apply Nat.ltb_lt in Hvalid.
    intros Hrest ratio [-> |Hin]%elem_of_cons; [|by apply IH].
    exists s. split; [done|]. by left. }
  destruct (_fit_ar1_on_diff sm s) as [[fit|]|] eqn:Hfit; [| |done];
    cbn [mbind result_bind].
  - destruct (estimate_ratios sm panel ticker ratios) as [rest|]; done.
  - intros Hrest ratio [-> |Hin]%elem_of_cons; [|by apply IH].
    exists s. split; [done|]. by apply fit_none_skips.
Qed.

Lemma estimate_ratios_raises (sm : statsmodels) (panel : Panel R)
    (ticker : string) (ratios : list string) (e : exn) :
  estimate_ratios sm panel ticker ratios = Raised e →
  (∃ ratio, ratio ∈ ratios ∧ p_columns panel !! ratio = None
            ∧ e = KeyError ratio)
  ∨ (∃ msg, e = IndexError msg).
Proof.
  induction ratios as [|r ratios IH]; [done|].
  assert (estimate_ratios sm panel ticker ratios = Raised e →
          (∃ ratio, ratio ∈ r :: ratios ∧ p_columns panel !! ratio = None
                    ∧ e = KeyError ratio)
          ∨ (∃ msg, e = IndexError msg)) as IH'.
  { intros [(ratio & ? & ? & ?)|?]%IH; [left|by right].
    exists ratio. split; [by right|done]. }
  rewrite estimate_ratios_cons.
  destruct (ticker_series panel ticker r) as [s|e'] eqn:Hs.
  2:{ cbn [mbind result_bind]. intros [= <-]. left. exists r.
      unfold ticker_series in Hs.
      destruct (p_columns panel !! r); [done|]. injection Hs as <-.
      split; [by left|done]. }
  cbn [mbind result_bind].
  destruct (n_valid s <? AR_ORDER + DIFF_ORDER + 3)%nat; [done|].
  destruct (_fit_ar1_on_diff sm s) as [[fit|]|e'] eqn:Hfit;
    cbn [mbind result_bind]; [|done|].
  - destruct (estimate_ratios sm panel ticker ratios) as [rest|]; [done|].
    cbn [mbind result_bind]. intros [= <-]. by apply IH'.
  - intros [= <-]. right. by apply (fit_raises_IndexError sm s).
Qed.

Lemma estimate_tickers_all_skipped (sm : statsmodels) (panel : Panel R)
    (tickers : list string) :
  (∀ ticker ratio, ticker ∈ tickers → ratio ∈ RATIO_NAMES →
     ∃ series, ticker_series panel ticker ratio = Returned series
               ∧ skips sm series) →
  estimate_tickers sm panel tickers = Returned [].
Proof.
  induction tickers as [|t tickers IH]; intros Hall; [done|].
  rewrite estimate_tickers_cons.
  rewrite (estimate_ratios_all_skipped sm panel t RATIO_NAMES)
    by (intros ratio Hr; apply Hall; [by left|done]).
  cbn [mbind result_bind].
  rewrite IH by (intros ticker ratio Ht; apply Hall; by right). done.
Qed.

Lemma estimate_tickers_none (sm : statsmodels) (panel : Panel R)
    (tickers : list string) :
  estimate_tickers sm panel tickers = Returned [] →
  ∀ ticker ratio, ticker ∈ tickers → ratio ∈ RATIO_NAMES →
    ∃ series, ticker_series panel ticker ratio = Returned series
              ∧ skips sm series.
Proof.
  induction tickers as [|t tickers IH];
    [intros _ ticker ratio Hin; by apply elem_of_nil in Hin|].
  rewrite estimate_tickers_cons.
  destruct (estimate_ratios sm panel t RATIO_NAMES) as [here|] eqn:Hhere;
    [|done]. cbn [mbind result_bind].
  destruct (estimate_tickers sm panel tickers) as [rest|]; [|done].
  cbn [mbind result_bind]. intros [= [-> ->]%app_nil].
  intros ticker ratio [-> |Hin]%elem_of_cons Hratio.
  - by apply (estimate_ratios_none sm panel t RATIO_NAMES).
  - by apply IH.
Qed.

Lemma estimate_tickers_raises (sm : statsmodels) (panel : Panel R)
    (tickers : list string) (e : exn) :
  estimate_tickers sm panel tickers = Raised e →
  (∃ ratio, ratio ∈ RATIO_NAMES ∧ p_columns panel !! ratio = None
            ∧ e = KeyError ratio)
  ∨ (∃ msg, e = IndexError msg).
Proof.
  induction tickers as [|t tickers IH]; [done|].
  rewrite estimate_tickers_cons.
  destruct (estimate_ratios sm panel t RATIO_NAMES) as [here|e'] eqn:Hhere;
    cbn [mbind result_bind].
  - destruct (estimate_tickers sm panel tickers) as [rest|]; [done|].
    cbn [mbind result_bind]. intros [= <-]. by apply IH.
  - intros [= <-]. by apply (estimate_ratios_raises sm panel t RATIO_NAMES).
Qed.

(** X18. [estimate_ar_features] raises KeyError for the key ticker exactly
    when every pair of a ticker of the panel and a ratio is skipped (as for
    a panel with no row); any other error it raises is the KeyError of a
    ratio column the panel lacks or an IndexError out of the estimator of
    one series. *)
Theorem key_error_iff_all_skipped (sm : statsmodels) (panel : Panel R) :
  (estimate_ar_features sm panel = Raised (KeyError "ticker") ↔
   ∀ ticker ratio, ticker ∈ p_ticker panel → ratio ∈ RATIO_NAMES →
     ∃ series, ticker_series panel ticker ratio = Returned series
               ∧ skips sm series)
  ∧ ∀ e, estimate_ar_features sm panel = Raised e →
      e = KeyError "ticker"
      ∨ (∃ ratio, ratio ∈ RATIO_NAMES ∧ p_columns panel !! ratio = None
                  ∧ e = KeyError ratio)
      ∨ (∃ msg, e = IndexError msg).
Proof.
  assert (∀ t, t ∈ merge_sort String.le (remove_dups (p_ticker panel))
               ↔ t ∈ p_ticker panel) as Hmem.
  { intros t. by rewrite merge_sort_Permutation, elem_of_remove_dups. }
  unfold estimate_ar_features.
  destruct (estimate_tickers sm panel _) as [results|e'] eqn:Hrun;
    cbn [mbind result_bind].
  - destruct results as [|f results].
    + split; [|intros e [= <-]; by left]. split; [|done]. intros _.
      intros ticker ratio Ht%Hmem. by apply (estimate_tickers_none _ _ _ Hrun).
    + split; [|done]. split; [done|]. intros Hall.
      rewrite estimate_tickers_all_skipped in Hrun; [done|].
      intros ticker ratio Ht%Hmem. by apply Hall.
  - destruct (estimate_tickers_raises _ _ _ _ Hrun) as [(ratio & Hr & Hcol & ->)|[msg ->]].
    + split; [|intros e [= <-]; right; left; by exists ratio].
      split.
      * intros [= ->]. exfalso. vm_compute in Hr.
        repeat (apply elem_of_cons in Hr as [Hr|Hr]; [discriminate|]).
        by apply elem_of_nil in Hr.
      * intros Hall.
        rewrite estimate_tickers_all_skipped in Hrun; [done|].
        intros ticker ratio' Ht%Hmem. by apply Hall.
    + split; [|intros e [= <-]; right; right; by exists msg].
      split; [done|]. intros Hall.
      rewrite estimate_tickers_all_skipped in Hrun; [done|].
      intros ticker ratio' Ht%Hmem. by apply Hall.
Qed.

Lemma filter_all {A : Type} (P : A → Prop) `{∀ x, Decision (P x)} (l : list A) :
  (∀ x, x ∈ l → P x) → filter P l = l.
Proof.
  induction l as [|x l IH]; intros Hall; [done|].
  rewrite filter_cons_True by (apply Hall; by left).
  f_equal. apply IH. intros y Hy. apply Hall. by right.
Qed.

Lemma filter_none {A : Type} (P : A → Prop) `{∀ x, Decision (P x)} (l : list A) :
  (∀ x, x ∈ l → ¬ P x) → filter P l = [].
Proof.
  induction l as [|x l IH]; intros Hall; [done|].
  rewrite filter_cons_False by (apply Hall; by left).
  apply IH. intros y Hy. apply Hall. by right.
Qed.

Lemma estimate_ratios_sublist (sm : statsmodels) (panel : Panel R)
    (ticker : string) (ratios : list string) (features : list Feature) :
  estimate_ratios sm panel ticker ratios = Returned features →
  f_ratio <$> features `sublist_of` ratios.
Proof.
  revert features. induction ratios as [|ratio ratios IH]; intros features.
  - by intros [= <-].
  - rewrite estimate_ratios_cons.
    destruct (ticker_series panel ticker ratio) as [series|]; [|done].
    cbn [mbind result_bind].
    destruct (n_valid series <? AR_ORDER + DIFF_ORDER + 3)%nat.
    { intros Hrest. apply sublist_cons. by apply IH. }
    destruct (_fit_ar1_on_diff sm series) as [[fit|]|]; [| |done];
      cbn [mbind result_bind].
    + destruct (estimate_ratios sm panel ticker ratios) as [rest|]; [|done].
      cbn [mbind result_bind]. intros [= <-]. cbn. apply sublist_skip.
      by apply IH.
    + intros Hrest. apply sublist_cons. by apply IH.
Qed.

Lemma estimate_tickers_order (sm : statsmodels) (panel : Panel R)
    (tickers : list string) (features : list Feature) :
  NoDup tickers → StronglySorted String.le tickers →
  estimate_tickers sm panel tickers = Returned features →
  StronglySorted String.le (f_ticker <$> features)
  ∧ (∀ t, f_ratio <$> filter (λ f, f_ticker f = t) features
          `sublist_of` RATIO_NAMES)
  ∧ NoDup ((λ f, (f_ticker f, f_ratio f)) <$> features)
  ∧ (length features ≤ 7 * length tickers)%nat.
Proof.
  revert features. induction tickers as [|t tickers IH];
    intros features Hnd Hsorted.
  { intros [= <-]. split_and!; [constructor|intros t; apply sublist_nil_l
                                |constructor|done]. }
  rewrite estimate_tickers_cons.
  destruct (estimate_ratios sm panel t RATIO_NAMES) as [here|] eqn:Hhere;
    [|done]. cbn [mbind result_bind].
  destruct (estimate_tickers sm panel tickers) as [rest|] eqn:Hrest; [|done].
  cbn [mbind result_bind]. intros [= <-].
  apply NoDup_cons in Hnd as [Ht Hnd].
  apply StronglySorted_cons in Hsorted as [Hle Hsorted].
  destruct (IH rest Hnd Hsorted eq_refl) as (IHs & IHr & IHn & IHl).
  pose proof (estimate_ratios_sublist _ _ _ _ _ Hhere) as Hsub.
  assert (∀ f, f ∈ here → f_ticker f = t) as Hhere_t.
  { intros f Hf. by destruct (estimate_ratios_fits _ _ _ _ _ Hhere f Hf). }
  assert (∀ f, f ∈ rest → f_ticker f ∈ tickers) as Hrest_t.
  { intros f Hf. by destruct (estimate_tickers_fits _ _ _ _ Hrest f Hf). }
  split_and!.
  - rewrite fmap_app. apply StronglySorted_app_2; [| |done].
    + intros x1 x2 (f1 & -> & Hf1)%list_elem_of_fmap
        (f2 & -> & Hf2)%list_elem_of_fmap.
      rewrite (Hhere_t f1 Hf1). rewrite Forall_forall in Hle.
      apply Hle, Hrest_t, Hf2.
    + clear -Hhere_t. induction here as [|f here IH]; [constructor|].
      cbn. constructor.
      * apply IH. intros f' Hf'. apply Hhere_t. by right.
      * apply Forall_forall.
        intros x (f' & -> & Hf')%list_elem_of_fmap.
        rewrite (Hhere_t f) by (by left).
        rewrite (Hhere_t f') by (by right). done.
  - intros t'. rewrite filter_app, fmap_app.
    destruct (decide (t' = t)) as [-> |Hne].
    + rewrite (filter_all _ here) by done.
      rewrite (filter_none _ rest), app_nil_r; [done|].
      intros f Hf Heq. apply Ht. rewrite <- Heq. by apply Hrest_t.
    + rewrite (filter_none _ here); [apply IHr|].
      intros f Hf Heq. apply Hne. rewrite <- Heq. by apply Hhere_t.
  - rewrite fmap_app. apply NoDup_app. split_and!; [| |done].
    + apply (NoDup_fmap_1 snd). rewrite <- list_fmap_compose.
      apply (sublist_NoDup _ RATIO_NAMES); [|done].
      apply load_data_spec.RATIO_NAMES_NoDup.
    + intros x (f1 & -> & Hf1)%list_elem_of_fmap
        (f2 & [= Heq _] & Hf2)%list_elem_of_fmap.
      apply Ht. rewrite <- (Hhere_t f1 Hf1), Heq. by apply Hrest_t.
  - rewrite length_app. apply sublist_length in Hsub.
    rewrite length_fmap in Hsub.
    change (length RATIO_NAMES) with 7%nat in Hsub. cbn [length]. lia.
Qed.

(** X19. The feature table is in the order of the loops: its rows run
    through the tickers in ascending order and, for each ticker, through
    the ratios in the order of RATIO_NAMES; no (ticker, ratio) pair has two
    rows, and there are at most seven rows per ticker of the panel. *)
Theorem features_in_loop_order (sm : statsmodels) (panel : Panel R)
    (features : list Feature) :
  estimate_ar_features sm panel = Returned features →
  StronglySorted String.le (f_ticker <$> features)
  ∧ (∀ t, f_ratio <$> filter (λ f, f_ticker f = t) features
          `sublist_of` RATIO_NAMES)
  ∧ NoDup ((λ f, (f_ticker f, f_ratio f)) <$> features)
  ∧ (length features ≤ 7 * length (remove_dups (p_ticker panel)))%nat.
Proof.
  unfold estimate_ar_features.
  destruct (estimate_tickers sm panel _) as [results|] eqn:Hrun; [|done].
  cbn [mbind result_bind]. destruct results as [|f0 results]; [done|].
  intros [= <-].
  apply estimate_tickers_order in Hrun.
  - by rewrite merge_sort_Permutation in Hrun.
  - rewrite merge_sort_Permutation. apply NoDup_remove_dups.
  - apply StronglySorted_merge_sort; apply _.
Qed.

Lemma two_companies_series (ticker ratio : string) :
  ticker ∈ ["AAA"; "BBB"] → ratio ∈ RATIO_NAMES →
  ticker_series two_companies ticker ratio
  = Returned (if decide (ratio ∈ ["ROA"; "ROE"]) then roa_values
              else replicate 6 None).
Proof.
  intros Ht Hin. apply list_elem_of_In in Hin. simpl in Hin.
  set_unfold in Ht.
  destruct Ht as [ -> | [ -> | [] ] ];
    destruct Hin as [<-|[<-|[<-|[<-|[<-|[<-|[<-|[]]]]]]]];
    vm_compute; reflexivity.
Qed.

Lemma two_companies_features_returned :
  estimate_ar_features fixed_fit two_companies = Returned two_companies_features.
Proof.
  unfold estimate_ar_features.
  replace (merge_sort String.le (remove_dups (p_ticker two_companies)))
    with ["AAA"; "BBB"] by (vm_compute; reflexivity).
  rewrite !estimate_tickers_cons. unfold RATIO_NAMES, RATIOS. cbn [map name].
  repeat (rewrite estimate_ratios_cons, two_companies_series
            by (apply (bool_decide_unpack _); vm_compute; reflexivity);
          cbn [mbind result_bind];
          first [ rewrite decide_True
                    by (apply (bool_decide_unpack _); vm_compute; reflexivity)
                | rewrite decide_False
                    by (apply (bool_decide_unpack _); vm_compute; reflexivity) ];
          first [ replace (n_valid roa_values <? AR_ORDER + DIFF_ORDER + 3)%nat
                    with false by reflexivity;
                  rewrite example_fit_returned; cbn [mbind result_bind]
                | replace (n_valid (replicate 6 None) <? AR_ORDER + DIFF_ORDER + 3)%nat
                    with true by reflexivity ]).
  reflexivity.
Qed.

Lemma features_in_loop_order_witness :
  StronglySorted String.le (f_ticker <$> two_companies_features)
  ∧ (∀ t, f_ratio <$> filter (λ f, f_ticker f = t) two_companies_features
          `sublist_of` RATIO_NAMES)
  ∧ NoDup ((λ f, (f_ticker f, f_ratio f)) <$> two_companies_features)
  ∧ (length two_companies_features
     ≤ 7 * length (remove_dups (p_ticker two_companies)))%nat.
Proof.
  apply (features_in_loop_order fixed_fit two_companies).
  exact two_companies_features_returned.
Defined.

(** The four rows of the example in their order: by ticker, then by
    ratio, though the panel has the rows of BBB first. *)
Example two_companies_order :
  (λ f, (f_ticker f, f_ratio f)) <$> two_companies_features
  = [("AAA", "ROA"); ("AAA", "ROE"); ("BBB", "ROA"); ("BBB", "ROE")].
Proof. reflexivity. Qed.

Lemma rint_ge (k : Z) (x : R) : IZR k <= x → (k ≤ rint x)%Z.
Proof.
  intros Hk. destruct (base_Int_part x) as [Hlo Hhi].
  assert (k ≤ Int_part x)%Z as Hn.
  { apply Z.lt_succ_r, lt_IZR. rewrite succ_IZR. lra. }
  unfold rint. repeat case_decide; try destruct (Z.even _); lia.
Qed.

Lemma rint_le (k : Z) (x : R) : x <= IZR k → (rint x ≤ k)%Z.
Proof.
  intros Hk. destruct (base_Int_part x) as [Hlo Hhi].
  assert (Int_part x ≤ k)%Z as Hn by (apply le_IZR; lra).
  destruct (decide (Int_part x = k)) as [Heq|Hne].
  - unfold rint. rewrite decide_True; [lia|]. rewrite Heq. lra.
  - unfold rint. repeat case_decide; try destruct (Z.even _); lia.
Qed.

Lemma round_ge (decimals : nat) (lo : Z) (x : R) :
  IZR lo <= x → ∃ v, round decimals (Some x) = Some v ∧ IZR lo <= v.
Proof.
  intros Hlo. eexists. split; [reflexivity|].
  assert (0 < 10 ^ decimals) as Hpos by (apply pow_lt; lra).
  assert (IZR (lo * 10 ^ Z.of_nat decimals) = IZR lo * 10 ^ decimals) as Elo.
  { rewrite mult_IZR. f_equal. by rewrite <- pow_IZR. }
  apply Rmult_le_reg_r with (10 ^ decimals); [done|].
  unfold Rdiv. rewrite Rmult_assoc, Rinv_l, Rmult_1_r by lra.
  rewrite <- Elo. apply IZR_le, rint_ge. rewrite Elo. nra.
Qed.

Lemma round_le (decimals : nat) (hi : Z) (x : R) :
  x <= IZR hi → ∃ v, round decimals (Some x) = Some v ∧ v <= IZR hi.
Proof.
  intros Hhi. eexists. split; [reflexivity|].
  assert (0 < 10 ^ decimals) as Hpos by (apply pow_lt; lra).
  assert (IZR (hi * 10 ^ Z.of_nat decimals) = IZR hi * 10 ^ decimals) as Ehi.
  { rewrite mult_IZR. f_equal. by rewrite <- pow_IZR. }
  apply Rmult_le_reg_r with (10 ^ decimals); [done|].
  unfold Rdiv. rewrite Rmult_assoc, Rinv_l, Rmult_1_r by lra.
  rewrite <- Ehi. apply IZR_le, rint_le. rewrite Ehi. nra.
Qed.

Lemma length_dropna (series : list float) :
  length (dropna series) = n_valid series.
Proof.
  unfold dropna, n_valid. induction series as [|[x|] series IH]; [done| |].
  - rewrite filter_cons_True by (by eexists). cbn. by rewrite IH.
  - rewrite filter_cons_False by (by intros [? [=]]). done.
Qed.

Lemma elem_of_dropna_R (series : list float) (x : R) :
  x ∈ dropna series ↔ Some x ∈ series.
Proof.
  unfold dropna. rewrite list_elem_of_omap. split.
  - by intros (c & Hc & ->).
  - intros Hx. by exists (Some x).
Qed.

Lemma sum_R_ge (lo : R) (l : list R) :
  (∀ x, x ∈ l → lo <= x) → lo * INR (length l) <= sum_R l.
Proof.
  induction l as [|x l IH]; intros Hall; [cbn; lra|].
  cbn [sum_R foldr length]. rewrite S_INR.
  assert (lo <= x) by (apply Hall; by left).
  assert (lo * INR (length l) <= sum_R l)
    by (apply IH; intros y Hy; apply Hall; by right).
  unfold sum_R in *. lra.
Qed.

(** The mean and the median of a series with a value are numbers, and not
    below a bound that is below every value. *)
Lemma nanmean_ge (lo : R) (series : list float) :
  (1 ≤ n_valid series)%nat → (∀ x, Some x ∈ series → lo <= x) →
  ∃ m, nanmean series = Some m ∧ lo <= m.
Proof.
  intros Hn Hall. unfold nanmean. rewrite <- length_dropna in Hn.
  assert (∀ x, x ∈ dropna series → lo <= x) as Hall'
    by (intros x Hx%elem_of_dropna_R; by apply Hall).
  destruct (dropna series) as [|v values] eqn:Hd; [cbn in Hn; lia|].
  eexists. split; [reflexivity|]. unfold mean.
  pose proof (sum_R_ge lo (v :: values) Hall') as Hsum.
  assert (0 < INR (length (v :: values))) as Hpos by (apply lt_0_INR; cbn; lia).
  apply Rmult_le_reg_r with (INR (length (v :: values))); [done|].
  unfold Rdiv. rewrite Rmult_assoc, Rinv_l, Rmult_1_r by lra. done.
Qed.

Lemma median_ge (lo : R) (series : list float) :
  (1 ≤ n_valid series)%nat → (∀ x, Some x ∈ series → lo <= x) →
  ∃ m, median series = Some m ∧ lo <= m.
Proof.
  intros Hn Hall. unfold median. rewrite <- length_dropna in Hn.
  set (values := merge_sort Rle (dropna series)).
  assert (length values = length (dropna series)) as Hlen
    by (unfold values; by rewrite merge_sort_Permutation).
  assert (∀ i x, values !! i = Some x → lo <= x) as Hval.
  { intros i x Hx%list_elem_of_lookup_2. unfold values in Hx.
    rewrite merge_sort_Permutation in Hx. by apply Hall, elem_of_dropna_R. }
  rewrite Hlen in *. set (n := length (dropna series)) in *.
  assert (n / 2 < n)%nat as Hhalf by (apply Nat.div_lt; lia).
  destruct (values !! (n / 2)%nat) as [b|] eqn:Hb;
    [|apply lookup_ge_None in Hb; lia].
  destruct (Nat.even n) eqn:Heven.
  - destruct (values !! (n / 2 - 1)%nat) as [a|] eqn:Ha;
      [|apply lookup_ge_None in Ha; lia].
    cbn. eexists. split; [reflexivity|].
    pose proof (Hval _ _ Ha). pose proof (Hval _ _ Hb). lra.
  - exists b. split; [done|]. by apply (Hval _ _ Hb).
Qed.

Lemma median_no_value (series : list float) :
  n_valid series = 0%nat → median series = None.
Proof.
  intros Hn. unfold median. rewrite <- length_dropna in Hn.
  apply nil_length_inv in Hn. rewrite Hn. reflexivity.
Qed.

Lemma nanmean_no_value (series : list float) :
  n_valid series = 0%nat → nanmean series = None.
Proof.
  intros Hn. unfold nanmean. rewrite <- length_dropna in Hn.
  apply nil_length_inv in Hn. by rewrite Hn.
Qed.

Lemma pct_below_range (level : R) (series : list float) :
  series ≠ [] → ∃ p, pct_below level series = Some p ∧ 0 <= p <= 100.
Proof.
  intros Hne. unfold pct_below. destruct series as [|c series]; [done|].
  eexists. split; [reflexivity|].
  set (l := c :: series).
  assert (0 < INR (length l)) as Hpos by (apply lt_0_INR; cbn; lia).
  assert (0 <= INR (length (filter (λ p, float_lt p (Some level) = true) l)))
    as Hk by apply pos_INR.
  assert (INR (length (filter (λ p, float_lt p (Some level) = true) l))
          <= INR (length l)) as Hle by (apply le_INR, length_filter).
  split.
  - apply Rmult_le_pos; [|lra]. apply Rmult_le_pos; [done|].
    apply Rlt_le, Rinv_0_lt_compat, Hpos.
  - assert (INR (length (filter (λ p, float_lt p (Some level) = true) l))
            / INR (length l) <= 1); [|lra].
    apply Rmult_le_reg_r with (INR (length l)); [done|].
    unfold Rdiv. rewrite Rmult_assoc, Rinv_l, Rmult_1_r by lra. lra.
Qed.

Lemma summarize_returns (features : list Feature) (summary : list Summary) :
  summarize_by_ratio features = Returned summary →
  features ≠ []
  ∧ s_ratio <$> summary = merge_sort String.le (remove_dups (f_ratio <$> features))
  ∧ ∀ s, s ∈ summary →
      s = summarize_group (s_ratio s)
            (filter (λ f, f_ratio f = s_ratio s) features).
Proof.
  unfold summarize_by_ratio. destruct features as [|f0 features]; [done|].
  intros [= <-]. split; [done|]. split.
  - rewrite <- list_fmap_compose. etrans; [|apply list_fmap_id].
    by apply list_fmap_ext.
  - by intros s (r & -> & _)%list_elem_of_fmap.
Qed.

Lemma summary_ratios (features : list Feature) (summary : list Summary) :
  summarize_by_ratio features = Returned summary →
  StronglySorted String.le (s_ratio <$> summary)
  ∧ NoDup (s_ratio <$> summary)
  ∧ ∀ r, r ∈ s_ratio <$> summary ↔ r ∈ f_ratio <$> features.
Proof.
  intros (_ & -> & _)%summarize_returns. split_and!.
  - apply StronglySorted_merge_sort; apply _.
  - rewrite merge_sort_Permutation. apply NoDup_remove_dups.
  - intros r. by rewrite merge_sort_Permutation, elem_of_remove_dups.
Qed.

(** X20. [summarize_by_ratio] gives one row per ratio that occurs in the
    feature table, the ratios in ascending order; for the table built from
    no estimate (it has no column) it raises KeyError for the key ratio. *)
Theorem summary_one_row_per_ratio (features : list Feature) :
  (features = [] → summarize_by_ratio features = Raised (KeyError "ratio"))
  ∧ (features ≠ [] →
     ∃ summary, summarize_by_ratio features = Returned summary
       ∧ summary ≠ []
       ∧ StronglySorted String.le (s_ratio <$> summary)
       ∧ NoDup (s_ratio <$> summary)
       ∧ ∀ r, r ∈ s_ratio <$> summary ↔ ∃ f, f ∈ features ∧ f_ratio f = r).
Proof.
  split; [by intros ->|]. intros Hne.
  destruct (summarize_by_ratio features) as [summary|e] eqn:Hrun.
  - exists summary. destruct (summary_ratios _ _ Hrun) as (Hs & Hn & Hmem).
    split_and!; [done| |done|done|].
    + destruct features as [|f0 features]; [done|].
      intros ->. specialize (Hmem (f_ratio f0)). cbn in Hmem.
      assert (f_ratio f0 ∈ @nil string) as Hin by (apply Hmem; by left).
      by apply elem_of_nil in Hin.
    + intros r. rewrite Hmem, list_elem_of_fmap.
      split; [intros (f & -> & Hf); by exists f|intros (f & Hf & <-); by exists f].
  - unfold summarize_by_ratio in Hrun. by destruct features.
Qed.

(** X21. In every row of the summary, n counts the estimates of the ratio
    whose phi1 is not NaN, so it is at most the number of estimates of the
    ratio, which is at least one; the share of significant slopes is a
    number from 0 to 100; without a phi1 that is not NaN the mean and the
    median of phi1 are NaN, and with at most one its standard deviation is
    NaN. *)
Theorem summary_row_counts (features : list Feature) (summary : list Summary)
    (s : Summary) :
  summarize_by_ratio features = Returned summary → s ∈ summary →
  let rows := filter (λ f, f_ratio f = s_ratio s) features in
  (1 ≤ length rows)%nat
  ∧ s_n s = n_valid ((λ f, phi1 (f_fit f)) <$> rows)
  ∧ (s_n s ≤ length rows)%nat
  ∧ (∃ p, phi1_signif_pct s = Some p ∧ 0 <= p <= 100)
  ∧ (s_n s = 0%nat → phi1_mean s = None ∧ phi1_median s = None)
  ∧ ((s_n s ≤ 1)%nat → phi1_std s = None).
Proof.
  intros Hrun Hs rows.
  destruct (summarize_returns _ _ Hrun) as (_ & _ & Hrow).
  destruct (summary_ratios _ _ Hrun) as (_ & _ & Hmem).
  assert (rows ≠ []) as Hrows.
  { assert (s_ratio s ∈ f_ratio <$> features) as Hin
      by (apply Hmem; by apply list_elem_of_fmap_2).
    apply list_elem_of_fmap in Hin as (f & Hf & Hin).
    intros Hnil. assert (f ∈ rows) as Hfr by (by apply list_elem_of_filter).
    rewrite Hnil in Hfr. by apply elem_of_nil in Hfr. }
  rewrite (Hrow s Hs). fold rows. unfold summarize_group.
  cbn [s_n phi1_signif_pct phi1_mean phi1_median phi1_std].
  split_and!.
  - destruct rows; [done|cbn; lia].
  - done.
  - pose proof (length_filter (λ c : float, is_Some c)
                  ((λ f, phi1 (f_fit f)) <$> rows)) as Hl.
    rewrite length_fmap in Hl. exact Hl.
  - destruct (pct_below_range (5 / 100) ((λ f, phi1_pval (f_fit f)) <$> rows))
      as (p & -> & Hp0 & Hp100).
    { intros Hnil%fmap_nil_inv. done. }
    destruct (round_ge 4 0 p Hp0) as (v & Hv & Hv0).
    destruct (round_le 4 100 p Hp100) as (v' & Hv' & Hv100).
    exists v. split; [done|]. rewrite Hv in Hv'. injection Hv' as <-. lra.
  - intros Hn. by rewrite nanmean_no_value, median_no_value.
  - intros Hn. unfold std. rewrite length_dropna.
    by rewrite (proj2 (Nat.leb_le _ _) Hn).
Qed.

Lemma fit_sigma (sm : statsmodels) (series : list float) (fit : Fit) :
  _fit_ar1_on_diff sm series = Returned (Some fit) →
  ∃ s, sigma_diff fit = Some s ∧ 1 / 10 ^ 15 <= s.
Proof.
  intros Hfit.
  destruct (fit_returned_fields sm series fit Hfit) as (Hd & Hs & _ & -> & _).
  apply Nat.ltb_ge in Hd. unfold AR_ORDER in Hd. unfold std in *.
  destruct (_ <=? 1)%nat eqn:Hle; [apply Nat.leb_le in Hle; lia|].
  eexists. split; [done|].
  cbn [float_lt] in Hs. apply bool_decide_eq_false in Hs. lra.
Qed.

(** X22. The feature table [estimate_ar_features] returns can always be
    summarized: [summarize_by_ratio] returns for it between one and seven
    rows, each for a ratio of RATIO_NAMES, and in each row the mean and
    the median of sigma_diff are numbers, not NaN, and not negative. *)
Theorem estimate_then_summarize (sm : statsmodels) (panel : Panel R)
    (features : list Feature) :
  estimate_ar_features sm panel = Returned features →
  ∃ summary, summarize_by_ratio features = Returned summary
    ∧ (1 ≤ length summary ≤ 7)%nat
    ∧ ∀ s, s ∈ summary →
        s_ratio s ∈ RATIO_NAMES
        ∧ (∃ m, sigma_mean s = Some m ∧ 0 <= m)
        ∧ (∃ m, sigma_median s = Some m ∧ 0 <= m).
Proof.
  intros Hest. destruct (estimate_ar_features_fits _ _ _ Hest) as [Hne Hfits].
  destruct (summarize_by_ratio features) as [summary|e] eqn:Hrun;
    [|unfold summarize_by_ratio in Hrun; by destruct features].
  exists summary. split; [done|].
  destruct (summarize_returns _ _ Hrun) as (_ & Hratios & Hrow).
  destruct (summary_ratios _ _ Hrun) as (_ & Hnd & Hmem).
  assert (∀ r, r ∈ s_ratio <$> summary → r ∈ RATIO_NAMES) as Hsub.
  { intros r (f & -> & Hf)%Hmem%list_elem_of_fmap.
    by destruct (Hfits f Hf) as (_ & ? & _). }
  split; [split|].
  - destruct summary as [|s0 summary]; [|cbn; lia].
    destruct features as [|f0 features]; [done|].
    assert (f_ratio f0 ∈ s_ratio <$> @nil Summary) as Hin
      by (apply Hmem; cbn; by left).
    by apply elem_of_nil in Hin.
  - rewrite <- (length_fmap s_ratio).
    change 7%nat with (length RATIO_NAMES).
    apply submseteq_length, NoDup_submseteq; done.
  - intros s Hs. split; [by apply Hsub, list_elem_of_fmap_2|].
    set (rows := filter (λ f, f_ratio f = s_ratio s) features).
    set (sigmas := (λ f, sigma_diff (f_fit f)) <$> rows).
    assert (∀ x, Some x ∈ sigmas → 0 <= x) as Hpos.
    { intros x (f & Hx & [_ Hf]%list_elem_of_filter)%list_elem_of_fmap.
      destruct (Hfits f Hf) as (_ & _ & series & _ & _ & Hfit).
      destruct (fit_sigma _ _ _ Hfit) as (sg & Hsg & Hlow).
      rewrite Hsg in Hx. injection Hx as ->.
      assert (0 < 1 / 10 ^ 15) by (apply Rdiv_lt_0_compat; [lra|apply pow_lt; lra]).
      lra. }
    assert (1 ≤ n_valid sigmas)%nat as Hvalid.
    { assert (s_ratio s ∈ f_ratio <$> features) as Hin
        by (apply Hmem; by apply list_elem_of_fmap_2).
      apply list_elem_of_fmap in Hin as (f & Hr & Hf).
      assert (f ∈ rows) as Hfr by (by apply list_elem_of_filter).
      destruct (Hfits f Hf) as (_ & _ & series & _ & _ & Hfit).
      destruct (fit_sigma _ _ _ Hfit) as (sg & Hsg & _).
      rewrite <- length_dropna.
      assert (sg ∈ dropna sigmas) as Hel.
      { apply elem_of_dropna_R. rewrite <- Hsg.
        by apply (list_elem_of_fmap_2 (λ f, sigma_diff (f_fit f))). }
      destruct (dropna sigmas); [by apply elem_of_nil in Hel|cbn; lia]. }
    rewrite (Hrow s Hs). fold rows. unfold summarize_group.
    cbn [sigma_mean sigma_median]. fold sigmas. split.
    + destruct (nanmean_ge 0 sigmas Hvalid Hpos) as (m & -> & Hm).
      by apply (round_ge 4 0).
    + destruct (median_ge 0 sigmas Hvalid Hpos) as (m & -> & Hm).
      by apply (round_ge 4 0).
Qed.

Lemma estimate_then_summarize_witness :
  ∃ summary, summarize_by_ratio [example_feature] = Returned summary
    ∧ (1 ≤ length summary ≤ 7)%nat
    ∧ ∀ s, s ∈ summary →
        s_ratio s ∈ RATIO_NAMES
        ∧ (∃ m, sigma_mean s = Some m ∧ 0 <= m)
        ∧ (∃ m, sigma_median s = Some m ∧ 0 <= m).
Proof.
  apply (estimate_then_summarize fixed_fit six_quarters).
  exact example_features_returned.
Defined.

Lemma summary_row_counts_witness :
  let s := summarize_group "ROA" [example_feature] in
  let rows := filter (λ f, f_ratio f = s_ratio s) [example_feature] in
  (1 ≤ length rows)%nat
  ∧ s_n s = n_valid ((λ f, phi1 (f_fit f)) <$> rows)
  ∧ (s_n s ≤ length rows)%nat
  ∧ (∃ p, phi1_signif_pct s = Some p ∧ 0 <= p <= 100)
  ∧ (s_n s = 0%nat → phi1_mean s = None ∧ phi1_median s = None)
  ∧ ((s_n s ≤ 1)%nat → phi1_std s = None).
Proof.
  apply (summary_row_counts [example_feature]
           [summarize_group "ROA" [example_feature]]).
  - reflexivity.
  - by left.
Defined.

End ar_model_props.
